(** * The DTX encoder [modelToDTX]: a shallow embedding and its properties

    The encoder flattens a scene model (geometries with their buckets,
    textures, texture sets, meshes, objects) into one record of typed arrays.
    It runs a size pre-pass, allocates every array, then fills the arrays
    with a sequence of loops that advance write cursors.

    The embedding follows the TypeScript source statement by statement:
    - a JavaScript number that is only ever a length, an index or a cursor is
      a [nat]; an element of an integer array is a [Z]; any other number is a
      binary64 [float];
    - a typed array is a [list] of its elements, [new Uint8Array(n)] is [n]
      zeros, an indexed store converts the value to the element type and is
      dropped when the index is out of range, and [target.set(source, offset)]
      throws a [RangeError] when the source does not fit;
    - reading a property of [undefined] throws a [TypeError];
    - a plain object used as a dictionary is the [gmap] of its own
      properties, keyed by strings; a write under the name [__proto__] adds
      none, and a read that finds none is stored as 0;
    - the image data of a texture is an integer typed array, given by its
      elements and the width of an element. *)

From Stdlib Require Import ZArith QArith Qround Qabs Floats Ascii.
From stdpp Require Import base option list gmap strings pretty.

#[local] Set Warnings "-inexact-float".
#[local] Open Scope Z_scope.

(** ** The parts of the ECMAScript runtime the encoder relies on *)

Module ES.

(** Abrupt completions: the two exceptions the encoder can raise. *)
Inductive Exception : Set := TypeError | RangeError.

Inductive Completion (A : Type) : Type :=
  | Normal (a : A)
  | Throw (e : Exception).
Arguments Normal {A} a.
Arguments Throw {A} e.

Definition bind {A B} (c : Completion A) (k : A -> Completion B) : Completion B :=
  match c with
  | Normal a => k a
  | Throw e => Throw e
  end.

(** [truncate x]: the integer part of a finite number, towards zero; [0] for
    NaN, the zeros and the infinities (the first steps of ToUint8, ToUint16,
    ToUint32 and ToInt32). *)
Definition truncateSF (f : spec_float) : Z :=
  match f with
  | S754_finite s m e =>
      let magnitude :=
        if 0 <=? e then Z.shiftl (Z.pos m) e else Z.shiftr (Z.pos m) (- e) in
      if s then - magnitude else magnitude
  | _ => 0
  end.

Definition truncate (x : float) : Z := truncateSF (Prim2SF x).

(** Integer conversions, modulo 2^w. *)
Definition wrap (w : Z) (z : Z) : Z := z mod 2 ^ w.
Definition wrap_signed (w : Z) (z : Z) : Z := (z + 2 ^ (w - 1)) mod 2 ^ w - 2 ^ (w - 1).

Definition ToUint8 (x : float) : Z := wrap 8 (truncate x).
Definition ToUint16 (x : float) : Z := wrap 16 (truncate x).
Definition ToUint32 (x : float) : Z := wrap 32 (truncate x).
Definition ToInt32 (x : float) : Z := wrap_signed 32 (truncate x).

(** [Math.fround]: the conversion a [Float32Array] applies on a store. *)
Definition fround (x : float) : float :=
  match Prim2SF x with
  | S754_finite s m e =>
      SF2Prim (binary_normalize 24 128 (if s then Z.neg m else Z.pos m) e s)
  | _ => x
  end.

(** *** Typed arrays *)

(** [new XArray(n)]: [n] elements, all zero. *)
Definition alloc {A} (zero : A) (n : nat) : list A := replicate n zero.

(** [target[i] = v]: a store out of range is ignored. *)
Definition store {A B} (conv : B -> A) (target : list A) (i : nat) (v : B) : list A :=
  <[i := conv v]> target.

(** [target.set(source, offset)]: the elements of the source replace those
    of the target from [offset] on; throws when the source does not fit. *)
Definition overwrite {A} (target : list A) (offset : nat) (new : list A) : list A :=
  take offset target ++ new ++ drop (offset + length new) target.

Definition set {A B} (conv : B -> A) (target : list A) (source : list B) (offset : nat)
  : Completion (list A) :=
  if decide (offset + length source <= length target)%nat
  then Normal (overwrite target offset (conv <$> source))
  else Throw RangeError.

(** An integer typed array given as a source: its elements ([length] of
    them) and the width of one element, so that [byteLength] is their
    product. *)
Record TypedArray : Type := {
  values : list Z;
  BYTES_PER_ELEMENT : positive
}.

Definition byteLength (a : TypedArray) : nat :=
  (Pos.to_nat (BYTES_PER_ELEMENT a) * length (values a))%nat.

(** [a[i] = v] on a plain array: the array grows, with holes, up to [i]. *)
Definition put {A} (a : list (option A)) (i : nat) (v : A) : list (option A) :=
  <[i := Some v]> (a ++ replicate (S i - length a) None).

(** [object[key] = value] on a plain object used as a dictionary of numbers.
    The key [__proto__] names the accessor inherited from [Object.prototype],
    whose setter ignores a number: that write leaves the object as it was.
    Every other key becomes, or updates, an own property. *)
Definition property_set {V} (key : string) (value : V) (object : gmap string V)
  : gmap string V :=
  if decide (key = "__proto__") then object else <[key := value]> object.

(** [object[key]] stored into an integer typed array. A key that is no own
    property reads as [undefined] or, for a name of [Object.prototype], as a
    function or an object; the typed array stores each of them as [0]. *)
Definition index_value (o : option nat) : Z := from_option Z.of_nat 0 o.

(** [v || d] on an optional number: [undefined] and [0] are falsy. *)
Definition or_default (o : option Z) (d : Z) : Z :=
  match o with
  | Some v => if v =? 0 then d else v
  | None => d
  end.

(** Loops over an array, in order; the indexed form passes the loop counter. *)
Fixpoint for_each {A St} (body : A -> St -> Completion St) (l : list A) (s : St)
  : Completion St :=
  match l with
  | [] => Normal s
  | a :: l' => bind (body a s) (for_each body l')
  end.

Fixpoint for_each_from {A St} (body : nat -> A -> St -> Completion St) (i : nat)
    (l : list A) (s : St) : Completion St :=
  match l with
  | [] => Normal s
  | a :: l' => bind (body i a s) (for_each_from body (S i) l')
  end.

(** *** Number::toString, radix 10 *)

(** Decimal digits of a natural number. *)
Definition digits (s : Z) : string := pretty (Z.to_N s).

Definition zeros (n : Z) : string := String.concat "" (replicate (Z.to_nat n) "0"%string).

Definition Qpow10 (p : Z) : Q := Qpower (10 # 1) p.

(** The least [n] with [x < 10^n], searched upwards from an underestimate
    obtained from the binary logarithm. *)
Fixpoint magnitude_from (fuel : nat) (x : Q) (n : Z) : Z :=
  match fuel with
  | O => n
  | S fuel' => if Qle_bool (Qpow10 n) x then magnitude_from fuel' x (n + 1) else n
  end.

Definition magnitude (m : positive) (e : Z) : Z :=
  let L := Z.log2 (Z.pos m) + e in
  magnitude_from 4 (inject_Z (Z.pos m) * Qpower (2 # 1) e)%Q (L * 30103 / 100000 - 1).

(** The numbers that read back as the double [m * 2^e]: the interval between
    the midpoints to its two neighbours, closed when [m] is even. *)
Definition reads_back (m : positive) (e : Z) (v : Q) : bool :=
  let hi := (inject_Z (2 * Z.pos m + 1) * Qpower (2 # 1) (e - 1))%Q in
  let lo :=
    if (Z.pos m =? 2 ^ 52) && (-1074 <? e)
    then (inject_Z (4 * Z.pos m - 1) * Qpower (2 # 1) (e - 2))%Q
    else (inject_Z (2 * Z.pos m - 1) * Qpower (2 # 1) (e - 1))%Q in
  if Z.even (Z.pos m)
  then Qle_bool lo v && Qle_bool v hi
  else negb (Qle_bool v lo) && negb (Qle_bool hi v).

(** The shortest digit string [s] (of [k] digits) and exponent [n] with
    [s * 10^(n-k)] reading back as the number; the closest one when there are
    two of that length, the even one on a tie. *)
Fixpoint shortest (fuel : nat) (m : positive) (e : Z) (nx : Z) (k : Z) : Z * Z * Z :=
  let x := (inject_Z (Z.pos m) * Qpower (2 # 1) e)%Q in
  let p := nx - k in
  let f := Qfloor (x / Qpow10 p)%Q in
  let ok c := reads_back m e (inject_Z c * Qpow10 p)%Q in
  let dist c := Qabs (inject_Z c * Qpow10 p - x)%Q in
  let pick c := if c =? 10 ^ k then (10 ^ (k - 1), nx + 1, k) else (c, nx, k) in
  match ok f, ok (f + 1) with
  | true, true =>
      match Qcompare (dist f) (dist (f + 1)) with
      | Lt => pick f
      | Gt => pick (f + 1)
      | Eq => if Z.even f then pick f else pick (f + 1)
      end
  | true, false => pick f
  | false, true => pick (f + 1)
  | false, false =>
      match fuel with
      | O => pick f
      | S fuel' => shortest fuel' m e nx (k + 1)
      end
  end.

Definition positive_toString (m : positive) (e : Z) : string :=
  let '(s, n, k) := shortest 17 m e (magnitude m e) 1 in
  let ds := digits s in
  if (k <=? n) && (n <=? 21) then ds +:+ zeros (n - k)
  else if (0 <? n) && (n <=? 21) then
    String.substring 0 (Z.to_nat n) ds +:+ "." +:+ String.substring (Z.to_nat n) (Z.to_nat (k - n)) ds
  else if (-6 <? n) && (n <=? 0) then "0." +:+ zeros (- n) +:+ ds
  else
    let exponent := (if 0 <=? n - 1 then "+" else "-") +:+ digits (Z.abs (n - 1)) in
    if k =? 1 then ds +:+ "e" +:+ exponent
    else String.substring 0 1 ds +:+ "." +:+ String.substring 1 (Z.to_nat (k - 1)) ds +:+ "e" +:+ exponent.

Definition Number_toString (x : float) : string :=
  match Prim2SF x with
  | S754_nan => "NaN"
  | S754_zero _ => "0"
  | S754_infinity false => "Infinity"
  | S754_infinity true => "-Infinity"
  | S754_finite false m e => positive_toString m e
  | S754_finite true m e => "-" +:+ positive_toString m e
  end.

End ES.

Import ES.

#[global] Instance Completion_ret : MRet Completion := @Normal.
#[global] Instance Completion_bind : MBind Completion := fun A B k c => ES.bind c k.

(** ** Record update *)

Class Setter {R E : Type} (proj : R -> E) := update : (E -> E) -> R -> R.
Arguments update {R E} proj {Setter} f r : simpl nomatch.

Ltac make_setter eta proj :=
  lazymatch type of eta with
  | ?R -> _ =>
      let s := constr:(fun (f : _ -> _) (r : R) =>
        ltac:(let body := eval hnf in (eta r) in
              let p := constr:(proj r) in
              lazymatch eval pattern p in body with
              | ?g _ => let t := eval cbv beta in (g (f p)) in exact t
              end)) in
      exact s
  end.

Notation "r <| proj := v |>" := (update proj (fun _ => v) r)
  (at level 1, left associativity, format "r  <| proj  :=  v |>").
Notation "r <| proj ::= f |>" := (update proj f r)
  (at level 1, left associativity, format "r  <| proj  ::=  f |>").
Notation "r <| proj += n |>" := (update proj (fun v => (v + n)%nat) r)
  (at level 1, left associativity, format "r  <| proj  +=  n |>").

(** ** The scene model

    Each dictionary of the model ([geometries], [textures], ...) is given by
    the list of its values in enumeration order: [Object.values] and
    [for ... in] both follow that order, and the encoder never uses the keys
    for anything else. *)

Record GeometryBucket : Type := {
  positionsCompressed : option (list Z);
  indices : option (list Z);
  edgeIndices : option (list Z);
  colorsCompressed : option (list Z);
  uvsCompressed : option (list float)
}.

Record Geometry : Type := {
  geometry_id : string;
  primitive : Z;
  positionsDecompressMatrix : list float;
  geometryBuckets : list GeometryBucket
}.

Record Texture : Type := {
  texture_id : string;
  imageData : TypedArray;
  compressed : bool;
  mediaType : option Z;
  width : Z;
  height : Z;
  minFilter : option Z;
  magFilter : option Z;
  wrapS : option Z;
  wrapT : option Z;
  wrapR : option Z
}.

Record TextureSet : Type := {
  textureSet_id : string;
  colorTexture : option Texture;
  metallicRoughnessTexture : option Texture;
  emissiveTexture : option Texture;
  occlusionTexture : option Texture
}.

Record Mesh : Type := {
  mesh_id : string;
  geometry : Geometry;
  matrix : list float;
  origin : float * float * float;
  textureSet : option TextureSet;
  color : float * float * float;
  opacity : float;
  metallic : float;
  roughness : float
}.

Record SceneObject : Type := {
  object_id : string;
  object_meshes : list Mesh
}.

Record SceneModel : Type := {
  geometries : list Geometry;
  textures : list Texture;
  textureSets : list TextureSet;
  meshes : list Mesh;
  objects : list SceneObject
}.

(** The constants imported from [@xeokit/constants], whose values are not
    part of the encoder, and the host's [Number::toString], which the
    template literal of the origin key applies to each coordinate. *)
Class Host : Type := {
  TrianglesPrimitive : Z;
  SolidPrimitive : Z;
  SurfacePrimitive : Z;
  LinesPrimitive : Z;
  PointsPrimitive : Z;
  LinearMipmapLinearFilter : Z;
  ClampToEdgeWrapping : Z;
  Number_toString : float -> string
}.

Definition NUM_TEXTURE_ATTRIBUTES : nat := 9.
Definition NUM_MATERIAL_ATTRIBUTES : nat := 6.

(** ** The output record *)

Record DTXData : Type := {
  textureData : list Z;
  eachTextureDataPortion : list Z;
  eachTextureAttributes : list Z;
  positions : list Z;
  colors : list Z;
  uvs : list float;
  indices8Bit : list Z;
  indices16Bit : list Z;
  indices32Bit : list Z;
  edgeIndices8Bit : list Z;
  edgeIndices16Bit : list Z;
  edgeIndices32Bit : list Z;
  eachTextureSetTextures : list Z;
  decodeMatrices : list float;
  eachBucketPositionsPortion : list Z;
  eachBucketColorsPortion : list Z;
  eachBucketUVsPortion : list Z;
  eachBucketIndicesPortion : list Z;
  eachBucketEdgeIndicesPortion : list Z;
  eachBucketIndicesBitness : list Z;
  eachGeometryPrimitiveType : list Z;
  eachGeometryBucketPortion : list Z;
  eachGeometryDecodeMatricesPortion : list Z;
  matrices : list float;
  origins : list float;
  eachMeshGeometriesPortion : list Z;
  eachMeshMatricesPortion : list Z;
  eachMeshOriginsPortion : list Z;
  eachMeshTextureSet : list Z;
  eachMeshMaterialAttributes : list Z;
  eachGeometryId : list (option string);
  eachMeshId : list (option string);
  eachObjectId : list (option string);
  eachObjectMeshesPortion : list Z
}.

Definition DTXData_eta (d : DTXData) : DTXData :=
  {| textureData := textureData d;
     eachTextureDataPortion := eachTextureDataPortion d;
     eachTextureAttributes := eachTextureAttributes d;
     positions := positions d;
     colors := colors d;
     uvs := uvs d;
     indices8Bit := indices8Bit d;
     indices16Bit := indices16Bit d;
     indices32Bit := indices32Bit d;
     edgeIndices8Bit := edgeIndices8Bit d;
     edgeIndices16Bit := edgeIndices16Bit d;
     edgeIndices32Bit := edgeIndices32Bit d;
     eachTextureSetTextures := eachTextureSetTextures d;
     decodeMatrices := decodeMatrices d;
     eachBucketPositionsPortion := eachBucketPositionsPortion d;
     eachBucketColorsPortion := eachBucketColorsPortion d;
     eachBucketUVsPortion := eachBucketUVsPortion d;
     eachBucketIndicesPortion := eachBucketIndicesPortion d;
     eachBucketEdgeIndicesPortion := eachBucketEdgeIndicesPortion d;
     eachBucketIndicesBitness := eachBucketIndicesBitness d;
     eachGeometryPrimitiveType := eachGeometryPrimitiveType d;
     eachGeometryBucketPortion := eachGeometryBucketPortion d;
     eachGeometryDecodeMatricesPortion := eachGeometryDecodeMatricesPortion d;
     matrices := matrices d;
     origins := origins d;
     eachMeshGeometriesPortion := eachMeshGeometriesPortion d;
     eachMeshMatricesPortion := eachMeshMatricesPortion d;
     eachMeshOriginsPortion := eachMeshOriginsPortion d;
     eachMeshTextureSet := eachMeshTextureSet d;
     eachMeshMaterialAttributes := eachMeshMaterialAttributes d;
     eachGeometryId := eachGeometryId d;
     eachMeshId := eachMeshId d;
     eachObjectId := eachObjectId d;
     eachObjectMeshesPortion := eachObjectMeshesPortion d |}.

#[global] Instance set_textureData : Setter textureData := ltac:(make_setter DTXData_eta textureData).
#[global] Instance set_eachTextureDataPortion : Setter eachTextureDataPortion := ltac:(make_setter DTXData_eta eachTextureDataPortion).
#[global] Instance set_eachTextureAttributes : Setter eachTextureAttributes := ltac:(make_setter DTXData_eta eachTextureAttributes).
#[global] Instance set_positions : Setter positions := ltac:(make_setter DTXData_eta positions).
#[global] Instance set_colors : Setter colors := ltac:(make_setter DTXData_eta colors).
#[global] Instance set_uvs : Setter uvs := ltac:(make_setter DTXData_eta uvs).
#[global] Instance set_indices8Bit : Setter indices8Bit := ltac:(make_setter DTXData_eta indices8Bit).
#[global] Instance set_indices16Bit : Setter indices16Bit := ltac:(make_setter DTXData_eta indices16Bit).
#[global] Instance set_indices32Bit : Setter indices32Bit := ltac:(make_setter DTXData_eta indices32Bit).
#[global] Instance set_edgeIndices8Bit : Setter edgeIndices8Bit := ltac:(make_setter DTXData_eta edgeIndices8Bit).
#[global] Instance set_edgeIndices16Bit : Setter edgeIndices16Bit := ltac:(make_setter DTXData_eta edgeIndices16Bit).
#[global] Instance set_edgeIndices32Bit : Setter edgeIndices32Bit := ltac:(make_setter DTXData_eta edgeIndices32Bit).
#[global] Instance set_eachTextureSetTextures : Setter eachTextureSetTextures := ltac:(make_setter DTXData_eta eachTextureSetTextures).
#[global] Instance set_decodeMatrices : Setter decodeMatrices := ltac:(make_setter DTXData_eta decodeMatrices).
#[global] Instance set_eachBucketPositionsPortion : Setter eachBucketPositionsPortion := ltac:(make_setter DTXData_eta eachBucketPositionsPortion).
#[global] Instance set_eachBucketColorsPortion : Setter eachBucketColorsPortion := ltac:(make_setter DTXData_eta eachBucketColorsPortion).
#[global] Instance set_eachBucketUVsPortion : Setter eachBucketUVsPortion := ltac:(make_setter DTXData_eta eachBucketUVsPortion).
#[global] Instance set_eachBucketIndicesPortion : Setter eachBucketIndicesPortion := ltac:(make_setter DTXData_eta eachBucketIndicesPortion).
#[global] Instance set_eachBucketEdgeIndicesPortion : Setter eachBucketEdgeIndicesPortion := ltac:(make_setter DTXData_eta eachBucketEdgeIndicesPortion).
#[global] Instance set_eachBucketIndicesBitness : Setter eachBucketIndicesBitness := ltac:(make_setter DTXData_eta eachBucketIndicesBitness).
#[global] Instance set_eachGeometryPrimitiveType : Setter eachGeometryPrimitiveType := ltac:(make_setter DTXData_eta eachGeometryPrimitiveType).
#[global] Instance set_eachGeometryBucketPortion : Setter eachGeometryBucketPortion := ltac:(make_setter DTXData_eta eachGeometryBucketPortion).
#[global] Instance set_eachGeometryDecodeMatricesPortion : Setter eachGeometryDecodeMatricesPortion := ltac:(make_setter DTXData_eta eachGeometryDecodeMatricesPortion).
#[global] Instance set_matrices : Setter matrices := ltac:(make_setter DTXData_eta matrices).
#[global] Instance set_origins : Setter origins := ltac:(make_setter DTXData_eta origins).
#[global] Instance set_eachMeshGeometriesPortion : Setter eachMeshGeometriesPortion := ltac:(make_setter DTXData_eta eachMeshGeometriesPortion).
#[global] Instance set_eachMeshMatricesPortion : Setter eachMeshMatricesPortion := ltac:(make_setter DTXData_eta eachMeshMatricesPortion).
#[global] Instance set_eachMeshOriginsPortion : Setter eachMeshOriginsPortion := ltac:(make_setter DTXData_eta eachMeshOriginsPortion).
#[global] Instance set_eachMeshTextureSet : Setter eachMeshTextureSet := ltac:(make_setter DTXData_eta eachMeshTextureSet).
#[global] Instance set_eachMeshMaterialAttributes : Setter eachMeshMaterialAttributes := ltac:(make_setter DTXData_eta eachMeshMaterialAttributes).
#[global] Instance set_eachGeometryId : Setter eachGeometryId := ltac:(make_setter DTXData_eta eachGeometryId).
#[global] Instance set_eachMeshId : Setter eachMeshId := ltac:(make_setter DTXData_eta eachMeshId).
#[global] Instance set_eachObjectId : Setter eachObjectId := ltac:(make_setter DTXData_eta eachObjectId).
#[global] Instance set_eachObjectMeshesPortion : Setter eachObjectMeshesPortion := ltac:(make_setter DTXData_eta eachObjectMeshesPortion).

(** ** The size pre-pass

    The [len...] variables of the encoder. *)

Record Lengths : Type := {
  lenBuckets : nat;
  lenPositions : nat;
  lenColors : nat;
  lenUVs : nat;
  lenIndices8Bit : nat;
  lenIndices16Bit : nat;
  lenIndices32Bit : nat;
  lenEdgeIndices8Bit : nat;
  lenEdgeIndices16Bit : nat;
  lenEdgeIndices32Bit : nat;
  lenMatrices : nat;
  lenTextures : nat;
  lenDecodeMatrices : nat
}.

Definition Lengths_eta (l : Lengths) : Lengths :=
  {| lenBuckets := lenBuckets l;
     lenPositions := lenPositions l;
     lenColors := lenColors l;
     lenUVs := lenUVs l;
     lenIndices8Bit := lenIndices8Bit l;
     lenIndices16Bit := lenIndices16Bit l;
     lenIndices32Bit := lenIndices32Bit l;
     lenEdgeIndices8Bit := lenEdgeIndices8Bit l;
     lenEdgeIndices16Bit := lenEdgeIndices16Bit l;
     lenEdgeIndices32Bit := lenEdgeIndices32Bit l;
     lenMatrices := lenMatrices l;
     lenTextures := lenTextures l;
     lenDecodeMatrices := lenDecodeMatrices l |}.

#[global] Instance set_lenBuckets : Setter lenBuckets := ltac:(make_setter Lengths_eta lenBuckets).
#[global] Instance set_lenPositions : Setter lenPositions := ltac:(make_setter Lengths_eta lenPositions).
#[global] Instance set_lenColors : Setter lenColors := ltac:(make_setter Lengths_eta lenColors).
#[global] Instance set_lenUVs : Setter lenUVs := ltac:(make_setter Lengths_eta lenUVs).
#[global] Instance set_lenIndices8Bit : Setter lenIndices8Bit := ltac:(make_setter Lengths_eta lenIndices8Bit).
#[global] Instance set_lenIndices16Bit : Setter lenIndices16Bit := ltac:(make_setter Lengths_eta lenIndices16Bit).
#[global] Instance set_lenIndices32Bit : Setter lenIndices32Bit := ltac:(make_setter Lengths_eta lenIndices32Bit).
#[global] Instance set_lenEdgeIndices8Bit : Setter lenEdgeIndices8Bit := ltac:(make_setter Lengths_eta lenEdgeIndices8Bit).
#[global] Instance set_lenEdgeIndices16Bit : Setter lenEdgeIndices16Bit := ltac:(make_setter Lengths_eta lenEdgeIndices16Bit).
#[global] Instance set_lenEdgeIndices32Bit : Setter lenEdgeIndices32Bit := ltac:(make_setter Lengths_eta lenEdgeIndices32Bit).
#[global] Instance set_lenMatrices : Setter lenMatrices := ltac:(make_setter Lengths_eta lenMatrices).
#[global] Instance set_lenTextures : Setter lenTextures := ltac:(make_setter Lengths_eta lenTextures).
#[global] Instance set_lenDecodeMatrices : Setter lenDecodeMatrices := ltac:(make_setter Lengths_eta lenDecodeMatrices).

(** [numPositions = positionsCompressed.length / 3]: the quotient of two
    integers, compared with an integer. The double-precision quotient used by
    the source compares with [1 << 8] and [1 << 16] exactly as this rational
    does (see [tier_thresholds_binary64] for the boundary lengths). *)
Definition vertex_count (len : nat) : Q := Z.of_nat len # 3.

Definition at_most (v : Q) (bound : Z) : bool := Qle_bool v (inject_Z bound).

Definition sizeBucket (geometryBucket : GeometryBucket) (l : Lengths) : Lengths :=
  match positionsCompressed geometryBucket with
  | Some positionsCompressed =>
      let numPositions := vertex_count (length positionsCompressed) in
      let l := l <| lenPositions += length positionsCompressed |> in
      let l :=
        match indices geometryBucket with
        | Some indices =>
            if at_most numPositions (Z.shiftl 1 8) then
              l <| lenIndices8Bit += length indices |>
            else if at_most numPositions (Z.shiftl 1 16) then
              l <| lenIndices16Bit += length indices |>
            else
              l <| lenIndices32Bit += length indices |>
        | None => l
        end in
      let l :=
        match edgeIndices geometryBucket with
        | Some edgeIndices =>
            if at_most numPositions (Z.shiftl 1 8) then
              l <| lenEdgeIndices8Bit += length edgeIndices |>
            else if at_most numPositions (Z.shiftl 1 16) then
              l <| lenEdgeIndices16Bit += length edgeIndices |>
            else
              l <| lenEdgeIndices32Bit += length edgeIndices |>
        | None => l
        end in
      match uvsCompressed geometryBucket with
      | Some uvsCompressed => l <| lenUVs += length uvsCompressed |>
      | None => l
      end
  | None => l
  end.

Definition sizeGeometry (geometry : Geometry) (l : Lengths) : Lengths :=
  let l := l <| lenBuckets += length (geometryBuckets geometry) |> in
  foldl (fun l geometryBucket => sizeBucket geometryBucket l) l (geometryBuckets geometry).

Definition sizeTexture (texture : Texture) (l : Lengths) : Lengths :=
  let imageData := imageData texture in
  l <| lenTextures += byteLength imageData |>.

Definition sizes (sceneModel : SceneModel) : Lengths :=
  let numGeometries := length (geometries sceneModel) in
  let numMeshes := length (meshes sceneModel) in
  let l :=
    {| lenBuckets := 0; lenPositions := 0; lenColors := 0; lenUVs := 0;
       lenIndices8Bit := 0; lenIndices16Bit := 0; lenIndices32Bit := 0;
       lenEdgeIndices8Bit := 0; lenEdgeIndices16Bit := 0; lenEdgeIndices32Bit := 0;
       lenMatrices := numMeshes * 16; lenTextures := 0; lenDecodeMatrices := 0 |} in
  let l := foldl (fun l geometry => sizeGeometry geometry l) l (geometries sceneModel) in
  let l := foldl (fun l texture => sizeTexture texture l) l (textures sceneModel) in
  l <| lenDecodeMatrices := (numGeometries * 16)%nat |>.

(** ** Allocation *)

Definition allocate (sceneModel : SceneModel) (l : Lengths) : DTXData :=
  let numGeometries := length (geometries sceneModel) in
  let numTextures := length (textures sceneModel) in
  let numTextureSets := length (textureSets sceneModel) in
  let numMeshes := length (meshes sceneModel) in
  let numObjects := length (objects sceneModel) in
  {| textureData := alloc 0 (lenTextures l);
     eachTextureDataPortion := alloc 0 numTextures;
     eachTextureAttributes := alloc 0 (numTextures * NUM_TEXTURE_ATTRIBUTES);
     positions := alloc 0 (lenPositions l);
     colors := alloc 0 (lenColors l);
     uvs := alloc 0%float (lenUVs l);
     indices8Bit := alloc 0 (lenIndices8Bit l);
     indices16Bit := alloc 0 (lenIndices16Bit l);
     indices32Bit := alloc 0 (lenIndices32Bit l);
     edgeIndices8Bit := alloc 0 (lenEdgeIndices8Bit l);
     edgeIndices16Bit := alloc 0 (lenEdgeIndices16Bit l);
     edgeIndices32Bit := alloc 0 (lenEdgeIndices32Bit l);
     eachTextureSetTextures := alloc 0 (numTextureSets * 5);
     decodeMatrices := alloc 0%float (lenDecodeMatrices l);
     eachBucketPositionsPortion := alloc 0 (lenBuckets l);
     eachBucketColorsPortion := alloc 0 (lenBuckets l);
     eachBucketUVsPortion := alloc 0 (lenBuckets l);
     eachBucketIndicesPortion := alloc 0 (lenBuckets l);
     eachBucketEdgeIndicesPortion := alloc 0 (lenBuckets l);
     eachBucketIndicesBitness := alloc 0 (lenBuckets l);
     eachGeometryPrimitiveType := alloc 0 numGeometries;
     eachGeometryBucketPortion := alloc 0 numGeometries;
     eachGeometryDecodeMatricesPortion := alloc 0 numGeometries;
     matrices := alloc 0%float (numMeshes * 16);
     origins := alloc 0%float (numMeshes * 16);
     eachMeshGeometriesPortion := alloc 0 numMeshes;
     eachMeshMatricesPortion := alloc 0 numMeshes;
     eachMeshOriginsPortion := alloc 0 numMeshes;
     eachMeshTextureSet := alloc 0 numMeshes;
     eachMeshMaterialAttributes := alloc 0 (numMeshes * NUM_MATERIAL_ATTRIBUTES);
     eachGeometryId := [];
     eachMeshId := [];
     eachObjectId := [];
     eachObjectMeshesPortion := alloc 0 numObjects |}.

(** ** The fill pass

    [Locals] holds the variables the fill pass mutates: the output record,
    the [count...] cursors, the id-to-index dictionaries and the origin
    lookup. *)

Record Locals : Type := {
  dtxData : DTXData;
  countBuckets : nat;
  countPositions : nat;
  countColors : nat;
  countUVs : nat;
  countIndices8Bit : nat;
  countIndices16Bit : nat;
  countIndices32Bit : nat;
  countEdgeIndices8Bit : nat;
  countEdgeIndices16Bit : nat;
  countEdgeIndices32Bit : nat;
  countDecodeMatrices : nat;
  geometryIndex : nat;
  geometryIndices : gmap string nat;
  textureIndices : gmap string nat;
  textureSetIndices : gmap string nat;
  portionIdx : nat;
  eachTextureSetTexturesIndex : nat;
  eachMeshMaterialAttributesIndex : nat;
  matricesIndex : nat;
  originsIndex : nat;
  countMeshes : nat;
  originLookup : gmap string nat
}.

Definition Locals_eta (st : Locals) : Locals :=
  {| dtxData := dtxData st;
     countBuckets := countBuckets st;
     countPositions := countPositions st;
     countColors := countColors st;
     countUVs := countUVs st;
     countIndices8Bit := countIndices8Bit st;
     countIndices16Bit := countIndices16Bit st;
     countIndices32Bit := countIndices32Bit st;
     countEdgeIndices8Bit := countEdgeIndices8Bit st;
     countEdgeIndices16Bit := countEdgeIndices16Bit st;
     countEdgeIndices32Bit := countEdgeIndices32Bit st;
     countDecodeMatrices := countDecodeMatrices st;
     geometryIndex := geometryIndex st;
     geometryIndices := geometryIndices st;
     textureIndices := textureIndices st;
     textureSetIndices := textureSetIndices st;
     portionIdx := portionIdx st;
     eachTextureSetTexturesIndex := eachTextureSetTexturesIndex st;
     eachMeshMaterialAttributesIndex := eachMeshMaterialAttributesIndex st;
     matricesIndex := matricesIndex st;
     originsIndex := originsIndex st;
     countMeshes := countMeshes st;
     originLookup := originLookup st |}.

#[global] Instance set_dtxData : Setter dtxData := ltac:(make_setter Locals_eta dtxData).
#[global] Instance set_countBuckets : Setter countBuckets := ltac:(make_setter Locals_eta countBuckets).
#[global] Instance set_countPositions : Setter countPositions := ltac:(make_setter Locals_eta countPositions).
#[global] Instance set_countColors : Setter countColors := ltac:(make_setter Locals_eta countColors).
#[global] Instance set_countUVs : Setter countUVs := ltac:(make_setter Locals_eta countUVs).
#[global] Instance set_countIndices8Bit : Setter countIndices8Bit := ltac:(make_setter Locals_eta countIndices8Bit).
#[global] Instance set_countIndices16Bit : Setter countIndices16Bit := ltac:(make_setter Locals_eta countIndices16Bit).
#[global] Instance set_countIndices32Bit : Setter countIndices32Bit := ltac:(make_setter Locals_eta countIndices32Bit).
#[global] Instance set_countEdgeIndices8Bit : Setter countEdgeIndices8Bit := ltac:(make_setter Locals_eta countEdgeIndices8Bit).
#[global] Instance set_countEdgeIndices16Bit : Setter countEdgeIndices16Bit := ltac:(make_setter Locals_eta countEdgeIndices16Bit).
#[global] Instance set_countEdgeIndices32Bit : Setter countEdgeIndices32Bit := ltac:(make_setter Locals_eta countEdgeIndices32Bit).
#[global] Instance set_countDecodeMatrices : Setter countDecodeMatrices := ltac:(make_setter Locals_eta countDecodeMatrices).
#[global] Instance set_geometryIndex : Setter geometryIndex := ltac:(make_setter Locals_eta geometryIndex).
#[global] Instance set_geometryIndices : Setter geometryIndices := ltac:(make_setter Locals_eta geometryIndices).
#[global] Instance set_textureIndices : Setter textureIndices := ltac:(make_setter Locals_eta textureIndices).
#[global] Instance set_textureSetIndices : Setter textureSetIndices := ltac:(make_setter Locals_eta textureSetIndices).
#[global] Instance set_portionIdx : Setter portionIdx := ltac:(make_setter Locals_eta portionIdx).
#[global] Instance set_eachTextureSetTexturesIndex : Setter eachTextureSetTexturesIndex := ltac:(make_setter Locals_eta eachTextureSetTexturesIndex).
#[global] Instance set_eachMeshMaterialAttributesIndex : Setter eachMeshMaterialAttributesIndex := ltac:(make_setter Locals_eta eachMeshMaterialAttributesIndex).
#[global] Instance set_matricesIndex : Setter matricesIndex := ltac:(make_setter Locals_eta matricesIndex).
#[global] Instance set_originsIndex : Setter originsIndex := ltac:(make_setter Locals_eta originsIndex).
#[global] Instance set_countMeshes : Setter countMeshes := ltac:(make_setter Locals_eta countMeshes).
#[global] Instance set_originLookup : Setter originLookup := ltac:(make_setter Locals_eta originLookup).

(** [dtxData.field[i] = v] *)
Definition assign {E B} (field : DTXData -> list E) `{!Setter field} (conv : B -> E)
    (i : nat) (v : B) (st : Locals) : Locals :=
  st <| dtxData ::= update field (fun a => store conv a i v) |>.

(** [dtxData.field.set(source, offset)] *)
Definition assign_all {E B} (field : DTXData -> list E) `{!Setter field} (conv : B -> E)
    (source : list B) (offset : nat) (st : Locals) : Completion Locals :=
  a ← ES.set conv (field (dtxData st)) source offset;
  mret (st <| dtxData ::= update field (fun _ => a) |>).

(** [object.field] when [object] may be [undefined]. *)
Definition required {A} (o : option A) : Completion A :=
  match o with
  | Some a => Normal a
  | None => Throw TypeError
  end.

Section Encoder.
Context {host : Host}.

(** *** Geometries and buckets *)

Definition primitiveType_of (primitive : Z) : option Z :=
  if primitive =? TrianglesPrimitive then Some 0
  else if primitive =? SolidPrimitive then Some 1
  else if primitive =? SurfacePrimitive then Some 2
  else if primitive =? LinesPrimitive then Some 3
  else if primitive =? PointsPrimitive then Some 4
  else None.

Definition bitness (lenBucketPositions : nat) : Z :=
  let numBucketPositions := vertex_count lenBucketPositions in
  if at_most numBucketPositions (Z.shiftl 1 8) then 0
  else if at_most numBucketPositions (Z.shiftl 1 16) then 1
  else 2.

Definition fillIndices (geometryBucket : GeometryBucket) (bucketIndicesBitness : Z)
    (st : Locals) : Completion Locals :=
  match indices geometryBucket with
  | Some indices =>
      match bucketIndicesBitness with
      | 0 =>
          st ← assign_all indices8Bit (wrap 8) indices (countIndices8Bit st) st;
          let st := assign eachBucketIndicesPortion (wrap 32) (countBuckets st)
                      (Z.of_nat (countIndices8Bit st)) st in
          mret (st <| countIndices8Bit += length indices |>)
      | 1 =>
          st ← assign_all indices16Bit (wrap 16) indices (countIndices16Bit st) st;
          let st := assign eachBucketIndicesPortion (wrap 32) (countBuckets st)
                      (Z.of_nat (countIndices16Bit st)) st in
          mret (st <| countIndices16Bit += length indices |>)
      | 2 =>
          st ← assign_all indices32Bit (wrap 32) indices (countIndices32Bit st) st;
          let st := assign eachBucketIndicesPortion (wrap 32) (countBuckets st)
                      (Z.of_nat (countIndices32Bit st)) st in
          mret (st <| countIndices32Bit += length indices |>)
      | _ => mret st
      end
  | None => mret st
  end.

Definition fillEdgeIndices (geometryBucket : GeometryBucket) (bucketIndicesBitness : Z)
    (st : Locals) : Completion Locals :=
  match edgeIndices geometryBucket with
  | Some edgeIndices =>
      match bucketIndicesBitness with
      | 0 =>
          st ← assign_all edgeIndices8Bit (wrap 8) edgeIndices (countEdgeIndices8Bit st) st;
          let st := assign eachBucketEdgeIndicesPortion (wrap 32) (countBuckets st)
                      (Z.of_nat (countEdgeIndices8Bit st)) st in
          mret (st <| countEdgeIndices8Bit += length edgeIndices |>)
      | 1 =>
          st ← assign_all edgeIndices16Bit (wrap 16) edgeIndices (countEdgeIndices16Bit st) st;
          let st := assign eachBucketEdgeIndicesPortion (wrap 32) (countBuckets st)
                      (Z.of_nat (countEdgeIndices16Bit st)) st in
          mret (st <| countEdgeIndices16Bit += length edgeIndices |>)
      | 2 =>
          st ← assign_all edgeIndices32Bit (wrap 32) edgeIndices (countEdgeIndices32Bit st) st;
          let st := assign eachBucketEdgeIndicesPortion (wrap 32) (countBuckets st)
                      (Z.of_nat (countEdgeIndices32Bit st)) st in
          mret (st <| countEdgeIndices32Bit += length edgeIndices |>)
      | _ => mret st
      end
  | None => mret st
  end.

Definition fillColors (geometryBucket : GeometryBucket) (st : Locals) : Completion Locals :=
  match colorsCompressed geometryBucket with
  | Some colorsCompressed =>
      st ← assign_all colors (wrap 8) colorsCompressed (countColors st) st;
      mret (st <| countColors += length colorsCompressed |>)
  | None => mret st
  end.

Definition fillUVs (geometryBucket : GeometryBucket) (st : Locals) : Completion Locals :=
  match uvsCompressed geometryBucket with
  | Some uvsCompressed =>
      st ← assign_all uvs fround uvsCompressed (countUVs st) st;
      mret (st <| countUVs += length uvsCompressed |>)
  | None => mret st
  end.

Definition fillBucket (geometryBucket : GeometryBucket) (st : Locals) : Completion Locals :=
  positionsCompressed ← required (positionsCompressed geometryBucket);
  let lenBucketPositions := length positionsCompressed in
  let bucketIndicesBitness := bitness lenBucketPositions in
  let st := assign eachBucketPositionsPortion (wrap 32) (countBuckets st)
              (Z.of_nat (countPositions st)) st in
  let st := assign eachBucketColorsPortion (wrap 32) (countBuckets st)
              (Z.of_nat (countColors st)) st in
  let st := assign eachBucketUVsPortion (wrap 32) (countBuckets st)
              (Z.of_nat (countUVs st)) st in
  let st := assign eachBucketIndicesBitness (wrap 8) (countBuckets st)
              bucketIndicesBitness st in
  st ← assign_all positions (wrap 16) positionsCompressed (countPositions st) st;
  let st := st <| countPositions += length positionsCompressed |> in
  st ← fillIndices geometryBucket bucketIndicesBitness st;
  st ← fillEdgeIndices geometryBucket bucketIndicesBitness st;
  st ← fillColors geometryBucket st;
  st ← fillUVs geometryBucket st;
  mret (st <| countBuckets += 1 |>).

Definition fillGeometry (geometry : Geometry) (st : Locals) : Completion Locals :=
  let primitiveType := primitiveType_of (primitive geometry) in
  let st := assign eachGeometryPrimitiveType (wrap 8) (geometryIndex st)
              (default 0 primitiveType) st in
  let st := assign eachGeometryBucketPortion (wrap 32) (geometryIndex st)
              (Z.of_nat (countBuckets st)) st in
  let st := assign eachGeometryDecodeMatricesPortion (wrap 32) (geometryIndex st)
              (Z.of_nat (countDecodeMatrices st)) st in
  st ← assign_all decodeMatrices fround (positionsDecompressMatrix geometry)
         (countDecodeMatrices st) st;
  let st := st <| countDecodeMatrices += 16 |> in
  st ← for_each fillBucket (geometryBuckets geometry) st;
  let st := st <| geometryIndices ::=
              property_set (geometry_id geometry) (geometryIndex st) |> in
  let st := st <| dtxData ::=
              update eachGeometryId (fun a => put a (geometryIndex st) (geometry_id geometry)) |> in
  mret (st <| geometryIndex += 1 |>).

(** *** Textures *)

Definition fillTexture (textureIndex : nat) (texture : Texture) (st : Locals)
  : Completion Locals :=
  let imageData := imageData texture in
  st ← assign_all textureData (wrap 8) (values imageData) (portionIdx st) st;
  let st := assign eachTextureDataPortion (wrap 32) textureIndex (Z.of_nat (portionIdx st)) st in
  let st := st <| portionIdx += byteLength imageData |> in
  let textureAttrIdx := (textureIndex * NUM_TEXTURE_ATTRIBUTES)%nat in
  let st := assign eachTextureAttributes (wrap 16) textureAttrIdx
              (if compressed texture then 1 else 0) st in
  let st := assign eachTextureAttributes (wrap 16) (textureAttrIdx + 1)
              (or_default (mediaType texture) 0) st in
  let st := assign eachTextureAttributes (wrap 16) (textureAttrIdx + 2) (width texture) st in
  let st := assign eachTextureAttributes (wrap 16) (textureAttrIdx + 3) (height texture) st in
  let st := assign eachTextureAttributes (wrap 16) (textureAttrIdx + 4)
              (or_default (minFilter texture) LinearMipmapLinearFilter) st in
  let st := assign eachTextureAttributes (wrap 16) (textureAttrIdx + 5)
              (or_default (magFilter texture) LinearMipmapLinearFilter) st in
  let st := assign eachTextureAttributes (wrap 16) (textureAttrIdx + 6)
              (or_default (wrapS texture) ClampToEdgeWrapping) st in
  let st := assign eachTextureAttributes (wrap 16) (textureAttrIdx + 7)
              (or_default (wrapT texture) ClampToEdgeWrapping) st in
  let st := assign eachTextureAttributes (wrap 16) (textureAttrIdx + 8)
              (or_default (wrapR texture) ClampToEdgeWrapping) st in
  mret (st <| textureIndices ::= property_set (texture_id texture) textureIndex |>).

(** *** Texture sets *)

(** [texture ? textureIndices[texture.id] : -1] *)
Definition textureSlot (st : Locals) (texture : option Texture) : Z :=
  match texture with
  | Some texture => index_value (textureIndices st !! texture_id texture)
  | None => -1
  end.

Definition fillTextureSet (textureSetIndex : nat) (textureSet : TextureSet) (st : Locals)
  : Completion Locals :=
  let st := assign eachTextureSetTextures (wrap_signed 32) (eachTextureSetTexturesIndex st)
              (textureSlot st (colorTexture textureSet)) st in
  let st := st <| eachTextureSetTexturesIndex += 1 |> in
  let st := assign eachTextureSetTextures (wrap_signed 32) (eachTextureSetTexturesIndex st)
              (textureSlot st (metallicRoughnessTexture textureSet)) st in
  let st := st <| eachTextureSetTexturesIndex += 1 |> in
  let st := assign eachTextureSetTextures (wrap_signed 32) (eachTextureSetTexturesIndex st)
              (textureSlot st (emissiveTexture textureSet)) st in
  let st := st <| eachTextureSetTexturesIndex += 1 |> in
  let st := assign eachTextureSetTextures (wrap_signed 32) (eachTextureSetTexturesIndex st)
              (textureSlot st (occlusionTexture textureSet)) st in
  let st := st <| eachTextureSetTexturesIndex += 1 |> in
  mret (st <| textureSetIndices ::= property_set (textureSet_id textureSet) textureSetIndex |>).

(** *** Meshes and objects *)

(** The template literal [`${origin[0]}-${origin[1]}-${origin[2]}`]. With its
    two hyphens the key is no name of [Object.prototype] (see
    [originHash_own]), so the plain object [originLookup] is a map on it. *)
Definition originHash (origin : float * float * float) : string :=
  let '(x, y, z) := origin in
  Number_toString x +:+ "-" +:+ Number_toString y +:+ "-" +:+ Number_toString z.

(** [mesh.textureSet ? textureSetIndices[mesh.textureSet.id] : -1] *)
Definition textureSetSlot (st : Locals) (textureSet : option TextureSet) : Z :=
  match textureSet with
  | Some textureSet => index_value (textureSetIndices st !! textureSet_id textureSet)
  | None => -1
  end.

(** [dtxData.eachMeshMaterialAttributes[eachMeshMaterialAttributesIndex++] = value * 255] *)
Definition pushMaterialAttribute (value : float) (st : Locals) : Locals :=
  let st := assign eachMeshMaterialAttributes ToUint8 (eachMeshMaterialAttributesIndex st)
              (value * 255)%float st in
  st <| eachMeshMaterialAttributesIndex += 1 |>.

(** [dtxData.origins[originsIndex++] = coordinate] *)
Definition pushOrigin (coordinate : float) (st : Locals) : Locals :=
  let st := assign origins id (originsIndex st) coordinate st in
  st <| originsIndex += 1 |>.

Definition fillMesh (mesh : Mesh) (st : Locals) : Completion Locals :=
  let st := st <| dtxData ::= update eachMeshId (fun a => put a (countMeshes st) (mesh_id mesh)) |> in
  let st := assign eachMeshGeometriesPortion (wrap 32) (countMeshes st)
              (index_value (geometryIndices st !! geometry_id (geometry mesh))) st in
  let st := assign eachMeshMatricesPortion (wrap 32) (countMeshes st)
              (Z.of_nat (matricesIndex st)) st in
  st ← assign_all matrices fround (matrix mesh) (matricesIndex st) st;
  let st := st <| matricesIndex += 16 |> in
  let origin := origin mesh in
  let originHash := originHash origin in
  let '(originLookupIndex, st) :=
    match originLookup st !! originHash with
    | None =>
        let originLookupIndex := originsIndex st in
        let st := st <| originLookup ::= <[originHash := originLookupIndex]> |> in
        let st := pushOrigin origin.1.1 st in
        let st := pushOrigin origin.1.2 st in
        let st := pushOrigin origin.2 st in
        (originLookupIndex, st)
    | Some originLookupIndex => (originLookupIndex, st)
    end in
  let st := assign eachMeshOriginsPortion (wrap 32) (countMeshes st)
              (Z.of_nat originLookupIndex) st in
  let st := assign eachMeshTextureSet (wrap_signed 32) (countMeshes st)
              (textureSetSlot st (textureSet mesh)) st in
  let st := pushMaterialAttribute (color mesh).1.1 st in
  let st := pushMaterialAttribute (color mesh).1.2 st in
  let st := pushMaterialAttribute (color mesh).2 st in
  let st := pushMaterialAttribute (opacity mesh) st in
  let st := pushMaterialAttribute (metallic mesh) st in
  let st := pushMaterialAttribute (roughness mesh) st in
  mret (st <| countMeshes += 1 |>).

Definition fillObject (objectIndex : nat) (object : SceneObject) (st : Locals)
  : Completion Locals :=
  let st := st <| dtxData ::= update eachObjectId (fun a => put a objectIndex (object_id object)) |> in
  let st := assign eachObjectMeshesPortion (wrap 32) objectIndex (Z.of_nat (countMeshes st)) st in
  for_each fillMesh (object_meshes object) st.

(** *** The encoder *)

Definition initial (sceneModel : SceneModel) : Locals :=
  {| dtxData := allocate sceneModel (sizes sceneModel);
     countBuckets := 0; countPositions := 0; countColors := 0; countUVs := 0;
     countIndices8Bit := 0; countIndices16Bit := 0; countIndices32Bit := 0;
     countEdgeIndices8Bit := 0; countEdgeIndices16Bit := 0; countEdgeIndices32Bit := 0;
     countDecodeMatrices := 0; geometryIndex := 0;
     geometryIndices := ∅; textureIndices := ∅; textureSetIndices := ∅;
     portionIdx := 0; eachTextureSetTexturesIndex := 0;
     eachMeshMaterialAttributesIndex := 0; matricesIndex := 0; originsIndex := 0;
     countMeshes := 0; originLookup := ∅ |}.

(** The whole run, keeping the final value of every local variable. *)
Definition run (sceneModel : SceneModel) : Completion Locals :=
  let st := initial sceneModel in
  st ← for_each fillGeometry (geometries sceneModel) st;
  st ← for_each_from fillTexture 0 (textures sceneModel) st;
  st ← for_each_from fillTextureSet 0 (textureSets sceneModel) st;
  for_each_from fillObject 0 (objects sceneModel) st.

Definition modelToDTX (sceneModel : SceneModel) : Completion DTXData :=
  st ← run sceneModel;
  mret (dtxData st).

End Encoder.

(** ** Concrete inputs *)

(** A host for running the encoder on concrete models: pairwise distinct
    codes for the constants and the ECMAScript [Number::toString]. *)
Definition sample_host : Host :=
  {| TrianglesPrimitive := 20000; SolidPrimitive := 20001; SurfacePrimitive := 20002;
     LinesPrimitive := 20003; PointsPrimitive := 20004;
     LinearMipmapLinearFilter := 1008; ClampToEdgeWrapping := 1001;
     Number_toString := ES.Number_toString |}.

Definition identity_matrix : list float :=
  [1; 0; 0; 0;  0; 1; 0; 0;  0; 0; 1; 0;  0; 0; 0; 1]%float.

Definition bucket (numVertices : nat) (indices : option (list Z)) : GeometryBucket :=
  {| positionsCompressed := Some (replicate (3 * numVertices) 7);
     indices := indices; edgeIndices := None; colorsCompressed := None;
     uvsCompressed := None |}.

Definition geometry0 (buckets : list GeometryBucket) : Geometry :=
  {| geometry_id := "g0"; primitive := 20000;
     positionsDecompressMatrix := identity_matrix; geometryBuckets := buckets |}.

Definition texture0 : Texture :=
  {| texture_id := "t0"; imageData := {| values := [137; 80; 78; 71]; BYTES_PER_ELEMENT := 1 |};
     compressed := false;
     mediaType := None; width := 2; height := 2; minFilter := None; magFilter := None;
     wrapS := None; wrapT := None; wrapR := None |}.

Definition textureSet0 : TextureSet :=
  {| textureSet_id := "ts0"; colorTexture := Some texture0;
     metallicRoughnessTexture := None; emissiveTexture := None; occlusionTexture := None |}.

Definition mesh0 (id : string) (g : Geometry) (origin : float * float * float)
    (textureSet : option TextureSet) (opacity : float) : Mesh :=
  {| mesh_id := id; geometry := g; matrix := identity_matrix; origin := origin;
     textureSet := textureSet; color := (1, 0.5, 0)%float; opacity := opacity;
     metallic := 0%float; roughness := 1%float |}.

Definition object0 (id : string) (ms : list Mesh) : SceneObject :=
  {| object_id := id; object_meshes := ms |}.

(** One geometry with a 10-vertex and a 257-vertex bucket, one texture, one
    texture set using it as color map, two meshes with the same origin and a
    third one 1e-7 away, one object holding the three. *)
Definition scenario_geometry : Geometry :=
  geometry0 [bucket 10 (Some [0; 1; 2]); bucket 257 (Some [0; 1; 256])].

Definition scenario : SceneModel :=
  let m1 := mesh0 "m1" scenario_geometry (1, 2, 3)%float (Some textureSet0) 1.2%float in
  let m2 := mesh0 "m2" scenario_geometry (1, 2, 3)%float (Some textureSet0) 0.5%float in
  let m3 := mesh0 "m3" scenario_geometry (1, 2, 3.0000001)%float None 0.5%float in
  {| geometries := [scenario_geometry]; textures := [texture0]; textureSets := [textureSet0];
     meshes := [m1; m2; m3]; objects := [object0 "o" [m1; m2; m3]] |}.

(** A bucket that carries three colors. *)
Definition colored_model : SceneModel :=
  let b := {| positionsCompressed := Some [0; 0; 0]; indices := None; edgeIndices := None;
              colorsCompressed := Some [255; 0; 0]; uvsCompressed := None |} in
  {| geometries := [geometry0 [b]]; textures := []; textureSets := []; meshes := [];
     objects := [] |}.

(** A bucket without positions. *)
Definition no_positions_bucket : GeometryBucket :=
  {| positionsCompressed := None; indices := Some [0; 1; 2]; edgeIndices := None;
     colorsCompressed := None; uvsCompressed := None |}.

Definition no_positions_model : SceneModel :=
  {| geometries := [geometry0 [no_positions_bucket]]; textures := []; textureSets := [];
     meshes := []; objects := [] |}.

(** A geometry whose primitive is none of the five constants. *)
Definition unknown_primitive_model : SceneModel :=
  let g := {| geometry_id := "g"; primitive := 12345;
              positionsDecompressMatrix := identity_matrix;
              geometryBuckets := [bucket 1 None] |} in
  {| geometries := [g]; textures := []; textureSets := []; meshes := []; objects := [] |}.

(** One mesh in the model, referred to by two objects. *)
Definition shared_mesh_model : SceneModel :=
  let g := geometry0 [bucket 1 None] in
  let m := mesh0 "m" g (0, 0, 0)%float None 1%float in
  {| geometries := [g]; textures := []; textureSets := []; meshes := [m];
     objects := [object0 "a" [m]; object0 "b" [m]] |}.

(** Two 8-bit buckets with indices followed by a 16-bit one. *)
Definition mixed_tiers_model : SceneModel :=
  let g := geometry0 [bucket 3 (Some [0; 1; 2]); bucket 3 (Some [0; 1; 2]);
                      bucket 257 (Some [0; 1; 256])] in
  {| geometries := [g]; textures := []; textureSets := []; meshes := []; objects := [] |}.

(** Three meshes in the model; two objects refer to the first one, none to
    the others. *)
Definition spare_mesh_model : SceneModel :=
  let g := geometry0 [bucket 1 None] in
  let m := mesh0 "m" g (0, 0, 0)%float None 1%float in
  let m' := mesh0 "n" g (0, 0, 0)%float None 1%float in
  {| geometries := [g]; textures := []; textureSets := []; meshes := [m; m'; m'];
     objects := [object0 "a" [m]; object0 "b" [m]] |}.

(** A mesh whose geometry and texture set are not in the model. *)
Definition dangling_model : SceneModel :=
  let g := geometry0 [bucket 1 None] in
  let stray := {| geometry_id := "stray"; primitive := 20000;
                  positionsDecompressMatrix := identity_matrix;
                  geometryBuckets := [] |} in
  let mesh := mesh0 "m" stray (0, 0, 0)%float (Some textureSet0) 1%float in
  {| geometries := [g]; textures := []; textureSets := []; meshes := [mesh];
     objects := [object0 "o" [mesh]] |}.


(** Three geometries and three textures, the second of each with the id
    [__proto__], and two texture sets; a texture set and a mesh that refer
    to the second and the third. *)
Definition plain_geometry (id : string) : Geometry :=
  {| geometry_id := id; primitive := 20000;
     positionsDecompressMatrix := identity_matrix; geometryBuckets := [bucket 1 None] |}.

Definition plain_texture (id : string) : Texture :=
  {| texture_id := id;
     imageData := {| values := [1; 2]; BYTES_PER_ELEMENT := 1 |}; compressed := false;
     mediaType := None; width := 1; height := 1; minFilter := None; magFilter := None;
     wrapS := None; wrapT := None; wrapR := None |}.

Definition proto_textureSet : TextureSet :=
  {| textureSet_id := "ts1"; colorTexture := Some (plain_texture "__proto__");
     metallicRoughnessTexture := Some (plain_texture "t2"); emissiveTexture := None;
     occlusionTexture := None |}.

Definition proto_model : SceneModel :=
  let mesh := mesh0 "m" (plain_geometry "__proto__") (0, 0, 0)%float
                (Some proto_textureSet) 1%float in
  let mesh' := mesh0 "n" (plain_geometry "g2") (0, 0, 0)%float None 1%float in
  {| geometries := [plain_geometry "g0"; plain_geometry "__proto__"; plain_geometry "g2"];
     textures := [texture0; plain_texture "__proto__"; plain_texture "t2"];
     textureSets := [textureSet0; proto_textureSet];
     meshes := [mesh; mesh']; objects := [object0 "o" [mesh; mesh']] |}.

(** A texture whose image data is a [Uint16Array] of two elements, followed
    by one whose image data is a [Uint8Array] of four. *)
Definition wide_texture : Texture :=
  {| texture_id := "t16";
     imageData := {| values := [300; 1]; BYTES_PER_ELEMENT := 2 |}; compressed := false;
     mediaType := None; width := 1; height := 1; minFilter := None; magFilter := None;
     wrapS := None; wrapT := None; wrapR := None |}.

Definition wide_texture_model : SceneModel :=
  {| geometries := [geometry0 [bucket 1 None]]; textures := [wide_texture; texture0];
     textureSets := []; meshes := []; objects := [] |}.

(** ** Frames

    Every variable of the fill pass and every field of the output record,
    as one enumeration, so that "this step leaves everything else alone"
    is a single statement. *)

Inductive Value : Type :=
  | VNat (n : nat)
  | VMap (m : gmap string nat)
  | VInts (a : list Z)
  | VFloats (a : list float)
  | VIds (a : list (option string)).

Inductive Field : Set :=
  | L_countBuckets | L_countPositions | L_countColors | L_countUVs | L_countIndices8Bit
  | L_countIndices16Bit | L_countIndices32Bit | L_countEdgeIndices8Bit
  | L_countEdgeIndices16Bit | L_countEdgeIndices32Bit | L_countDecodeMatrices
  | L_geometryIndex | L_geometryIndices | L_textureIndices | L_textureSetIndices
  | L_portionIdx | L_eachTextureSetTexturesIndex | L_eachMeshMaterialAttributesIndex
  | L_matricesIndex | L_originsIndex | L_countMeshes | L_originLookup | D_textureData
  | D_eachTextureDataPortion | D_eachTextureAttributes | D_positions | D_colors | D_uvs
  | D_indices8Bit | D_indices16Bit | D_indices32Bit | D_edgeIndices8Bit
  | D_edgeIndices16Bit | D_edgeIndices32Bit | D_eachTextureSetTextures
  | D_decodeMatrices | D_eachBucketPositionsPortion | D_eachBucketColorsPortion
  | D_eachBucketUVsPortion | D_eachBucketIndicesPortion
  | D_eachBucketEdgeIndicesPortion | D_eachBucketIndicesBitness
  | D_eachGeometryPrimitiveType | D_eachGeometryBucketPortion
  | D_eachGeometryDecodeMatricesPortion | D_matrices | D_origins
  | D_eachMeshGeometriesPortion | D_eachMeshMatricesPortion | D_eachMeshOriginsPortion
  | D_eachMeshTextureSet | D_eachMeshMaterialAttributes | D_eachGeometryId
  | D_eachMeshId | D_eachObjectId | D_eachObjectMeshesPortion.

Definition read (f : Field) (st : Locals) : Value :=
  match f with
  | L_countBuckets => VNat (countBuckets st)
  | L_countPositions => VNat (countPositions st)
  | L_countColors => VNat (countColors st)
  | L_countUVs => VNat (countUVs st)
  | L_countIndices8Bit => VNat (countIndices8Bit st)
  | L_countIndices16Bit => VNat (countIndices16Bit st)
  | L_countIndices32Bit => VNat (countIndices32Bit st)
  | L_countEdgeIndices8Bit => VNat (countEdgeIndices8Bit st)
  | L_countEdgeIndices16Bit => VNat (countEdgeIndices16Bit st)
  | L_countEdgeIndices32Bit => VNat (countEdgeIndices32Bit st)
  | L_countDecodeMatrices => VNat (countDecodeMatrices st)
  | L_geometryIndex => VNat (geometryIndex st)
  | L_geometryIndices => VMap (geometryIndices st)
  | L_textureIndices => VMap (textureIndices st)
  | L_textureSetIndices => VMap (textureSetIndices st)
  | L_portionIdx => VNat (portionIdx st)
  | L_eachTextureSetTexturesIndex => VNat (eachTextureSetTexturesIndex st)
  | L_eachMeshMaterialAttributesIndex => VNat (eachMeshMaterialAttributesIndex st)
  | L_matricesIndex => VNat (matricesIndex st)
  | L_originsIndex => VNat (originsIndex st)
  | L_countMeshes => VNat (countMeshes st)
  | L_originLookup => VMap (originLookup st)
  | D_textureData => VInts (textureData (dtxData st))
  | D_eachTextureDataPortion => VInts (eachTextureDataPortion (dtxData st))
  | D_eachTextureAttributes => VInts (eachTextureAttributes (dtxData st))
  | D_positions => VInts (positions (dtxData st))
  | D_colors => VInts (colors (dtxData st))
  | D_uvs => VFloats (uvs (dtxData st))
  | D_indices8Bit => VInts (indices8Bit (dtxData st))
  | D_indices16Bit => VInts (indices16Bit (dtxData st))
  | D_indices32Bit => VInts (indices32Bit (dtxData st))
  | D_edgeIndices8Bit => VInts (edgeIndices8Bit (dtxData st))
  | D_edgeIndices16Bit => VInts (edgeIndices16Bit (dtxData st))
  | D_edgeIndices32Bit => VInts (edgeIndices32Bit (dtxData st))
  | D_eachTextureSetTextures => VInts (eachTextureSetTextures (dtxData st))
  | D_decodeMatrices => VFloats (decodeMatrices (dtxData st))
  | D_eachBucketPositionsPortion => VInts (eachBucketPositionsPortion (dtxData st))
  | D_eachBucketColorsPortion => VInts (eachBucketColorsPortion (dtxData st))
  | D_eachBucketUVsPortion => VInts (eachBucketUVsPortion (dtxData st))
  | D_eachBucketIndicesPortion => VInts (eachBucketIndicesPortion (dtxData st))
  | D_eachBucketEdgeIndicesPortion => VInts (eachBucketEdgeIndicesPortion (dtxData st))
  | D_eachBucketIndicesBitness => VInts (eachBucketIndicesBitness (dtxData st))
  | D_eachGeometryPrimitiveType => VInts (eachGeometryPrimitiveType (dtxData st))
  | D_eachGeometryBucketPortion => VInts (eachGeometryBucketPortion (dtxData st))
  | D_eachGeometryDecodeMatricesPortion => VInts (eachGeometryDecodeMatricesPortion (dtxData st))
  | D_matrices => VFloats (matrices (dtxData st))
  | D_origins => VFloats (origins (dtxData st))
  | D_eachMeshGeometriesPortion => VInts (eachMeshGeometriesPortion (dtxData st))
  | D_eachMeshMatricesPortion => VInts (eachMeshMatricesPortion (dtxData st))
  | D_eachMeshOriginsPortion => VInts (eachMeshOriginsPortion (dtxData st))
  | D_eachMeshTextureSet => VInts (eachMeshTextureSet (dtxData st))
  | D_eachMeshMaterialAttributes => VInts (eachMeshMaterialAttributes (dtxData st))
  | D_eachGeometryId => VIds (eachGeometryId (dtxData st))
  | D_eachMeshId => VIds (eachMeshId (dtxData st))
  | D_eachObjectId => VIds (eachObjectId (dtxData st))
  | D_eachObjectMeshesPortion => VInts (eachObjectMeshesPortion (dtxData st))
  end.

#[global] Instance Field_eq_dec : EqDecision Field.
Proof. solve_decision. Defined.

(** [frame modified st st']: going from [st] to [st'], only the variables and
    fields listed in [modified] may have changed. *)
Definition frame (modified : list Field) (st st' : Locals) : Prop :=
  forall f, f ∉ modified -> read f st' = read f st.

(** ** What has been written so far

    [Written zero arr content demand]: the array starts with [content], the
    rest of it is still as allocated, and at least [demand] elements of that
    rest remain. *)
Definition Written {E} (zero : E) (arr content : list E) (demand : nat) : Prop :=
  exists k, arr = content ++ replicate k zero /\ (demand <= k)%nat.

(** ** The contents the fill pass produces, as functions of the model *)

(** The elements of an optional array, none when it is absent. *)
Definition elements {A} (o : option (list A)) : list A := default [] o.

(** [history f l]: for each element of [l], in order, [f] of the elements
    before it and of the element itself. A portion array is the history of a
    cursor. *)
Fixpoint scan {A B} (f : list A -> A -> B) (done l : list A) : list B :=
  match l with
  | [] => []
  | a :: l' => f done a :: scan f (done ++ [a]) l'
  end.

Definition history {A B} (f : list A -> A -> B) (l : list A) : list B := scan f [] l.

(** The dictionary built by [table[id] = index] over a list of ids, in
    order: a plain object, so the id [__proto__] never becomes a key. *)
Definition index_table (ids : list string) : gmap string nat :=
  foldl (fun m p => property_set p.2 p.1 m) ∅ (zip (seq 0 (length ids)) ids).

(** *** Buckets *)

Definition tier (b : GeometryBucket) : Z :=
  bitness (length (elements (positionsCompressed b))).

Definition tier_width (t : Z) : Z :=
  match t with
  | 0 => 8
  | 1 => 16
  | _ => 32
  end.

Definition in_tier {A} (t : Z) (b : GeometryBucket) (l : list A) : list A :=
  if decide (tier b = t) then l else [].

Definition positions_of (bs : list GeometryBucket) : list Z :=
  bs ≫= fun b => wrap 16 <$> elements (positionsCompressed b).

Definition colors_of (bs : list GeometryBucket) : list Z :=
  bs ≫= fun b => wrap 8 <$> elements (colorsCompressed b).

Definition uvs_of (bs : list GeometryBucket) : list float :=
  bs ≫= fun b => fround <$> elements (uvsCompressed b).

Definition indices_of (t : Z) (bs : list GeometryBucket) : list Z :=
  bs ≫= fun b => in_tier t b (wrap (tier_width t) <$> elements (indices b)).

Definition edgeIndices_of (t : Z) (bs : list GeometryBucket) : list Z :=
  bs ≫= fun b => in_tier t b (wrap (tier_width t) <$> elements (edgeIndices b)).

Definition portion (cursor : nat) : Z := wrap 32 (Z.of_nat cursor).

Definition positionsPortion_of (bs : list GeometryBucket) : list Z :=
  history (fun done _ => portion (length (positions_of done))) bs.

Definition colorsPortion_of (bs : list GeometryBucket) : list Z :=
  history (fun done _ => portion (length (colors_of done))) bs.

Definition uvsPortion_of (bs : list GeometryBucket) : list Z :=
  history (fun done _ => portion (length (uvs_of done))) bs.

Definition bitness_of (bs : list GeometryBucket) : list Z :=
  (fun b => wrap 8 (tier b)) <$> bs.

(** The slot of a bucket without indices is never written. *)
Definition indicesPortion_of (bs : list GeometryBucket) : list Z :=
  history (fun done b =>
    match indices b with
    | Some _ => portion (length (indices_of (tier b) done))
    | None => 0
    end) bs.

Definition edgeIndicesPortion_of (bs : list GeometryBucket) : list Z :=
  history (fun done b =>
    match edgeIndices b with
    | Some _ => portion (length (edgeIndices_of (tier b) done))
    | None => 0
    end) bs.

(** *** Geometries *)

Definition buckets_of (gs : list Geometry) : list GeometryBucket :=
  gs ≫= geometryBuckets.

Definition primitiveCode `{Host} (g : Geometry) : Z :=
  wrap 8 (default 0 (primitiveType_of (primitive g))).

Definition bucketPortion_of (gs : list Geometry) : list Z :=
  history (fun done _ => portion (length (buckets_of done))) gs.

Definition decodeMatricesPortion_of (gs : list Geometry) : list Z :=
  history (fun done _ => portion (16 * length done)) gs.

Definition decodeMatrices_of (gs : list Geometry) : list float :=
  gs ≫= fun g => fround <$> positionsDecompressMatrix g.

(** *** Textures and texture sets *)

(** The bytes a texture takes in [textureData]: its elements, each stored as
    a byte, then the bytes of its portion that no element reaches, left as
    allocated. *)
Definition textureBytes (t : Texture) : list Z :=
  (wrap 8 <$> values (imageData t)) ++
  replicate (byteLength (imageData t) - length (values (imageData t))) 0.

Definition textureData_of (ts : list Texture) : list Z :=
  ts ≫= textureBytes.

Definition textureDataPortion_of (ts : list Texture) : list Z :=
  history (fun done _ => portion (length (textureData_of done))) ts.

(** The four slots of a texture set, given the texture dictionary. *)
Definition slots_of (table : gmap string nat) (textureSet : TextureSet) : list Z :=
  (fun texture =>
     match texture with
     | Some texture => index_value (table !! texture_id texture)
     | None => -1
     end) <$>
  [colorTexture textureSet; metallicRoughnessTexture textureSet;
   emissiveTexture textureSet; occlusionTexture textureSet].

Definition textureSetTextures_of (table : gmap string nat) (tss : list TextureSet) : list Z :=
  tss ≫= fun textureSet => wrap_signed 32 <$> slots_of table textureSet.

(** *** Meshes and objects *)

(** The mesh references of the objects, in the order the fill pass visits them. *)
Definition references (os : list SceneObject) : list Mesh :=
  os ≫= object_meshes.

Definition materialAttributes (m : Mesh) : list Z :=
  (fun value => ToUint8 (value * 255)%float) <$>
  [(color m).1.1; (color m).1.2; (color m).2; opacity m; metallic m; roughness m].

Definition materialAttributes_of (ms : list Mesh) : list Z :=
  ms ≫= materialAttributes.

Definition matrices_of (ms : list Mesh) : list float :=
  ms ≫= fun m => fround <$> matrix m.

Definition matricesPortion_of (ms : list Mesh) : list Z :=
  history (fun done _ => portion (16 * length done)) ms.

Definition meshTextureSet_of (table : gmap string nat) (ms : list Mesh) : list Z :=
  (fun m =>
     wrap_signed 32
       match textureSet m with
       | Some textureSet => index_value (table !! textureSet_id textureSet)
       | None => -1
       end) <$> ms.

Definition meshGeometriesPortion_of (table : gmap string nat) (ms : list Mesh) : list Z :=
  (fun m => wrap 32 (index_value (table !! geometry_id (geometry m)))) <$> ms.

Definition objectMeshesPortion_of (os : list SceneObject) : list Z :=
  history (fun done _ => portion (length (references done))) os.

(** * Properties *)

(** ** Completions, loops and typed arrays *)

Lemma bind_Normal {A B} (c : Completion A) (k : A -> Completion B) (b : B) :
  c ≫= k = Normal b <-> exists a, c = Normal a /\ k a = Normal b.
Proof.
  destruct c as [a|e]; simpl; split.
  - eauto.
  - by intros (? & [= ->] & ?).
  - done.
  - by intros (? & ? & ?).
Qed.

Lemma set_Normal {A B} (conv : B -> A) target source offset a :
  ES.set conv target source offset = Normal a <->
  (offset + length source <= length target)%nat /\
  a = overwrite target offset (conv <$> source).
Proof.
  unfold ES.set. case_decide; split.
  - by intros [= <-].
  - by intros [_ ->].
  - done.
  - intros [? _]. lia.
Qed.

Lemma assign_all_Normal {E B} (field : DTXData -> list E) `{!Setter field}
    (conv : B -> E) source offset st st' :
  assign_all field conv source offset st = Normal st' <->
  (offset + length source <= length (field (dtxData st)))%nat /\
  st' = st <| dtxData ::= update field (fun _ =>
          overwrite (field (dtxData st)) offset (conv <$> source)) |>.
Proof.
  unfold assign_all. rewrite bind_Normal. setoid_rewrite set_Normal. split.
  - by intros (a & (? & ->) & [= <-]).
  - intros (? & ->). eauto.
Qed.

Lemma for_each_app {A St} (body : A -> St -> Completion St) l1 l2 s :
  for_each body (l1 ++ l2) s = for_each body l1 s ≫= for_each body l2.
Proof.
  revert s. induction l1 as [|a l1 IH]; intros s; simpl; [done|].
  destruct (body a s); simpl; auto.
Qed.

(** A loop whose body keeps an invariant over the elements done and the
    elements still to do completes normally, with the invariant. *)
Lemma for_each_invariant {A St} (body : A -> St -> Completion St)
    (P : list A -> list A -> St -> Prop) :
  (forall pre a rest st,
     P pre (a :: rest) st -> exists st', body a st = Normal st' /\ P (pre ++ [a]) rest st') ->
  forall l pre st,
    P pre l st -> exists st', for_each body l st = Normal st' /\ P (pre ++ l) [] st'.
Proof.
  intros Hstep l. induction l as [|a l IH]; intros pre st HP; simpl.
  - rewrite app_nil_r. eauto.
  - destruct (Hstep _ _ _ _ HP) as (st1 & -> & HP1). simpl.
    destruct (IH _ _ HP1) as (st' & -> & HP').
    rewrite <- app_assoc in HP'. eauto.
Qed.

Lemma for_each_from_invariant {A St} (body : nat -> A -> St -> Completion St)
    (P : list A -> list A -> St -> Prop) :
  (forall pre a rest st,
     P pre (a :: rest) st ->
     exists st', body (length pre) a st = Normal st' /\ P (pre ++ [a]) rest st') ->
  forall l pre st,
    P pre l st ->
    exists st', for_each_from body (length pre) l st = Normal st' /\ P (pre ++ l) [] st'.
Proof.
  intros Hstep l. induction l as [|a l IH]; intros pre st HP; simpl.
  - rewrite app_nil_r. eauto.
  - destruct (Hstep _ _ _ _ HP) as (st1 & -> & HP1). simpl.
    specialize (IH _ _ HP1) as (st' & Hl & HP').
    rewrite length_app in Hl. simpl in Hl. rewrite Nat.add_1_r in Hl. rewrite Hl.
    rewrite <- app_assoc in HP'. eauto.
Qed.

(** A relation that every step of a loop establishes, and that is closed
    under composition, holds across the loop. *)
Lemma for_each_related {A St} (body : A -> St -> Completion St) (R : St -> St -> Prop) :
  (forall s, R s s) ->
  (forall s1 s2 s3, R s1 s2 -> R s2 s3 -> R s1 s3) ->
  (forall a s s', body a s = Normal s' -> R s s') ->
  forall l s s', for_each body l s = Normal s' -> R s s'.
Proof.
  intros Hrefl Htrans Hstep l. induction l as [|a l IH]; intros s s'; simpl.
  - by intros [= <-].
  - intros (s1 & H1 & H2)%bind_Normal. eauto.
Qed.

Lemma for_each_from_related {A St} (body : nat -> A -> St -> Completion St)
    (R : St -> St -> Prop) :
  (forall s, R s s) ->
  (forall s1 s2 s3, R s1 s2 -> R s2 s3 -> R s1 s3) ->
  (forall i a s s', body i a s = Normal s' -> R s s') ->
  forall l i s s', for_each_from body i l s = Normal s' -> R s s'.
Proof.
  intros Hrefl Htrans Hstep l. induction l as [|a l IH]; intros i s s'; simpl.
  - by intros [= <-].
  - intros (s1 & H1 & H2)%bind_Normal. eauto.
Qed.

(** A loop throws as soon as one of its elements always makes the body throw. *)
Lemma for_each_throws {A St} (body : A -> St -> Completion St) (a : A) l s :
  a ∈ l ->
  (forall s, exists e, body a s = Throw e) ->
  exists e, for_each body l s = Throw e.
Proof.
  intros Hin Ha. revert s. induction l as [|b l IH]; intros s.
  - by apply elem_of_nil in Hin.
  - simpl. apply elem_of_cons in Hin as [<- | Hin].
    + destruct (Ha s) as (e & ->). simpl. eauto.
    + destruct (body b s) as [s1|e]; simpl; eauto.
Qed.

Lemma length_overwrite {A} (target : list A) offset new :
  (offset + length new <= length target)%nat ->
  length (overwrite target offset new) = length target.
Proof.
  intros. unfold overwrite. rewrite !length_app, length_take, length_drop. lia.
Qed.

(** *** Frames *)

Lemma frame_refl modified st : frame modified st st.
Proof. by intros f _. Qed.

Lemma frame_trans modified st1 st2 st3 :
  frame modified st1 st2 -> frame modified st2 st3 -> frame modified st1 st3.
Proof. intros H12 H23 f Hf. by rewrite H23, H12. Qed.

Lemma frame_weaken modified modified' st st' :
  modified ⊆ modified' -> frame modified st st' -> frame modified' st st'.
Proof. intros Hsub H f Hf. apply H. intros Hin. apply Hf, Hsub, Hin. Qed.

(** *** Arrays written from the front *)

Lemma Written_alloc {E} (zero : E) n : Written zero (alloc zero n) [] n.
Proof. by exists n. Qed.

Lemma Written_weaken {E} (zero : E) arr content demand demand' :
  (demand' <= demand)%nat -> Written zero arr content demand -> Written zero arr content demand'.
Proof. intros ? (k & -> & ?). exists k. split; [done|lia]. Qed.

Lemma Written_length {E} (zero : E) arr content demand :
  Written zero arr content demand -> (length content + demand <= length arr)%nat.
Proof. intros (k & -> & ?). rewrite length_app, length_replicate. lia. Qed.

Lemma Written_lookup {E} (zero : E) arr content demand i x :
  Written zero arr content demand -> content !! i = Some x -> arr !! i = Some x.
Proof. intros (k & -> & ?) Hi. by apply lookup_app_l_Some. Qed.

Lemma Written_lookup_rest {E} (zero : E) arr content demand i :
  Written zero arr content demand ->
  (length content <= i < length arr)%nat -> arr !! i = Some zero.
Proof.
  intros (k & -> & ?). rewrite length_app, length_replicate. intros ?.
  rewrite lookup_app_r by lia. apply lookup_replicate_2. lia.
Qed.

Lemma Written_exact {E} (zero : E) arr content demand :
  Written zero arr content demand -> length arr = length content -> arr = content.
Proof.
  intros (k & -> & ?). rewrite length_app, length_replicate. intros ?.
  assert (k = 0%nat) as -> by lia. simpl. by rewrite app_nil_r.
Qed.

Lemma Written_overwrite {E} (zero : E) arr content new demand :
  Written zero arr content (length new + demand) ->
  Written zero (overwrite arr (length content) new) (content ++ new) demand.
Proof.
  intros (k & -> & ?). exists (k - length new)%nat. split; [|lia].
  unfold overwrite. rewrite take_app_length, drop_app_add', drop_replicate by done.
  by rewrite <- app_assoc.
Qed.

Lemma Written_store {E} (zero : E) arr content v demand :
  Written zero arr content (S demand) ->
  Written zero (<[length content := v]> arr) (content ++ [v]) demand.
Proof.
  intros (k & -> & ?). destruct k as [|k]; [lia|]. exists k. split; [|lia].
  rewrite insert_app_r_alt, Nat.sub_diag by done. simpl. by rewrite <- app_assoc.
Qed.

Lemma Written_pad {E} (zero : E) arr content k demand :
  Written zero arr content (k + demand) ->
  Written zero arr (content ++ replicate k zero) demand.
Proof.
  intros (n & -> & Hn). exists (n - k)%nat. split; [|lia].
  rewrite <- app_assoc, <- replicate_add. do 2 f_equal. lia.
Qed.

Lemma Written_skip {E} (zero : E) arr content demand :
  Written zero arr content (S demand) -> Written zero arr (content ++ [zero]) demand.
Proof.
  intros (k & -> & ?). destruct k as [|k]; [lia|]. exists k. split; [|lia].
  simpl. by rewrite <- app_assoc.
Qed.

(** *** Histories *)

Lemma scan_app {A B} (f : list A -> A -> B) pre l1 l2 :
  scan f pre (l1 ++ l2) = scan f pre l1 ++ scan f (pre ++ l1) l2.
Proof.
  revert pre. induction l1 as [|a l1 IH]; intros pre; simpl.
  - by rewrite app_nil_r.
  - rewrite IH, <- app_assoc. done.
Qed.

Lemma history_snoc {A B} (f : list A -> A -> B) l a :
  history f (l ++ [a]) = history f l ++ [f l a].
Proof. unfold history. by rewrite scan_app. Qed.

Lemma length_scan {A B} (f : list A -> A -> B) pre l : length (scan f pre l) = length l.
Proof. revert pre. induction l as [|a l IH]; intros pre; simpl; [done|]. by rewrite IH. Qed.

Lemma length_history {A B} (f : list A -> A -> B) l : length (history f l) = length l.
Proof. apply length_scan. Qed.

Lemma scan_lookup {A B} (f : list A -> A -> B) pre l i a :
  l !! i = Some a -> scan f pre l !! i = Some (f (pre ++ take i l) a).
Proof.
  revert pre i. induction l as [|b l IH]; intros pre i Hi; [done|].
  destruct i as [|i]; simpl in *.
  - injection Hi as ->. by rewrite app_nil_r.
  - rewrite (IH _ _ Hi), <- app_assoc. done.
Qed.

Lemma history_lookup {A B} (f : list A -> A -> B) l i a :
  l !! i = Some a -> history f l !! i = Some (f (take i l) a).
Proof. intros Hi. unfold history. by rewrite (scan_lookup _ _ _ _ _ Hi). Qed.

(** *** Index dictionaries *)

Lemma index_table_snoc ids id :
  index_table (ids ++ [id]) = property_set id (length ids) (index_table ids).
Proof.
  unfold index_table. rewrite length_app. simpl. rewrite Nat.add_1_r, seq_S. simpl.
  rewrite zip_with_app by by rewrite length_seq.
  by rewrite foldl_app.
Qed.

(** The id [__proto__] is never a key of the dictionary. *)
Lemma index_table_proto ids : index_table ids !! "__proto__" = None.
Proof.
  induction ids as [|x ids IH] using rev_ind; [done|].
  rewrite index_table_snoc. unfold property_set. case_decide; [done|].
  by rewrite lookup_insert_ne.
Qed.

Lemma index_table_lookup ids id k :
  index_table ids !! id = Some k -> ids !! k = Some id.
Proof.
  induction ids as [|x ids IH] using rev_ind; [done|].
  rewrite index_table_snoc. unfold property_set. case_decide.
  { intros Hk. by apply lookup_app_l_Some, IH. }
  destruct (decide (x = id)) as [->|Hne].
  - rewrite lookup_insert_eq. intros [= <-]. by rewrite lookup_app_r, Nat.sub_diag.
  - rewrite lookup_insert_ne by done. intros Hk. by apply lookup_app_l_Some, IH.
Qed.

Lemma index_table_is_Some ids id :
  id <> "__proto__" -> id ∈ ids -> is_Some (index_table ids !! id).
Proof.
  intros Hproto.
  induction ids as [|x ids IH] using rev_ind; [by intros ?%elem_of_nil|].
  rewrite index_table_snoc, elem_of_app, list_elem_of_singleton.
  unfold property_set. case_decide.
  { intros [?|?]; [auto|congruence]. }
  destruct (decide (x = id)) as [->|Hne].
  - rewrite lookup_insert_eq. eauto.
  - rewrite lookup_insert_ne by done. intros [?|?]; [auto|congruence].
Qed.

Lemma index_table_None ids id : id ∉ ids -> index_table ids !! id = None.
Proof.
  induction ids as [|x ids IH] using rev_ind; [done|].
  rewrite index_table_snoc, elem_of_app, list_elem_of_singleton. intros Hnin.
  unfold property_set. case_decide; [auto|].
  rewrite lookup_insert_ne by (intros ->; auto). auto.
Qed.

(** The dictionary keeps, for an id, the index of the last entity with it. *)
Lemma index_table_last ids id k :
  index_table ids !! id = Some k ->
  forall k', (k < k')%nat -> ids !! k' <> Some id.
Proof.
  induction ids as [|x ids IH] using rev_ind; [done|].
  rewrite index_table_snoc. unfold property_set.
  assert (index_table ids !! id = Some k ->
          forall k', (k < k')%nat -> (ids ++ [x]) !! k' = Some id -> x <> id -> False) as Hold.
  { intros Hk k' Hk' Hid Hne.
    pose proof (index_table_lookup _ _ _ Hk) as Hlt%lookup_lt_Some.
    destruct (decide (k' < length ids)%nat).
    + rewrite lookup_app_l in Hid by done. exact (IH Hk k' Hk' Hid).
    + rewrite lookup_app_r in Hid by lia.
      destruct (k' - length ids)%nat; simpl in Hid; [congruence|done]. }
  case_decide as Hp.
  { intros Hk k' Hk' Hid. apply (Hold Hk k' Hk' Hid). intros ->.
    by rewrite Hp, index_table_proto in Hk. }
  destruct (decide (x = id)) as [->|Hne].
  - rewrite lookup_insert_eq. intros [= <-] k' Hk'. by rewrite lookup_ge_None_2
      by (rewrite length_app; simpl; lia).
  - rewrite lookup_insert_ne by done. intros Hk k' Hk' Hid. by apply (Hold Hk k' Hk' Hid).
Qed.


(** [frame_rewrite H]: rewrites, in the goal, every variable and field of the
    later state that the frame [H] leaves alone to its value in the earlier
    state. *)
Ltac decide_fields := clear; apply (bool_decide_unpack _); vm_compute; exact I.

Ltac frame_rewrite_at H f :=
  try (let E := fresh "E" in
       assert (E := H f ltac:(decide_fields)); simpl in E; injection E as E;
       rewrite ?E; clear E).

Ltac frame_rewrite H :=
  lazymatch type of H with
  | frame _ _ ?st' =>
      try match goal with |- context [countBuckets st'] => frame_rewrite_at H L_countBuckets end;
      try match goal with |- context [countPositions st'] => frame_rewrite_at H L_countPositions end;
      try match goal with |- context [countColors st'] => frame_rewrite_at H L_countColors end;
      try match goal with |- context [countUVs st'] => frame_rewrite_at H L_countUVs end;
      try match goal with |- context [countIndices8Bit st'] => frame_rewrite_at H L_countIndices8Bit end;
      try match goal with |- context [countIndices16Bit st'] => frame_rewrite_at H L_countIndices16Bit end;
      try match goal with |- context [countIndices32Bit st'] => frame_rewrite_at H L_countIndices32Bit end;
      try match goal with |- context [countEdgeIndices8Bit st'] => frame_rewrite_at H L_countEdgeIndices8Bit end;
      try match goal with |- context [countEdgeIndices16Bit st'] => frame_rewrite_at H L_countEdgeIndices16Bit end;
      try match goal with |- context [countEdgeIndices32Bit st'] => frame_rewrite_at H L_countEdgeIndices32Bit end;
      try match goal with |- context [countDecodeMatrices st'] => frame_rewrite_at H L_countDecodeMatrices end;
      try match goal with |- context [geometryIndex st'] => frame_rewrite_at H L_geometryIndex end;
      try match goal with |- context [geometryIndices st'] => frame_rewrite_at H L_geometryIndices end;
      try match goal with |- context [textureIndices st'] => frame_rewrite_at H L_textureIndices end;
      try match goal with |- context [textureSetIndices st'] => frame_rewrite_at H L_textureSetIndices end;
      try match goal with |- context [portionIdx st'] => frame_rewrite_at H L_portionIdx end;
      try match goal with |- context [eachTextureSetTexturesIndex st'] => frame_rewrite_at H L_eachTextureSetTexturesIndex end;
      try match goal with |- context [eachMeshMaterialAttributesIndex st'] => frame_rewrite_at H L_eachMeshMaterialAttributesIndex end;
      try match goal with |- context [matricesIndex st'] => frame_rewrite_at H L_matricesIndex end;
      try match goal with |- context [originsIndex st'] => frame_rewrite_at H L_originsIndex end;
      try match goal with |- context [countMeshes st'] => frame_rewrite_at H L_countMeshes end;
      try match goal with |- context [originLookup st'] => frame_rewrite_at H L_originLookup end;
      try match goal with |- context [textureData (dtxData st')] => frame_rewrite_at H D_textureData end;
      try match goal with |- context [eachTextureDataPortion (dtxData st')] => frame_rewrite_at H D_eachTextureDataPortion end;
      try match goal with |- context [eachTextureAttributes (dtxData st')] => frame_rewrite_at H D_eachTextureAttributes end;
      try match goal with |- context [positions (dtxData st')] => frame_rewrite_at H D_positions end;
      try match goal with |- context [colors (dtxData st')] => frame_rewrite_at H D_colors end;
      try match goal with |- context [uvs (dtxData st')] => frame_rewrite_at H D_uvs end;
      try match goal with |- context [indices8Bit (dtxData st')] => frame_rewrite_at H D_indices8Bit end;
      try match goal with |- context [indices16Bit (dtxData st')] => frame_rewrite_at H D_indices16Bit end;
      try match goal with |- context [indices32Bit (dtxData st')] => frame_rewrite_at H D_indices32Bit end;
      try match goal with |- context [edgeIndices8Bit (dtxData st')] => frame_rewrite_at H D_edgeIndices8Bit end;
      try match goal with |- context [edgeIndices16Bit (dtxData st')] => frame_rewrite_at H D_edgeIndices16Bit end;
      try match goal with |- context [edgeIndices32Bit (dtxData st')] => frame_rewrite_at H D_edgeIndices32Bit end;
      try match goal with |- context [eachTextureSetTextures (dtxData st')] => frame_rewrite_at H D_eachTextureSetTextures end;
      try match goal with |- context [decodeMatrices (dtxData st')] => frame_rewrite_at H D_decodeMatrices end;
      try match goal with |- context [eachBucketPositionsPortion (dtxData st')] => frame_rewrite_at H D_eachBucketPositionsPortion end;
      try match goal with |- context [eachBucketColorsPortion (dtxData st')] => frame_rewrite_at H D_eachBucketColorsPortion end;
      try match goal with |- context [eachBucketUVsPortion (dtxData st')] => frame_rewrite_at H D_eachBucketUVsPortion end;
      try match goal with |- context [eachBucketIndicesPortion (dtxData st')] => frame_rewrite_at H D_eachBucketIndicesPortion end;
      try match goal with |- context [eachBucketEdgeIndicesPortion (dtxData st')] => frame_rewrite_at H D_eachBucketEdgeIndicesPortion end;
      try match goal with |- context [eachBucketIndicesBitness (dtxData st')] => frame_rewrite_at H D_eachBucketIndicesBitness end;
      try match goal with |- context [eachGeometryPrimitiveType (dtxData st')] => frame_rewrite_at H D_eachGeometryPrimitiveType end;
      try match goal with |- context [eachGeometryBucketPortion (dtxData st')] => frame_rewrite_at H D_eachGeometryBucketPortion end;
      try match goal with |- context [eachGeometryDecodeMatricesPortion (dtxData st')] => frame_rewrite_at H D_eachGeometryDecodeMatricesPortion end;
      try match goal with |- context [matrices (dtxData st')] => frame_rewrite_at H D_matrices end;
      try match goal with |- context [origins (dtxData st')] => frame_rewrite_at H D_origins end;
      try match goal with |- context [eachMeshGeometriesPortion (dtxData st')] => frame_rewrite_at H D_eachMeshGeometriesPortion end;
      try match goal with |- context [eachMeshMatricesPortion (dtxData st')] => frame_rewrite_at H D_eachMeshMatricesPortion end;
      try match goal with |- context [eachMeshOriginsPortion (dtxData st')] => frame_rewrite_at H D_eachMeshOriginsPortion end;
      try match goal with |- context [eachMeshTextureSet (dtxData st')] => frame_rewrite_at H D_eachMeshTextureSet end;
      try match goal with |- context [eachMeshMaterialAttributes (dtxData st')] => frame_rewrite_at H D_eachMeshMaterialAttributes end;
      try match goal with |- context [eachGeometryId (dtxData st')] => frame_rewrite_at H D_eachGeometryId end;
      try match goal with |- context [eachMeshId (dtxData st')] => frame_rewrite_at H D_eachMeshId end;
      try match goal with |- context [eachObjectId (dtxData st')] => frame_rewrite_at H D_eachObjectId end;
      try match goal with |- context [eachObjectMeshesPortion (dtxData st')] => frame_rewrite_at H D_eachObjectMeshesPortion end
  end.

Definition Stream {E} (zero : E) (cursor : nat) (arr content : list E) (demand : nat) : Prop :=
  cursor = length content /\ Written zero arr content demand.

Lemma Stream_fits {E} (zero : E) cursor arr content demand n :
  Stream zero cursor arr content demand -> (n <= demand)%nat -> (cursor + n <= length arr)%nat.
Proof. intros [-> HW] ?. apply Written_length in HW. lia. Qed.

Lemma Stream_append {E} (zero : E) cursor cursor' arr content content' new demand demand' :
  Stream zero cursor arr content demand' ->
  cursor' = (cursor + length new)%nat ->
  content' = content ++ new ->
  demand' = (length new + demand)%nat ->
  Stream zero cursor' (overwrite arr cursor new) content' demand.
Proof.
  intros [-> HW] -> -> ->. split; [by rewrite length_app|]. by apply Written_overwrite.
Qed.

Lemma Stream_store {E} (zero : E) cursor arr content content' v demand :
  Written zero arr content (S demand) ->
  cursor = length content ->
  content' = content ++ [v] ->
  Written zero (<[cursor := v]> arr) content' demand.
Proof. intros HW -> ->. by apply Written_store. Qed.

Lemma Stream_keep {E} (zero : E) cursor arr content demand content' demand' :
  Stream zero cursor arr content demand ->
  content' = content -> demand' = demand ->
  Stream zero cursor arr content' demand'.
Proof. by intros ? -> ->. Qed.

Lemma tier_cases b : tier b = 0 \/ tier b = 1 \/ tier b = 2.
Proof. unfold tier, bitness. repeat case_match; auto. Qed.

Lemma bind_snoc {A B} (f : A -> list B) l a : (l ++ [a]) ≫= f = (l ≫= f) ++ f a.
Proof. rewrite bind_app. simpl. by rewrite app_nil_r. Qed.

Lemma length_bind_cons {A B} (f : A -> list B) l a :
  length ((a :: l) ≫= f) = (length (f a) + length (l ≫= f))%nat.
Proof. simpl. by rewrite length_app. Qed.



(** *** Contents: one more element done, one fewer to do *)

Lemma positions_of_snoc pre b :
  positions_of (pre ++ [b]) = positions_of pre ++ (wrap 16 <$> elements (positionsCompressed b)).
Proof. unfold positions_of. by rewrite bind_snoc. Qed.

Lemma colors_of_snoc pre b :
  colors_of (pre ++ [b]) = colors_of pre ++ (wrap 8 <$> elements (colorsCompressed b)).
Proof. unfold colors_of. by rewrite bind_snoc. Qed.

Lemma uvs_of_snoc pre b :
  uvs_of (pre ++ [b]) = uvs_of pre ++ (fround <$> elements (uvsCompressed b)).
Proof. unfold uvs_of. by rewrite bind_snoc. Qed.

Lemma indices_of_snoc t pre b :
  indices_of t (pre ++ [b]) =
  indices_of t pre ++ in_tier t b (wrap (tier_width t) <$> elements (indices b)).
Proof. unfold indices_of. by rewrite bind_snoc. Qed.

Lemma edgeIndices_of_snoc t pre b :
  edgeIndices_of t (pre ++ [b]) =
  edgeIndices_of t pre ++ in_tier t b (wrap (tier_width t) <$> elements (edgeIndices b)).
Proof. unfold edgeIndices_of. by rewrite bind_snoc. Qed.

Lemma positions_of_app bs1 bs2 : positions_of (bs1 ++ bs2) = positions_of bs1 ++ positions_of bs2.
Proof. apply bind_app. Qed.
Lemma colors_of_app bs1 bs2 : colors_of (bs1 ++ bs2) = colors_of bs1 ++ colors_of bs2.
Proof. apply bind_app. Qed.
Lemma uvs_of_app bs1 bs2 : uvs_of (bs1 ++ bs2) = uvs_of bs1 ++ uvs_of bs2.
Proof. apply bind_app. Qed.
Lemma indices_of_app t bs1 bs2 : indices_of t (bs1 ++ bs2) = indices_of t bs1 ++ indices_of t bs2.
Proof. apply bind_app. Qed.
Lemma edgeIndices_of_app t bs1 bs2 :
  edgeIndices_of t (bs1 ++ bs2) = edgeIndices_of t bs1 ++ edgeIndices_of t bs2.
Proof. apply bind_app. Qed.

Lemma textureData_of_app ts1 ts2 :
  textureData_of (ts1 ++ ts2) = textureData_of ts1 ++ textureData_of ts2.
Proof. apply bind_app. Qed.

Lemma textureData_of_snoc pre t :
  textureData_of (pre ++ [t]) = textureData_of pre ++ textureBytes t.
Proof. unfold textureData_of. by rewrite bind_snoc. Qed.

Lemma length_le_byteLength a : (length (values a) <= byteLength a)%nat.
Proof. unfold byteLength. nia. Qed.

Lemma length_textureBytes t : length (textureBytes t) = byteLength (imageData t).
Proof.
  unfold textureBytes. rewrite length_app, length_fmap, length_replicate.
  pose proof (length_le_byteLength (imageData t)). lia.
Qed.

Lemma length_textureData_of_cons t rest :
  length (textureData_of (t :: rest)) =
  (byteLength (imageData t) + length (textureData_of rest))%nat.
Proof. unfold textureData_of. by rewrite length_bind_cons, length_textureBytes. Qed.

Lemma textureDataPortion_of_snoc pre t :
  textureDataPortion_of (pre ++ [t]) =
  textureDataPortion_of pre ++ [portion (length (textureData_of pre))].
Proof. unfold textureDataPortion_of. by rewrite history_snoc. Qed.

Lemma length_textureDataPortion_of ts : length (textureDataPortion_of ts) = length ts.
Proof. apply length_history. Qed.

Lemma matrices_of_snoc pre m : matrices_of (pre ++ [m]) = matrices_of pre ++ (fround <$> matrix m).
Proof. unfold matrices_of. by rewrite bind_snoc. Qed.

Lemma length_matrices_of_cons m rest :
  length (matrices_of (m :: rest)) = (length (matrix m) + length (matrices_of rest))%nat.
Proof. unfold matrices_of. by rewrite length_bind_cons, length_fmap. Qed.

Lemma matricesPortion_of_snoc pre m :
  matricesPortion_of (pre ++ [m]) = matricesPortion_of pre ++ [portion (16 * length pre)].
Proof. unfold matricesPortion_of. by rewrite history_snoc. Qed.

Lemma length_matricesPortion_of ms : length (matricesPortion_of ms) = length ms.
Proof. apply length_history. Qed.


(** A run of consecutive stores, innermost first; [H] is what was written
    before the run and [Hlen] gives the length of that content. *)
Ltac stores H Hlen :=
  first
    [ exact H
    | eapply Written_weaken; [|exact H]; simpl; lia
    | eapply Stream_store;
        [ stores H Hlen
        | rewrite ?length_app, ?Hlen; simpl; lia
        | by rewrite <- ?app_assoc ] ].

Lemma length_positions_of_cons b rest :
  length (positions_of (b :: rest)) =
  (length (elements (positionsCompressed b)) + length (positions_of rest))%nat.
Proof. unfold positions_of. by rewrite length_bind_cons, length_fmap. Qed.

Lemma length_colors_of_cons b rest :
  length (colors_of (b :: rest)) =
  (length (elements (colorsCompressed b)) + length (colors_of rest))%nat.
Proof. unfold colors_of. by rewrite length_bind_cons, length_fmap. Qed.

Lemma length_uvs_of_cons b rest :
  length (uvs_of (b :: rest)) =
  (length (elements (uvsCompressed b)) + length (uvs_of rest))%nat.
Proof. unfold uvs_of. by rewrite length_bind_cons, length_fmap. Qed.

Lemma length_in_tier_fmap {A B} (f : A -> B) t b l :
  length (in_tier t b (f <$> l)) = length (in_tier t b l).
Proof. unfold in_tier. case_decide; [by rewrite length_fmap|done]. Qed.

Lemma length_indices_of_cons t b rest :
  length (indices_of t (b :: rest)) =
  (length (in_tier t b (elements (indices b))) + length (indices_of t rest))%nat.
Proof. unfold indices_of. by rewrite length_bind_cons, length_in_tier_fmap. Qed.

Lemma length_edgeIndices_of_cons t b rest :
  length (edgeIndices_of t (b :: rest)) =
  (length (in_tier t b (elements (edgeIndices b))) + length (edgeIndices_of t rest))%nat.
Proof. unfold edgeIndices_of. by rewrite length_bind_cons, length_in_tier_fmap. Qed.

Lemma in_tier_eq {A} t b (l : list A) : tier b = t -> in_tier t b l = l.
Proof. intros. unfold in_tier. by rewrite decide_True. Qed.

Lemma in_tier_ne {A} t b (l : list A) : tier b ≠ t -> in_tier t b l = [].
Proof. intros. unfold in_tier. by rewrite decide_False. Qed.

Lemma in_tier_nil {A} t b : in_tier t b (@nil A) = [].
Proof. unfold in_tier. by case_decide. Qed.

Lemma positionsPortion_of_snoc pre b :
  positionsPortion_of (pre ++ [b]) =
  positionsPortion_of pre ++ [portion (length (positions_of pre))].
Proof. unfold positionsPortion_of. by rewrite history_snoc. Qed.

Lemma colorsPortion_of_snoc pre b :
  colorsPortion_of (pre ++ [b]) = colorsPortion_of pre ++ [portion (length (colors_of pre))].
Proof. unfold colorsPortion_of. by rewrite history_snoc. Qed.

Lemma uvsPortion_of_snoc pre b :
  uvsPortion_of (pre ++ [b]) = uvsPortion_of pre ++ [portion (length (uvs_of pre))].
Proof. unfold uvsPortion_of. by rewrite history_snoc. Qed.

Lemma bitness_of_snoc pre b : bitness_of (pre ++ [b]) = bitness_of pre ++ [wrap 8 (tier b)].
Proof. unfold bitness_of. by rewrite fmap_app. Qed.

Lemma indicesPortion_of_snoc pre b :
  indicesPortion_of (pre ++ [b]) =
  indicesPortion_of pre ++
  [match indices b with
   | Some _ => portion (length (indices_of (tier b) pre))
   | None => 0
   end].
Proof. unfold indicesPortion_of. by rewrite history_snoc. Qed.

Lemma edgeIndicesPortion_of_snoc pre b :
  edgeIndicesPortion_of (pre ++ [b]) =
  edgeIndicesPortion_of pre ++
  [match edgeIndices b with
   | Some _ => portion (length (edgeIndices_of (tier b) pre))
   | None => 0
   end].
Proof. unfold edgeIndicesPortion_of. by rewrite history_snoc. Qed.

Lemma length_positionsPortion_of bs : length (positionsPortion_of bs) = length bs.
Proof. apply length_history. Qed.
Lemma length_colorsPortion_of bs : length (colorsPortion_of bs) = length bs.
Proof. apply length_history. Qed.
Lemma length_uvsPortion_of bs : length (uvsPortion_of bs) = length bs.
Proof. apply length_history. Qed.
Lemma length_bitness_of bs : length (bitness_of bs) = length bs.
Proof. apply length_fmap. Qed.
Lemma length_indicesPortion_of bs : length (indicesPortion_of bs) = length bs.
Proof. apply length_history. Qed.
Lemma length_edgeIndicesPortion_of bs : length (edgeIndicesPortion_of bs) = length bs.
Proof. apply length_history. Qed.

Create Rewrite HintDb contents.
#[global] Hint Rewrite positions_of_snoc colors_of_snoc uvs_of_snoc indices_of_snoc
  edgeIndices_of_snoc positionsPortion_of_snoc colorsPortion_of_snoc uvsPortion_of_snoc
  bitness_of_snoc indicesPortion_of_snoc edgeIndicesPortion_of_snoc : contents.
#[global] Hint Rewrite length_positionsPortion_of length_colorsPortion_of length_uvsPortion_of
  length_bitness_of length_indicesPortion_of length_edgeIndicesPortion_of : contents.

Lemma buckets_of_snoc pre g : buckets_of (pre ++ [g]) = buckets_of pre ++ geometryBuckets g.
Proof. unfold buckets_of. by rewrite bind_snoc. Qed.

Lemma buckets_of_cons g rest : buckets_of (g :: rest) = geometryBuckets g ++ buckets_of rest.
Proof. done. Qed.

Lemma decodeMatrices_of_snoc pre g :
  decodeMatrices_of (pre ++ [g]) = decodeMatrices_of pre ++ (fround <$> positionsDecompressMatrix g).
Proof. unfold decodeMatrices_of. by rewrite bind_snoc. Qed.

Lemma length_decodeMatrices_of_cons g rest :
  length (decodeMatrices_of (g :: rest)) =
  (length (positionsDecompressMatrix g) + length (decodeMatrices_of rest))%nat.
Proof. unfold decodeMatrices_of. by rewrite length_bind_cons, length_fmap. Qed.

Lemma bucketPortion_of_snoc pre g :
  bucketPortion_of (pre ++ [g]) = bucketPortion_of pre ++ [portion (length (buckets_of pre))].
Proof. unfold bucketPortion_of. by rewrite history_snoc. Qed.

Lemma decodeMatricesPortion_of_snoc pre g :
  decodeMatricesPortion_of (pre ++ [g]) =
  decodeMatricesPortion_of pre ++ [portion (16 * length pre)].
Proof. unfold decodeMatricesPortion_of. by rewrite history_snoc. Qed.

Lemma length_bucketPortion_of gs : length (bucketPortion_of gs) = length gs.
Proof. apply length_history. Qed.
Lemma length_decodeMatricesPortion_of gs : length (decodeMatricesPortion_of gs) = length gs.
Proof. apply length_history. Qed.

#[global] Hint Rewrite decodeMatrices_of_snoc bucketPortion_of_snoc
  decodeMatricesPortion_of_snoc length_bucketPortion_of length_decodeMatricesPortion_of
  : contents.

Lemma put_length {A} (a : list (option A)) v : put a (length a) v = a ++ [Some v].
Proof.
  unfold put. replace (S (length a) - length a)%nat with 1%nat by lia. simpl.
  rewrite insert_app_r_alt, Nat.sub_diag by done. done.
Qed.


Lemma assign_all_fits {E B} (field : DTXData -> list E) `{!Setter field}
    (conv : B -> E) source offset st :
  (offset + length source <= length (field (dtxData st)))%nat ->
  assign_all field conv source offset st =
  Normal (st <| dtxData ::= update field (fun _ =>
            overwrite (field (dtxData st)) offset (conv <$> source)) |>).
Proof. intros. by apply assign_all_Normal. Qed.

Ltac stream_step :=
  first
    [ eapply Stream_append;
        [eassumption | by rewrite ?length_fmap | done | by rewrite ?length_fmap]
    | eapply Stream_keep; [eassumption | by rewrite ?app_nil_r | done] ].

(** Splits an invariant, and the invariants nested in it, into its clauses. *)
Ltac split_inv :=
  repeat match goal with
         | |- ?G =>
             lazymatch G with
             | _ = _ => fail
             | Stream _ _ _ _ _ => fail
             | Written _ _ _ _ => fail
             | forall _, _ => fail
             | _ => split
             end
         end.

(** ** The geometry loop *)

Lemma frame_include modified modified' st st' :
  Forall (fun f => f ∈ modified') modified -> frame modified st st' -> frame modified' st st'.
Proof. intros Hsub. apply frame_weaken. intros f Hf. by eapply Forall_forall in Hsub. Qed.

Ltac solve_frame :=
  let f := fresh "f" in
  let Hf := fresh "Hf" in
  intros f Hf; destruct f; try reflexivity; exfalso; apply Hf; decide_fields.

Ltac frame_chain :=
  repeat first
    [ eassumption
    | apply frame_refl
    | eapply frame_include; [|eassumption]; decide_fields
    | eapply frame_trans; [eapply frame_include; [|eassumption]; decide_fields|] ].

Section Geometry_phase.
Context {host : Host}.

Definition indices_fields : list Field :=
  [L_countIndices8Bit; L_countIndices16Bit; L_countIndices32Bit;
   D_indices8Bit; D_indices16Bit; D_indices32Bit; D_eachBucketIndicesPortion].

Definition edgeIndices_fields : list Field :=
  [L_countEdgeIndices8Bit; L_countEdgeIndices16Bit; L_countEdgeIndices32Bit;
   D_edgeIndices8Bit; D_edgeIndices16Bit; D_edgeIndices32Bit; D_eachBucketEdgeIndicesPortion].

Record IndicesInv (pre rest : list GeometryBucket) (n : nat) (st : Locals) : Prop := {
  ii_8 : Stream 0 (countIndices8Bit st) (indices8Bit (dtxData st))
           (indices_of 0 pre) (length (indices_of 0 rest));
  ii_16 : Stream 0 (countIndices16Bit st) (indices16Bit (dtxData st))
            (indices_of 1 pre) (length (indices_of 1 rest));
  ii_32 : Stream 0 (countIndices32Bit st) (indices32Bit (dtxData st))
            (indices_of 2 pre) (length (indices_of 2 rest));
  ii_portion : Written 0 (eachBucketIndicesPortion (dtxData st)) (indicesPortion_of pre) n
}.

Record EdgeIndicesInv (pre rest : list GeometryBucket) (n : nat) (st : Locals) : Prop := {
  ei_8 : Stream 0 (countEdgeIndices8Bit st) (edgeIndices8Bit (dtxData st))
           (edgeIndices_of 0 pre) (length (edgeIndices_of 0 rest));
  ei_16 : Stream 0 (countEdgeIndices16Bit st) (edgeIndices16Bit (dtxData st))
            (edgeIndices_of 1 pre) (length (edgeIndices_of 1 rest));
  ei_32 : Stream 0 (countEdgeIndices32Bit st) (edgeIndices32Bit (dtxData st))
            (edgeIndices_of 2 pre) (length (edgeIndices_of 2 rest));
  ei_portion : Written 0 (eachBucketEdgeIndicesPortion (dtxData st)) (edgeIndicesPortion_of pre) n
}.

Lemma fillIndices_spec b pre rest st :
  countBuckets st = length pre ->
  IndicesInv pre (b :: rest) (S (length rest)) st ->
  exists st',
    fillIndices b (tier b) st = Normal st' /\
    IndicesInv (pre ++ [b]) rest (length rest) st' /\
    frame indices_fields st st'.
Proof.
  intros Hn [H8 H16 H32 Hp]. unfold fillIndices.
  rewrite !length_indices_of_cons in *.
  destruct (indices b) as [ixs|] eqn:Hixs; simpl in *.
  - destruct (tier_cases b) as [Ht|[Ht|Ht]]; rewrite Ht; simpl;
      rewrite ?(in_tier_eq (tier b) b), ?(in_tier_ne 0 b), ?(in_tier_ne 1 b), ?(in_tier_ne 2 b)
        in * by (rewrite ?Ht; done);
      rewrite ?Ht in *;
      rewrite ?(in_tier_eq 0 b), ?(in_tier_eq 1 b), ?(in_tier_eq 2 b) in * by done;
      (rewrite assign_all_fits by (eapply Stream_fits; [done|simpl;lia]));
      simpl; (eexists; split; [done|]); (split; [|solve_frame]);
      (split; simpl; autorewrite with contents; rewrite ?Hixs, ?Ht;
        rewrite ?(in_tier_eq 0 b), ?(in_tier_eq 1 b), ?(in_tier_eq 2 b),
          ?(in_tier_ne 0 b), ?(in_tier_ne 1 b), ?(in_tier_ne 2 b) by (rewrite ?Ht; done);
        try stream_step).
    + eapply Stream_store; [done| by autorewrite with contents |by destruct H8 as [-> _]].
    + eapply Stream_store; [done| by autorewrite with contents |by destruct H16 as [-> _]].
    + eapply Stream_store; [done| by autorewrite with contents |by destruct H32 as [-> _]].
  - eexists. split; [done|]. split; [|apply frame_refl].
    rewrite !in_tier_nil in *.
    split; simpl; autorewrite with contents; rewrite ?Hixs; simpl;
      rewrite ?in_tier_nil; try stream_step.
    by apply Written_skip.
Qed.
Lemma fillEdgeIndices_spec b pre rest st :
  countBuckets st = length pre ->
  EdgeIndicesInv pre (b :: rest) (S (length rest)) st ->
  exists st',
    fillEdgeIndices b (tier b) st = Normal st' /\
    EdgeIndicesInv (pre ++ [b]) rest (length rest) st' /\
    frame edgeIndices_fields st st'.
Proof.
  intros Hn [H8 H16 H32 Hp]. unfold fillEdgeIndices.
  rewrite !length_edgeIndices_of_cons in *.
  destruct (edgeIndices b) as [eixs|] eqn:Heixs; simpl in *.
  - destruct (tier_cases b) as [Ht|[Ht|Ht]]; rewrite Ht; simpl;
      rewrite ?(in_tier_eq (tier b) b), ?(in_tier_ne 0 b), ?(in_tier_ne 1 b), ?(in_tier_ne 2 b)
        in * by (rewrite ?Ht; done);
      rewrite ?Ht in *;
      rewrite ?(in_tier_eq 0 b), ?(in_tier_eq 1 b), ?(in_tier_eq 2 b) in * by done;
      (rewrite assign_all_fits by (eapply Stream_fits; [done|simpl;lia]));
      simpl; (eexists; split; [done|]); (split; [|solve_frame]);
      (split; simpl; autorewrite with contents; rewrite ?Heixs, ?Ht;
        rewrite ?(in_tier_eq 0 b), ?(in_tier_eq 1 b), ?(in_tier_eq 2 b),
          ?(in_tier_ne 0 b), ?(in_tier_ne 1 b), ?(in_tier_ne 2 b) by (rewrite ?Ht; done);
        try stream_step).
    + eapply Stream_store; [done| by autorewrite with contents |by destruct H8 as [-> _]].
    + eapply Stream_store; [done| by autorewrite with contents |by destruct H16 as [-> _]].
    + eapply Stream_store; [done| by autorewrite with contents |by destruct H32 as [-> _]].
  - eexists. split; [done|]. split; [|apply frame_refl].
    rewrite !in_tier_nil in *.
    split; simpl; autorewrite with contents; rewrite ?Heixs; simpl;
      rewrite ?in_tier_nil; try stream_step.
    by apply Written_skip.
Qed.

Definition colors_fields : list Field := [L_countColors; D_colors].
Definition uvs_fields : list Field := [L_countUVs; D_uvs].

Lemma fillColors_spec b pre rest st :
  Stream 0 (countColors st) (colors (dtxData st)) (colors_of pre)
    (length (colors_of (b :: rest))) ->
  exists st',
    fillColors b st = Normal st' /\
    Stream 0 (countColors st') (colors (dtxData st')) (colors_of (pre ++ [b]))
      (length (colors_of rest)) /\
    frame colors_fields st st'.
Proof.
  intros H. unfold fillColors. rewrite length_colors_of_cons in H.
  destruct (colorsCompressed b) as [cs|] eqn:Hcs; simpl in *.
  - rewrite assign_all_fits by (eapply Stream_fits; [done|simpl;lia]).
    simpl. eexists. split; [done|]. split; [|solve_frame].
    simpl. autorewrite with contents. rewrite Hcs. stream_step.
  - eexists. split; [done|]. split; [|apply frame_refl].
    autorewrite with contents. rewrite Hcs. stream_step.
Qed.

Lemma fillUVs_spec b pre rest st :
  Stream 0%float (countUVs st) (uvs (dtxData st)) (uvs_of pre)
    (length (uvs_of (b :: rest))) ->
  exists st',
    fillUVs b st = Normal st' /\
    Stream 0%float (countUVs st') (uvs (dtxData st')) (uvs_of (pre ++ [b]))
      (length (uvs_of rest)) /\
    frame uvs_fields st st'.
Proof.
  intros H. unfold fillUVs. rewrite length_uvs_of_cons in H.
  destruct (uvsCompressed b) as [us|] eqn:Hus; simpl in *.
  - rewrite assign_all_fits by (eapply Stream_fits; [done|simpl;lia]).
    simpl. eexists. split; [done|]. split; [|solve_frame].
    simpl. autorewrite with contents. rewrite Hus. stream_step.
  - eexists. split; [done|]. split; [|apply frame_refl].
    autorewrite with contents. rewrite Hus. stream_step.
Qed.

Definition bucket_fields : list Field :=
  [L_countBuckets; L_countPositions; D_positions;
   D_eachBucketPositionsPortion; D_eachBucketColorsPortion; D_eachBucketUVsPortion;
   D_eachBucketIndicesBitness] ++
  indices_fields ++ edgeIndices_fields ++ colors_fields ++ uvs_fields.

Record BucketInv (pre rest : list GeometryBucket) (st : Locals) : Prop := {
  bi_count : countBuckets st = length pre;
  bi_positions : Stream 0 (countPositions st) (positions (dtxData st))
                   (positions_of pre) (length (positions_of rest));
  bi_colors : Stream 0 (countColors st) (colors (dtxData st))
                (colors_of pre) (length (colors_of rest));
  bi_uvs : Stream 0%float (countUVs st) (uvs (dtxData st))
             (uvs_of pre) (length (uvs_of rest));
  bi_indices : IndicesInv pre rest (length rest) st;
  bi_edgeIndices : EdgeIndicesInv pre rest (length rest) st;
  bi_positionsPortion : Written 0 (eachBucketPositionsPortion (dtxData st))
                          (positionsPortion_of pre) (length rest);
  bi_colorsPortion : Written 0 (eachBucketColorsPortion (dtxData st))
                       (colorsPortion_of pre) (length rest);
  bi_uvsPortion : Written 0 (eachBucketUVsPortion (dtxData st))
                    (uvsPortion_of pre) (length rest);
  bi_bitness : Written 0 (eachBucketIndicesBitness (dtxData st))
                 (bitness_of pre) (length rest)
}.

Lemma fillBucket_spec b pre rest st :
  is_Some (positionsCompressed b) ->
  BucketInv pre (b :: rest) st ->
  exists st',
    fillBucket b st = Normal st' /\
    BucketInv (pre ++ [b]) rest st' /\
    frame bucket_fields st st'.
Proof.
  intros [ps Hps] [Hn Hpos Hcol Huv Hix Hed Hpp Hcp Hup Hbit].
  assert (tier b = bitness (length ps)) as Htier by (unfold tier; by rewrite Hps).
  unfold fillBucket. rewrite Hps. simpl.
  rewrite length_positions_of_cons, Hps in Hpos. simpl in Hpos.
  rewrite assign_all_fits by (simpl; eapply Stream_fits; [done|simpl;lia]).
  simpl. rewrite <- Htier.
  match goal with |- context [fillIndices b (tier b) ?s] => set (st1 := s) end.
  destruct (fillIndices_spec b pre rest st1) as (st2 & -> & Hix2 & F2).
  { done. }
  { destruct Hix. by split. }
  simpl.
  destruct (fillEdgeIndices_spec b pre rest st2) as (st3 & -> & Hed3 & F3).
  { by frame_rewrite F2. }
  { destruct Hed. split; frame_rewrite F2; done. }
  simpl.
  destruct (fillColors_spec b pre rest st3) as (st4 & -> & Hcol4 & F4).
  { frame_rewrite F3. frame_rewrite F2. done. }
  simpl.
  destruct (fillUVs_spec b pre rest st4) as (st5 & -> & Huv5 & F5).
  { frame_rewrite F4. frame_rewrite F3. frame_rewrite F2. done. }
  simpl. eexists. split; [done|]. split.
  - split; simpl.
    + frame_rewrite F5. frame_rewrite F4. frame_rewrite F3. frame_rewrite F2. simpl.
      rewrite length_app. simpl. lia.
    + frame_rewrite F5. frame_rewrite F4. frame_rewrite F3. frame_rewrite F2. simpl.
      autorewrite with contents. rewrite Hps. stream_step.
    + frame_rewrite F5. done.
    + done.
    + destruct Hix2. split; simpl; frame_rewrite F5; frame_rewrite F4; frame_rewrite F3; done.
    + destruct Hed3. split; simpl; frame_rewrite F5; frame_rewrite F4; done.
    + frame_rewrite F5. frame_rewrite F4. frame_rewrite F3. frame_rewrite F2. simpl.
      eapply Stream_store; [done|by autorewrite with contents|].
      autorewrite with contents. by destruct Hpos as [-> _].
    + frame_rewrite F5. frame_rewrite F4. frame_rewrite F3. frame_rewrite F2. simpl.
      eapply Stream_store; [done|by autorewrite with contents|].
      autorewrite with contents. by destruct Hcol as [-> _].
    + frame_rewrite F5. frame_rewrite F4. frame_rewrite F3. frame_rewrite F2. simpl.
      eapply Stream_store; [done|by autorewrite with contents|].
      autorewrite with contents. by destruct Huv as [-> _].
    + frame_rewrite F5. frame_rewrite F4. frame_rewrite F3. frame_rewrite F2. simpl.
      eapply Stream_store; [done|by autorewrite with contents|].
      autorewrite with contents. done.
  - eapply frame_trans; [|eapply frame_trans; [eapply frame_include; [|exact F2]; decide_fields|]].
    { subst st1. solve_frame. }
    eapply frame_trans; [eapply frame_include; [|exact F3]; decide_fields|].
    eapply frame_trans; [eapply frame_include; [|exact F4]; decide_fields|].
    eapply frame_trans; [eapply frame_include; [|exact F5]; decide_fields|].
    solve_frame.
Qed.

(** A bucket the fill pass can process: its positions are present. *)
Definition valid_bucket (b : GeometryBucket) : Prop := is_Some (positionsCompressed b).

(** A geometry the fill pass can process: a 4x4 decode matrix, valid buckets. *)
Definition valid_geometry (g : Geometry) : Prop :=
  length (positionsDecompressMatrix g) = 16%nat /\ Forall valid_bucket (geometryBuckets g).

Lemma fillBuckets_spec bs pre rest st :
  Forall valid_bucket bs ->
  BucketInv pre (bs ++ rest) st ->
  exists st',
    for_each fillBucket bs st = Normal st' /\
    BucketInv (pre ++ bs) rest st' /\
    frame bucket_fields st st'.
Proof.
  revert pre st. induction bs as [|b bs IH]; intros pre st Hvalid Hinv; simpl.
  - rewrite app_nil_r. eauto using frame_refl.
  - apply Forall_cons in Hvalid as [Hb Hbs].
    destruct (fillBucket_spec b pre (bs ++ rest) st Hb Hinv) as (st1 & -> & Hinv1 & F1).
    simpl. destruct (IH _ _ Hbs Hinv1) as (st' & -> & Hinv' & F').
    rewrite <- app_assoc in Hinv'. eauto using frame_trans.
Qed.

Definition geometry_fields : list Field :=
  bucket_fields ++
  [L_countDecodeMatrices; L_geometryIndex; L_geometryIndices; D_decodeMatrices;
   D_eachGeometryPrimitiveType; D_eachGeometryBucketPortion;
   D_eachGeometryDecodeMatricesPortion; D_eachGeometryId].

Record GeometryInv (pre rest : list Geometry) (st : Locals) : Prop := {
  gi_index : geometryIndex st = length pre;
  gi_buckets : BucketInv (buckets_of pre) (buckets_of rest) st;
  gi_count : countDecodeMatrices st = (16 * length pre)%nat;
  gi_decode : Stream 0%float (countDecodeMatrices st) (decodeMatrices (dtxData st))
                (decodeMatrices_of pre) (length (decodeMatrices_of rest));
  gi_primitive : Written 0 (eachGeometryPrimitiveType (dtxData st))
                   (primitiveCode <$> pre) (length rest);
  gi_bucketPortion : Written 0 (eachGeometryBucketPortion (dtxData st))
                       (bucketPortion_of pre) (length rest);
  gi_decodePortion : Written 0 (eachGeometryDecodeMatricesPortion (dtxData st))
                       (decodeMatricesPortion_of pre) (length rest);
  gi_ids : eachGeometryId (dtxData st) = (fun g => Some (geometry_id g)) <$> pre;
  gi_table : geometryIndices st = index_table (geometry_id <$> pre)
}.

Lemma fillGeometry_spec g pre rest st :
  valid_geometry g ->
  GeometryInv pre (g :: rest) st ->
  exists st',
    fillGeometry g st = Normal st' /\
    GeometryInv (pre ++ [g]) rest st' /\
    frame geometry_fields st st'.
Proof.
  intros [Hm Hbs] [Hn Hb Hc Hd Hp Hbp Hdp Hid Htab].
  unfold fillGeometry.
  rewrite length_decodeMatrices_of_cons in Hd.
  rewrite assign_all_fits by (simpl; eapply Stream_fits; [done|lia]).
  simpl.
  match goal with |- context [for_each fillBucket _ ?s] => set (st1 := s) end.
  destruct (fillBuckets_spec (geometryBuckets g) (buckets_of pre) (buckets_of rest) st1)
    as (st2 & -> & Hb2 & F2); [done| |].
  { rewrite buckets_of_cons in Hb. destruct Hb as [? ? ? ? [] []]. subst st1. split_inv; simpl; assumption. }
  simpl. eexists. split; [done|]. split.
  - split; simpl.
    + frame_rewrite F2. simpl. rewrite length_app. simpl. lia.
    + rewrite buckets_of_snoc. destruct Hb2 as [? ? ? ? [] []].
      split_inv; simpl; assumption.
    + frame_rewrite F2. simpl. rewrite length_app. simpl. lia.
    + frame_rewrite F2. simpl. autorewrite with contents.
      eapply Stream_append; [done|by rewrite length_fmap, Hm|done|by rewrite length_fmap].
    + frame_rewrite F2. simpl. rewrite fmap_app. simpl.
      eapply Stream_store; [done|by rewrite length_fmap|done].
    + frame_rewrite F2. simpl. autorewrite with contents.
      eapply Stream_store; [done|by autorewrite with contents|].
      by destruct Hb as [-> _ _ _ _ _ _ _ _ _].
    + frame_rewrite F2. simpl. autorewrite with contents.
      eapply Stream_store; [done|by autorewrite with contents|].
      by rewrite Hc.
    + frame_rewrite F2. simpl. rewrite Hid, Hn, fmap_app.
      rewrite <- (length_fmap (fun g => Some (geometry_id g)) pre). apply put_length.
    + frame_rewrite F2. simpl. rewrite fmap_app. simpl.
      rewrite index_table_snoc, length_fmap. by rewrite Htab, Hn.
  - eapply frame_trans; [|eapply frame_trans; [eapply frame_include; [|exact F2]; decide_fields|]].
    + subst st1. solve_frame.
    + solve_frame.
Qed.

Lemma fillGeometries_spec gs pre rest st :
  Forall valid_geometry gs ->
  GeometryInv pre (gs ++ rest) st ->
  exists st',
    for_each fillGeometry gs st = Normal st' /\
    GeometryInv (pre ++ gs) rest st' /\
    frame geometry_fields st st'.
Proof.
  revert pre st. induction gs as [|g gs IH]; intros pre st Hvalid Hinv; simpl.
  - rewrite app_nil_r. eauto using frame_refl.
  - apply Forall_cons in Hvalid as [Hg Hgs].
    destruct (fillGeometry_spec g pre (gs ++ rest) st Hg Hinv) as (st1 & -> & Hinv1 & F1).
    simpl. destruct (IH _ _ Hgs Hinv1) as (st' & -> & Hinv' & F').
    rewrite <- app_assoc in Hinv'. eauto using frame_trans.
Qed.

(** *** The size pre-pass computes the lengths of the contents *)

(** [Adds l l' n bs ts]: from [l] to [l'], the pre-pass has counted [n]
    buckets, the elements of the buckets [bs] and the bytes of the textures
    [ts]; it never counts colors. *)
Record Adds (l l' : Lengths) (n : nat) (bs : list GeometryBucket) (ts : list Texture)
  : Prop := {
  adds_buckets : lenBuckets l' = (lenBuckets l + n)%nat;
  adds_positions : lenPositions l' = (lenPositions l + length (positions_of bs))%nat;
  adds_colors : lenColors l' = lenColors l;
  adds_uvs : lenUVs l' = (lenUVs l + length (uvs_of bs))%nat;
  adds_indices8 : lenIndices8Bit l' = (lenIndices8Bit l + length (indices_of 0 bs))%nat;
  adds_indices16 : lenIndices16Bit l' = (lenIndices16Bit l + length (indices_of 1 bs))%nat;
  adds_indices32 : lenIndices32Bit l' = (lenIndices32Bit l + length (indices_of 2 bs))%nat;
  adds_edgeIndices8 :
    lenEdgeIndices8Bit l' = (lenEdgeIndices8Bit l + length (edgeIndices_of 0 bs))%nat;
  adds_edgeIndices16 :
    lenEdgeIndices16Bit l' = (lenEdgeIndices16Bit l + length (edgeIndices_of 1 bs))%nat;
  adds_edgeIndices32 :
    lenEdgeIndices32Bit l' = (lenEdgeIndices32Bit l + length (edgeIndices_of 2 bs))%nat;
  adds_matrices : lenMatrices l' = lenMatrices l;
  adds_textures : lenTextures l' = (lenTextures l + length (textureData_of ts))%nat;
  adds_decodeMatrices : lenDecodeMatrices l' = lenDecodeMatrices l
}.

Lemma Adds_app l1 l2 l3 n1 n2 bs1 bs2 ts1 ts2 :
  Adds l1 l2 n1 bs1 ts1 -> Adds l2 l3 n2 bs2 ts2 ->
  Adds l1 l3 (n1 + n2) (bs1 ++ bs2) (ts1 ++ ts2).
Proof.
  intros [] []. split;
    rewrite ?positions_of_app, ?uvs_of_app, ?indices_of_app, ?edgeIndices_of_app,
      ?textureData_of_app, ?length_app;
    lia.
Qed.

Lemma Adds_eq l l' n n' bs bs' ts ts' :
  Adds l l' n bs ts -> n = n' -> bs = bs' -> ts = ts' -> Adds l l' n' bs' ts'.
Proof. by intros ? <- <- <-. Qed.

Lemma sizeBucket_adds b l : valid_bucket b -> Adds l (sizeBucket b l) 0 [b] [].
Proof.
  intros [ps Hps].
  split; unfold sizeBucket, positions_of, uvs_of, indices_of, edgeIndices_of, in_tier,
    tier, bitness; simpl; rewrite ?app_nil_r, ?Hps; cbn [elements default id];
  destruct (at_most (vertex_count (length ps)) (Z.shiftl 1 8)),
    (at_most (vertex_count (length ps)) (Z.shiftl 1 16)),
    (indices b), (edgeIndices b), (uvsCompressed b);
  simpl; rewrite ?length_fmap; lia.
Qed.

Lemma sizeBuckets_adds bs l :
  Forall valid_bucket bs ->
  Adds l (foldl (fun l b => sizeBucket b l) l bs) 0 bs [].
Proof.
  intros Hvalid. revert l. induction Hvalid as [|b bs Hb _ IH]; intros l; simpl.
  - split; simpl; lia.
  - eapply Adds_eq; [eapply Adds_app; [by apply sizeBucket_adds|apply IH]|done..].
Qed.

Lemma sizeGeometry_adds g l :
  valid_geometry g ->
  Adds l (sizeGeometry g l) (length (geometryBuckets g)) (geometryBuckets g) [].
Proof.
  intros [_ Hvalid]. unfold sizeGeometry.
  eapply Adds_eq;
    [eapply (Adds_app _ _ _ (length (geometryBuckets g)) 0 [] _ [] []);
       [|by apply sizeBuckets_adds]|..];
    [|lia|done..].
  split; simpl; lia.
Qed.

Lemma sizeGeometries_adds gs l :
  Forall valid_geometry gs ->
  Adds l (foldl (fun l g => sizeGeometry g l) l gs) (length (buckets_of gs)) (buckets_of gs) [].
Proof.
  intros Hvalid. revert l. induction Hvalid as [|g gs Hg _ IH]; intros l; simpl.
  - split; simpl; lia.
  - eapply Adds_eq; [eapply Adds_app; [by apply sizeGeometry_adds|apply IH]|..];
      [by unfold buckets_of; simpl; rewrite length_app|done..].
Qed.

Lemma sizeTextures_adds ts l :
  Adds l (foldl (fun l t => sizeTexture t l) l ts) 0 [] ts.
Proof.
  revert l. induction ts as [|t ts IH]; intros l; simpl.
  - split; simpl; lia.
  - eapply Adds_eq; [eapply (Adds_app _ _ _ 0 0 [] [] [t]); [|apply IH]|done..].
    split; simpl; rewrite ?app_nil_r, ?length_textureBytes; lia.
Qed.

(** What the size pre-pass returns, for a model with valid geometries. *)
Record Sized (m : SceneModel) (l : Lengths) : Prop := {
  sized_buckets : lenBuckets l = length (buckets_of (geometries m));
  sized_positions : lenPositions l = length (positions_of (buckets_of (geometries m)));
  sized_colors : lenColors l = 0%nat;
  sized_uvs : lenUVs l = length (uvs_of (buckets_of (geometries m)));
  sized_indices8 : lenIndices8Bit l = length (indices_of 0 (buckets_of (geometries m)));
  sized_indices16 : lenIndices16Bit l = length (indices_of 1 (buckets_of (geometries m)));
  sized_indices32 : lenIndices32Bit l = length (indices_of 2 (buckets_of (geometries m)));
  sized_edgeIndices8 :
    lenEdgeIndices8Bit l = length (edgeIndices_of 0 (buckets_of (geometries m)));
  sized_edgeIndices16 :
    lenEdgeIndices16Bit l = length (edgeIndices_of 1 (buckets_of (geometries m)));
  sized_edgeIndices32 :
    lenEdgeIndices32Bit l = length (edgeIndices_of 2 (buckets_of (geometries m)));
  sized_matrices : lenMatrices l = (length (meshes m) * 16)%nat;
  sized_textures : lenTextures l = length (textureData_of (textures m));
  sized_decodeMatrices : lenDecodeMatrices l = (length (geometries m) * 16)%nat
}.

Lemma sizes_spec m : Forall valid_geometry (geometries m) -> Sized m (sizes m).
Proof.
  intros Hvalid. unfold sizes.
  match goal with |- context [foldl _ ?l0 (geometries m)] => set (zero := l0) end.
  pose proof (Adds_app _ _ _ _ _ _ _ _ _
                (sizeGeometries_adds (geometries m) zero Hvalid)
                (sizeTextures_adds (textures m) _)) as [].
  rewrite app_nil_r in *. simpl in *.
  split; simpl; try done; lia.
Qed.

Lemma length_decodeMatrices_of gs :
  Forall valid_geometry gs -> length (decodeMatrices_of gs) = (16 * length gs)%nat.
Proof.
  induction 1 as [|g gs [Hg _] _ IH]; [done|].
  rewrite length_decodeMatrices_of_cons, Hg, IH. simpl. lia.
Qed.

Lemma initial_GeometryInv m :
  Forall valid_geometry (geometries m) ->
  colors_of (buckets_of (geometries m)) = [] ->
  GeometryInv [] (geometries m) (initial m).
Proof.
  intros Hvalid Hcolors. pose proof (sizes_spec m Hvalid) as HL.
  pose proof (length_decodeMatrices_of _ Hvalid).
  unfold initial. set (L := sizes m) in *. clearbody L. destruct HL.
  split; [..|done|done]; split_inv; simpl; try done;
    try (split; [done|]);
    (eapply Written_weaken; [|apply Written_alloc]); rewrite ?Hcolors; simpl; lia.
Qed.

Lemma fillGeometries_initial m :
  Forall valid_geometry (geometries m) ->
  colors_of (buckets_of (geometries m)) = [] ->
  exists st,
    for_each fillGeometry (geometries m) (initial m) = Normal st /\
    GeometryInv (geometries m) [] st /\
    frame geometry_fields (initial m) st.
Proof.
  intros Hvalid Hcolors.
  destruct (fillGeometries_spec (geometries m) [] [] (initial m)) as (st & ? & ? & ?);
    [done|rewrite app_nil_r; by apply initial_GeometryInv|eauto].
Qed.
End Geometry_phase.

(** ** The texture loop *)

Section Texture_phase.
Context {host : Host}.

Definition textureAttributes (t : Texture) : list Z :=
  wrap 16 <$>
  [if compressed t then 1 else 0;
   or_default (mediaType t) 0;
   width t;
   height t;
   or_default (minFilter t) LinearMipmapLinearFilter;
   or_default (magFilter t) LinearMipmapLinearFilter;
   or_default (wrapS t) ClampToEdgeWrapping;
   or_default (wrapT t) ClampToEdgeWrapping;
   or_default (wrapR t) ClampToEdgeWrapping].

Definition textureAttributes_of (ts : list Texture) : list Z := ts ≫= textureAttributes.

Definition texture_fields : list Field :=
  [L_portionIdx; L_textureIndices; D_textureData; D_eachTextureDataPortion;
   D_eachTextureAttributes].

Record TextureInv (pre rest : list Texture) (st : Locals) : Prop := {
  ti_data : Stream 0 (portionIdx st) (textureData (dtxData st))
              (textureData_of pre) (length (textureData_of rest));
  ti_portion : Written 0 (eachTextureDataPortion (dtxData st))
                 (textureDataPortion_of pre) (length rest);
  ti_attributes : Written 0 (eachTextureAttributes (dtxData st))
                    (textureAttributes_of pre) (9 * length rest);
  ti_table : textureIndices st = index_table (texture_id <$> pre)
}.

Lemma fillTexture_spec t pre rest st :
  TextureInv pre (t :: rest) st ->
  exists st',
    fillTexture (length pre) t st = Normal st' /\
    TextureInv (pre ++ [t]) rest st' /\
    frame texture_fields st st'.
Proof.
  intros [Hd Hp Ha Htab]. unfold fillTexture.
  rewrite length_textureData_of_cons in Hd.
  pose proof (length_le_byteLength (imageData t)) as Hle.
  rewrite assign_all_fits by (eapply Stream_fits; [done|lia]).
  simpl. eexists. split; [done|]. split; [|solve_frame].
  split; simpl.
  - rewrite textureData_of_snoc. destruct Hd as [Hc HW]. split.
    { by rewrite length_app, length_textureBytes, Hc. }
    unfold textureBytes. rewrite app_assoc. apply Written_pad.
    rewrite Hc. apply Written_overwrite.
    eapply Written_weaken; [|exact HW]. rewrite length_fmap. lia.
  - rewrite textureDataPortion_of_snoc.
    eapply Stream_store; [done|by rewrite length_textureDataPortion_of|].
    by destruct Hd as [-> _].
  - assert (length (textureAttributes_of pre) = (length pre * NUM_TEXTURE_ATTRIBUTES)%nat) as Hlen.
    { unfold textureAttributes_of. clear. induction pre as [|x pre IH]; [done|].
      rewrite length_bind_cons, IH. simpl. unfold NUM_TEXTURE_ATTRIBUTES. lia. }
    unfold textureAttributes_of. rewrite bind_snoc. fold (textureAttributes_of pre).
    unfold textureAttributes. cbn [fmap list_fmap].
    replace (9 * length (t :: rest))%nat with (9 + 9 * length rest)%nat in Ha by (simpl; lia).
    unfold NUM_TEXTURE_ATTRIBUTES in *. stores Ha Hlen.
  - rewrite fmap_app. simpl. by rewrite index_table_snoc, length_fmap, Htab.
Qed.

Lemma fillTextures_spec ts pre rest st :
  TextureInv pre (ts ++ rest) st ->
  exists st',
    for_each_from fillTexture (length pre) ts st = Normal st' /\
    TextureInv (pre ++ ts) rest st' /\
    frame texture_fields st st'.
Proof.
  revert pre st. induction ts as [|t ts IH]; intros pre st Hinv; simpl.
  - rewrite app_nil_r. eauto using frame_refl.
  - destruct (fillTexture_spec t pre (ts ++ rest) st Hinv) as (st1 & -> & Hinv1 & F1).
    simpl. destruct (IH _ _ Hinv1) as (st' & E & Hinv' & F').
    rewrite length_app in E. simpl in E. rewrite Nat.add_1_r in E. rewrite E.
    rewrite <- app_assoc in Hinv'. eauto using frame_trans.
Qed.

End Texture_phase.

(** ** The texture-set loop *)

Section TextureSet_phase.
Context {host : Host}.

Definition textureSet_fields : list Field :=
  [L_eachTextureSetTexturesIndex; L_textureSetIndices; D_eachTextureSetTextures].

Record TextureSetInv (table : gmap string nat) (pre rest : list TextureSet) (st : Locals)
  : Prop := {
  tsi_textures : textureIndices st = table;
  tsi_index : eachTextureSetTexturesIndex st = (4 * length pre)%nat;
  tsi_slots : Written 0 (eachTextureSetTextures (dtxData st))
                (textureSetTextures_of table pre) (4 * length rest);
  tsi_table : textureSetIndices st = index_table (textureSet_id <$> pre)
}.

Lemma length_textureSetTextures_of table tss :
  length (textureSetTextures_of table tss) = (4 * length tss)%nat.
Proof.
  unfold textureSetTextures_of. induction tss as [|x tss IH]; [done|].
  rewrite length_bind_cons, IH. simpl. lia.
Qed.

Lemma fillTextureSet_spec table ts pre rest st :
  TextureSetInv table pre (ts :: rest) st ->
  exists st',
    fillTextureSet (length pre) ts st = Normal st' /\
    TextureSetInv table (pre ++ [ts]) rest st' /\
    frame textureSet_fields st st'.
Proof.
  intros [Htex Hi Hs Htab]. unfold fillTextureSet.
  eexists. split; [done|]. split; [|solve_frame].
  pose proof (length_textureSetTextures_of table pre) as Hlen.
  split; simpl.
  - done.
  - rewrite length_app. simpl. lia.
  - unfold textureSetTextures_of. rewrite bind_snoc. fold (textureSetTextures_of table pre).
    unfold slots_of, textureSlot. cbn [fmap list_fmap]. simpl. rewrite Htex.
    replace (4 * length (ts :: rest))%nat with (4 + 4 * length rest)%nat in Hs by (simpl; lia).
    rewrite Hi. stores Hs Hlen.
  - rewrite fmap_app. simpl. by rewrite index_table_snoc, length_fmap, Htab.
Qed.

Lemma fillTextureSets_spec table tss pre rest st :
  TextureSetInv table pre (tss ++ rest) st ->
  exists st',
    for_each_from fillTextureSet (length pre) tss st = Normal st' /\
    TextureSetInv table (pre ++ tss) rest st' /\
    frame textureSet_fields st st'.
Proof.
  revert pre st. induction tss as [|ts tss IH]; intros pre st Hinv; cbn [for_each_from].
  - rewrite app_nil_r. eauto using frame_refl.
  - destruct (fillTextureSet_spec table ts pre (tss ++ rest) st Hinv) as (st1 & -> & Hinv1 & F1).
    cbn [mbind Completion_bind ES.bind]. destruct (IH _ _ Hinv1) as (st' & E & Hinv' & F').
    rewrite length_app in E. simpl in E. rewrite Nat.add_1_r in E. rewrite E.
    rewrite <- app_assoc in Hinv'. eauto using frame_trans.
Qed.

End TextureSet_phase.

(** ** The object and mesh loops *)

Section Mesh_phase.
Context {host : Host}.
#[local] Arguments Nat.mul : simpl never.

(** The key under which the fill pass looks up the origin of a mesh. *)
Definition meshKey (m : Mesh) : string := originHash (origin m).

(** The meshes that bring a new origin key, in order. *)
Definition firsts (ms : list Mesh) : list Mesh :=
  foldl (fun acc m => if decide (meshKey m ∈ meshKey <$> acc) then acc else acc ++ [m]) [] ms.

Definition coordinates (o : float * float * float) : list float := [o.1.1; o.1.2; o.2].

Definition origins_of (ms : list Mesh) : list float :=
  firsts ms ≫= fun m => coordinates (origin m).

(** The position of the first key equal to [key]. *)
Definition rank (key : string) (keys : list string) : option nat :=
  fst <$> list_find (fun k => k = key) keys.

(** The offset, in the origins array, of the entry a mesh refers to. *)
Definition originOffset (ms : list Mesh) (m : Mesh) : nat :=
  3 * default 0%nat (rank (meshKey m) (meshKey <$> firsts ms)).

Definition originsPortion_of (ms : list Mesh) : list Z :=
  (fun m => portion (originOffset ms m)) <$> ms.

Lemma firsts_snoc pre m :
  firsts (pre ++ [m]) =
  if decide (meshKey m ∈ meshKey <$> firsts pre) then firsts pre else firsts pre ++ [m].
Proof. unfold firsts. by rewrite foldl_app. Qed.

Lemma rank_None key keys : rank key keys = None <-> key ∉ keys.
Proof.
  unfold rank. rewrite fmap_None, list_find_None, Forall_forall. split.
  - intros H Hin. by apply (H key).
  - intros H x Hx ->. done.
Qed.

Lemma rank_Some key keys r :
  rank key keys = Some r <->
  keys !! r = Some key /\ forall j, (j < r)%nat -> keys !! j ≠ Some key.
Proof.
  unfold rank. rewrite fmap_Some. split.
  - intros ([i x] & (Hi & -> & Hmin)%list_find_Some & ->). simpl. split; [done|].
    intros j Hj Hk. by eapply (Hmin j key).
  - intros [Hr Hmin]. exists (r, key). split; [|done].
    apply list_find_Some. split_and!; [done..|].
    intros j y Hy Hj ->. by eapply Hmin.
Qed.

Lemma rank_is_Some key keys : key ∈ keys -> is_Some (rank key keys).
Proof.
  intros Hin. destruct (rank key keys) eqn:E; [eauto|]. by apply rank_None in E.
Qed.

Lemma rank_app_l key keys keys' :
  key ∈ keys -> rank key (keys ++ keys') = rank key keys.
Proof.
  intros (r & Hr)%rank_is_Some. rewrite Hr. apply rank_Some in Hr as [Hr Hmin].
  apply rank_Some. split; [by apply lookup_app_l_Some|].
  intros j Hj Hk. apply (Hmin j Hj).
  rewrite lookup_app_l in Hk; [done|]. apply lookup_lt_Some in Hr. lia.
Qed.

Lemma rank_snoc_new key keys : key ∉ keys -> rank key (keys ++ [key]) = Some (length keys).
Proof.
  intros Hnin. apply rank_Some. split.
  - by rewrite lookup_app_r, Nat.sub_diag.
  - intros j Hj Hk. rewrite lookup_app_l in Hk by done.
    apply Hnin. by eapply list_elem_of_lookup_2.
Qed.

Lemma rank_snoc_other key key' keys : key ≠ key' -> rank key (keys ++ [key']) = rank key keys.
Proof.
  intros Hne. destruct (decide (key ∈ keys)) as [Hin|Hnin].
  - by apply rank_app_l.
  - rewrite (proj2 (rank_None key keys)) by done. apply rank_None.
    rewrite elem_of_app, list_elem_of_singleton. by intros [?|?].
Qed.

Lemma key_in_firsts pre m : m ∈ pre -> meshKey m ∈ meshKey <$> firsts pre.
Proof.
  induction pre as [|x pre IH] using rev_ind; [by intros ?%elem_of_nil|].
  rewrite firsts_snoc, elem_of_app, list_elem_of_singleton. intros [Hin| ->].
  - case_decide; [auto|]. rewrite fmap_app, elem_of_app. auto.
  - case_decide; [done|]. rewrite fmap_app, elem_of_app.
    right. simpl. by apply list_elem_of_singleton.
Qed.

Lemma originOffset_snoc pre x m : m ∈ pre -> originOffset (pre ++ [x]) m = originOffset pre m.
Proof.
  intros Hin%key_in_firsts. unfold originOffset. rewrite firsts_snoc.
  case_decide; [done|]. by rewrite fmap_app, rank_app_l.
Qed.

Lemma originsPortion_of_snoc pre m :
  originsPortion_of (pre ++ [m]) =
  originsPortion_of pre ++ [portion (originOffset (pre ++ [m]) m)].
Proof.
  unfold originsPortion_of. rewrite fmap_app. simpl. f_equal.
  apply list_fmap_ext. intros i x Hx. f_equal.
  apply originOffset_snoc. by eapply list_elem_of_lookup_2.
Qed.


Definition mesh_fields : list Field :=
  [L_eachMeshMaterialAttributesIndex; L_matricesIndex; L_originsIndex; L_countMeshes;
   L_originLookup; D_matrices; D_origins; D_eachMeshGeometriesPortion;
   D_eachMeshMatricesPortion; D_eachMeshOriginsPortion; D_eachMeshTextureSet;
   D_eachMeshMaterialAttributes; D_eachMeshId].

Record MeshInv (G TS : gmap string nat) (pre rest : list Mesh) (st : Locals) : Prop := {
  mi_geometryIndices : geometryIndices st = G;
  mi_textureSetIndices : textureSetIndices st = TS;
  mi_count : countMeshes st = length pre;
  mi_matricesIndex : matricesIndex st = (16 * length pre)%nat;
  mi_matrices : Stream 0%float (matricesIndex st) (matrices (dtxData st))
                  (matrices_of pre) (length (matrices_of rest));
  mi_attributesIndex : eachMeshMaterialAttributesIndex st = (6 * length pre)%nat;
  mi_attributes : Written 0 (eachMeshMaterialAttributes (dtxData st))
                    (materialAttributes_of pre) (6 * length rest);
  mi_geometries : Written 0 (eachMeshGeometriesPortion (dtxData st))
                    (meshGeometriesPortion_of G pre) (length rest);
  mi_matricesPortion : Written 0 (eachMeshMatricesPortion (dtxData st))
                         (matricesPortion_of pre) (length rest);
  mi_textureSet : Written 0 (eachMeshTextureSet (dtxData st))
                    (meshTextureSet_of TS pre) (length rest);
  mi_ids : eachMeshId (dtxData st) = (fun m => Some (mesh_id m)) <$> pre;
  mi_lookup : forall key,
    originLookup st !! key = (fun r => (3 * r)%nat) <$> rank key (meshKey <$> firsts pre);
  mi_originsIndex : originsIndex st = (3 * length (firsts pre))%nat;
  mi_origins : Written 0%float (origins (dtxData st)) (origins_of pre) (3 * length rest);
  mi_originsPortion : Written 0 (eachMeshOriginsPortion (dtxData st))
                        (originsPortion_of pre) (length rest)
}.

Lemma length_materialAttributes_of ms :
  length (materialAttributes_of ms) = (6 * length ms)%nat.
Proof.
  unfold materialAttributes_of. induction ms as [|x ms IH]; [done|].
  rewrite length_bind_cons, IH. simpl. lia.
Qed.

Lemma length_origins_of ms : length (origins_of ms) = (3 * length (firsts ms))%nat.
Proof.
  unfold origins_of. induction (firsts ms) as [|x l IH]; [done|].
  rewrite length_bind_cons, IH. simpl. lia.
Qed.

Lemma materialAttributes_of_snoc pre m :
  materialAttributes_of (pre ++ [m]) = materialAttributes_of pre ++ materialAttributes m.
Proof. unfold materialAttributes_of. by rewrite bind_snoc. Qed.

Lemma meshGeometriesPortion_of_snoc G pre m :
  meshGeometriesPortion_of G (pre ++ [m]) =
  meshGeometriesPortion_of G pre ++ [wrap 32 (index_value (G !! geometry_id (geometry m)))].
Proof. unfold meshGeometriesPortion_of. by rewrite fmap_app. Qed.

Lemma meshTextureSet_of_snoc TS pre m :
  meshTextureSet_of TS (pre ++ [m]) =
  meshTextureSet_of TS pre ++
  [wrap_signed 32
     match textureSet m with
     | Some textureSet => index_value (TS !! textureSet_id textureSet)
     | None => -1
     end].
Proof. unfold meshTextureSet_of. by rewrite fmap_app. Qed.

Lemma origins_of_snoc_new pre m :
  meshKey m ∉ meshKey <$> firsts pre ->
  origins_of (pre ++ [m]) = origins_of pre ++ coordinates (origin m).
Proof.
  intros Hnin. unfold origins_of. rewrite firsts_snoc, decide_False by done.
  by rewrite bind_snoc.
Qed.

Lemma origins_of_snoc_old pre m :
  meshKey m ∈ meshKey <$> firsts pre -> origins_of (pre ++ [m]) = origins_of pre.
Proof. intros Hin. unfold origins_of. by rewrite firsts_snoc, decide_True. Qed.

(** The part of a mesh step that is the same whether or not the origin is new. *)
Ltac mesh_common HG HTS Hn Hm Hatt Hlen :=
  lazymatch goal with
  | |- Stream _ _ (matrices _) _ _ =>
      rewrite matrices_of_snoc;
      eapply Stream_append; [eassumption|by rewrite length_fmap, Hm|done|by rewrite length_fmap]
  | |- Stream _ _ (overwrite _ _ _) _ _ =>
      rewrite matrices_of_snoc;
      eapply Stream_append; [eassumption|by rewrite length_fmap, Hm|done|by rewrite length_fmap]
  | |- Written _ _ (materialAttributes_of _) _ =>
      rewrite materialAttributes_of_snoc; unfold materialAttributes; cbn [fmap list_fmap];
      stores Hatt Hlen
  | |- Written _ _ (meshGeometriesPortion_of _ _) _ =>
      rewrite meshGeometriesPortion_of_snoc, ?HG;
      eapply Stream_store;
        [eassumption|by unfold meshGeometriesPortion_of; rewrite length_fmap|by rewrite ?HG]
  | |- Written _ _ (matricesPortion_of _) _ =>
      rewrite matricesPortion_of_snoc;
      eapply Stream_store; [eassumption|by rewrite length_matricesPortion_of|]
  | |- Written _ _ (meshTextureSet_of _ _) _ =>
      rewrite meshTextureSet_of_snoc; unfold textureSetSlot; simpl; rewrite ?HTS;
      eapply Stream_store;
        [eassumption|by unfold meshTextureSet_of; rewrite length_fmap|done]
  | |- eachMeshId _ = _ => idtac
  | |- put _ _ _ = _ => idtac
  | _ => idtac
  end.

Lemma fillMesh_spec G TS m pre rest st :
  length (matrix m) = 16%nat ->
  MeshInv G TS pre (m :: rest) st ->
  exists st',
    fillMesh m st = Normal st' /\
    MeshInv G TS (pre ++ [m]) rest st' /\
    frame mesh_fields st st'.
Proof.
  intros Hm [HG HTS Hn Hmi Hmat Hai Hatt Hgeo Hmp Hts Hid Hlook Hoi Hor Hop].
  unfold fillMesh.
  rewrite length_matrices_of_cons in Hmat.
  rewrite assign_all_fits by (simpl; eapply Stream_fits; [done|lia]).
  cbn [mbind Completion_bind ES.bind]. simpl.
  pose proof (Hlook (meshKey m)) as Hkey. change (originHash (origin m)) with (meshKey m).
  pose proof (length_materialAttributes_of pre) as Hlen.
  pose proof (length_origins_of pre) as Hlen'.
  assert (put (eachMeshId (dtxData st)) (countMeshes st) (mesh_id m) =
          (fun m0 => Some (mesh_id m0)) <$> pre ++ [m]) as Hput.
  { rewrite Hid, Hn, fmap_app. rewrite <- (length_fmap (fun m0 => Some (mesh_id m0)) pre).
    apply put_length. }
  destruct (originLookup st !! meshKey m) as [o|] eqn:E.
  - symmetry in Hkey. apply fmap_Some in Hkey as (r & Hr & ->).
    assert (meshKey m ∈ meshKey <$> firsts pre) as Hin.
    { apply rank_Some in Hr as [Hr _]. by eapply list_elem_of_lookup_2. }
    assert (firsts (pre ++ [m]) = firsts pre) as Hf
      by (rewrite firsts_snoc; by rewrite decide_True).
    eexists. split; [done|]. split; [|solve_frame].
    split; simpl; rewrite ?length_app; simpl; try done; try lia;
      try (mesh_common HG HTS Hn Hm Hatt Hlen).
    + by rewrite Hmi.
    + by rewrite Hf.
    + by rewrite Hf.
    + rewrite origins_of_snoc_old by done. eapply Written_weaken; [|done]. simpl. lia.
    + rewrite originsPortion_of_snoc.
      eapply Stream_store; [done|by unfold originsPortion_of; rewrite length_fmap|].
      unfold originOffset. by rewrite Hf, Hr.
  - symmetry in Hkey. apply fmap_None, rank_None in Hkey.
    assert (firsts (pre ++ [m]) = firsts pre ++ [m]) as Hf
      by (rewrite firsts_snoc; by rewrite decide_False).
    eexists. split; [done|]. split; [|solve_frame].
    split; simpl; rewrite ?length_app; simpl; try done; try lia;
      try (mesh_common HG HTS Hn Hm Hatt Hlen).
    + by rewrite Hmi.
    + intros key. rewrite Hf, fmap_app. simpl. destruct (decide (key = meshKey m)) as [->|Hne].
      * rewrite lookup_insert_eq, rank_snoc_new by done. simpl. by rewrite length_fmap, Hoi.
      * rewrite lookup_insert_ne, rank_snoc_other by done. apply Hlook.
    + rewrite Hf, length_app. simpl. lia.
    + rewrite origins_of_snoc_new by done. unfold coordinates, pushOrigin. simpl.
      rewrite Hoi, <- Hlen'. stores Hor Hlen'.
    + rewrite originsPortion_of_snoc.
      eapply Stream_store; [done|by unfold originsPortion_of; rewrite length_fmap|].
      unfold originOffset. rewrite Hf, fmap_app. simpl. rewrite rank_snoc_new by done.
      simpl. by rewrite length_fmap, Hoi.
Qed.

(** A mesh the fill pass can process: a 4x4 matrix. *)
Definition valid_mesh (m : Mesh) : Prop := length (matrix m) = 16%nat.

Definition valid_object (o : SceneObject) : Prop := Forall valid_mesh (object_meshes o).

Lemma fillMeshes_spec G TS ms pre rest st :
  Forall valid_mesh ms ->
  MeshInv G TS pre (ms ++ rest) st ->
  exists st',
    for_each fillMesh ms st = Normal st' /\
    MeshInv G TS (pre ++ ms) rest st' /\
    frame mesh_fields st st'.
Proof.
  revert pre st. induction ms as [|m ms IH]; intros pre st Hvalid Hinv; cbn [for_each].
  - rewrite app_nil_r. eauto using frame_refl.
  - apply Forall_cons in Hvalid as [Hm Hms].
    destruct (fillMesh_spec G TS m pre (ms ++ rest) st Hm Hinv) as (st1 & -> & Hinv1 & F1).
    cbn [mbind Completion_bind ES.bind].
    destruct (IH _ _ Hms Hinv1) as (st' & -> & Hinv' & F').
    rewrite <- app_assoc in Hinv'. eauto using frame_trans.
Qed.

Definition object_fields : list Field :=
  mesh_fields ++ [D_eachObjectId; D_eachObjectMeshesPortion].

Record ObjectInv (G TS : gmap string nat) (pre rest : list SceneObject) (st : Locals)
  : Prop := {
  oi_meshes : MeshInv G TS (references pre) (references rest) st;
  oi_portion : Written 0 (eachObjectMeshesPortion (dtxData st))
                 (objectMeshesPortion_of pre) (length rest);
  oi_ids : eachObjectId (dtxData st) = (fun o => Some (object_id o)) <$> pre
}.

Lemma references_snoc pre o : references (pre ++ [o]) = references pre ++ object_meshes o.
Proof. unfold references. by rewrite bind_snoc. Qed.

Lemma objectMeshesPortion_of_snoc pre o :
  objectMeshesPortion_of (pre ++ [o]) =
  objectMeshesPortion_of pre ++ [portion (length (references pre))].
Proof. unfold objectMeshesPortion_of. by rewrite history_snoc. Qed.

Lemma fillObject_spec G TS o pre rest st :
  valid_object o ->
  ObjectInv G TS pre (o :: rest) st ->
  exists st',
    fillObject (length pre) o st = Normal st' /\
    ObjectInv G TS (pre ++ [o]) rest st' /\
    frame object_fields st st'.
Proof.
  intros Hvalid [Hm Hp Hid]. unfold fillObject.
  match goal with |- context [for_each fillMesh _ ?s] => set (st1 := s) end.
  destruct (fillMeshes_spec G TS (object_meshes o) (references pre) (references rest) st1)
    as (st2 & -> & Hm2 & F2); [done| |].
  { destruct Hm. subst st1. split; simpl; assumption. }
  eexists. split; [done|]. split.
  - split.
    + by rewrite references_snoc.
    + frame_rewrite F2. subst st1. simpl. rewrite objectMeshesPortion_of_snoc.
      eapply Stream_store; [done|by unfold objectMeshesPortion_of; rewrite length_history|].
      by destruct Hm as [_ _ -> _ _ _ _ _ _ _ _ _ _ _ _].
    + frame_rewrite F2. subst st1. simpl. rewrite Hid, fmap_app.
      rewrite <- (length_fmap (fun o => Some (object_id o)) pre). apply put_length.
  - eapply frame_trans; [|eapply frame_include; [|exact F2]; decide_fields].
    subst st1. solve_frame.
Qed.

Lemma fillObjects_spec G TS os pre rest st :
  Forall valid_object os ->
  ObjectInv G TS pre (os ++ rest) st ->
  exists st',
    for_each_from fillObject (length pre) os st = Normal st' /\
    ObjectInv G TS (pre ++ os) rest st' /\
    frame object_fields st st'.
Proof.
  revert pre st. induction os as [|o os IH]; intros pre st Hvalid Hinv; cbn [for_each_from].
  - rewrite app_nil_r. eauto using frame_refl.
  - apply Forall_cons in Hvalid as [Ho Hos].
    destruct (fillObject_spec G TS o pre (os ++ rest) st Ho Hinv) as (st1 & -> & Hinv1 & F1).
    cbn [mbind Completion_bind ES.bind].
    destruct (IH _ _ Hos Hinv1) as (st' & E & Hinv' & F').
    rewrite length_app in E. simpl in E. rewrite Nat.add_1_r in E. rewrite E.
    rewrite <- app_assoc in Hinv'. eauto using frame_trans.
Qed.
End Mesh_phase.

(** ** Typed arrays keep their length *)

Definition shape (v : Value) : nat :=
  match v with
  | VInts a => length a
  | VFloats a => length a
  | _ => 0%nat
  end.

(** [same_shape st st']: every typed array has the same length in both states. *)
Definition same_shape (st st' : Locals) : Prop :=
  forall f, shape (read f st') = shape (read f st).

Lemma same_shape_refl st : same_shape st st.
Proof. by intros f. Qed.

Lemma same_shape_trans st1 st2 st3 :
  same_shape st1 st2 -> same_shape st2 st3 -> same_shape st1 st3.
Proof. intros H12 H23 f. by rewrite H23, H12. Qed.

Ltac solve_shape :=
  let f := fresh "f" in
  intros f; destruct f; simpl; unfold store;
  rewrite ?length_insert, ?length_overwrite by (rewrite ?length_fmap; assumption); reflexivity.

(** Inverts a normal completion of a block made of [set]s and stores. *)
Ltac invert_block H :=
  repeat
    (let H' := fresh "H" in
     let Hfit := fresh "Hfit" in
     apply bind_Normal in H as (? & H' & H);
     apply assign_all_Normal in H' as [Hfit ->]; simpl in H, Hfit);
  simpl in H; injection H as <-.

Section Shapes.
Context {host : Host}.

Lemma fillIndices_shape b t st st' : fillIndices b t st = Normal st' -> same_shape st st'.
Proof.
  unfold fillIndices. intros H.
  repeat case_match; try (injection H as <-; apply same_shape_refl);
    invert_block H; solve_shape.
Qed.

Lemma fillEdgeIndices_shape b t st st' :
  fillEdgeIndices b t st = Normal st' -> same_shape st st'.
Proof.
  unfold fillEdgeIndices. intros H.
  repeat case_match; try (injection H as <-; apply same_shape_refl);
    invert_block H; solve_shape.
Qed.

Lemma fillColors_shape b st st' : fillColors b st = Normal st' -> same_shape st st'.
Proof.
  unfold fillColors. intros H.
  repeat case_match; try (injection H as <-; apply same_shape_refl);
    invert_block H; solve_shape.
Qed.

Lemma fillUVs_shape b st st' : fillUVs b st = Normal st' -> same_shape st st'.
Proof.
  unfold fillUVs. intros H.
  repeat case_match; try (injection H as <-; apply same_shape_refl);
    invert_block H; solve_shape.
Qed.

Lemma fillBucket_shape b st st' : fillBucket b st = Normal st' -> same_shape st st'.
Proof.
  unfold fillBucket. intros H.
  apply bind_Normal in H as (ps & Hps & H).
  apply bind_Normal in H as (st1 & [Hfit ->]%assign_all_Normal & H). simpl in Hfit.
  apply bind_Normal in H as (st2 & H2%fillIndices_shape & H).
  apply bind_Normal in H as (st3 & H3%fillEdgeIndices_shape & H).
  apply bind_Normal in H as (st4 & H4%fillColors_shape & H).
  apply bind_Normal in H as (st5 & H5%fillUVs_shape & H).
  injection H as <-.
  eapply same_shape_trans; [|eapply same_shape_trans; [exact H2|]].
  { solve_shape. }
  eapply same_shape_trans; [exact H3|]. eapply same_shape_trans; [exact H4|].
  eapply same_shape_trans; [exact H5|]. solve_shape.
Qed.

Lemma fillGeometry_shape g st st' : fillGeometry g st = Normal st' -> same_shape st st'.
Proof.
  unfold fillGeometry. intros H.
  apply bind_Normal in H as (st1 & [Hfit ->]%assign_all_Normal & H). simpl in Hfit.
  apply bind_Normal in H as (st2 & H2 & H).
  apply (for_each_related _ same_shape same_shape_refl same_shape_trans fillBucket_shape) in H2.
  injection H as <-.
  eapply same_shape_trans; [|eapply same_shape_trans; [exact H2|]]; solve_shape.
Qed.

Lemma fillTexture_shape i t st st' : fillTexture i t st = Normal st' -> same_shape st st'.
Proof. unfold fillTexture. intros H. invert_block H. solve_shape. Qed.

Lemma fillTextureSet_shape i ts st st' :
  fillTextureSet i ts st = Normal st' -> same_shape st st'.
Proof. unfold fillTextureSet. intros H. injection H as <-. solve_shape. Qed.

Lemma fillMesh_shape m st st' : fillMesh m st = Normal st' -> same_shape st st'.
Proof.
  unfold fillMesh. intros H.
  apply bind_Normal in H as (st1 & [Hfit ->]%assign_all_Normal & H). simpl in Hfit, H.
  destruct (originLookup st !! originHash (origin m)); injection H as <-; solve_shape.
Qed.

Lemma fillObject_shape i o st st' : fillObject i o st = Normal st' -> same_shape st st'.
Proof.
  unfold fillObject. intros H.
  apply (for_each_related _ same_shape same_shape_refl same_shape_trans fillMesh_shape) in H.
  eapply same_shape_trans; [|exact H]. solve_shape.
Qed.

Lemma run_shape m st : run m = Normal st -> same_shape (initial m) st.
Proof.
  unfold run. intros H.
  apply bind_Normal in H as (st1 & H1 & H).
  apply bind_Normal in H as (st2 & H2 & H).
  apply bind_Normal in H as (st3 & H3 & H).
  apply (for_each_related _ same_shape same_shape_refl same_shape_trans fillGeometry_shape) in H1.
  apply (for_each_from_related _ same_shape same_shape_refl same_shape_trans fillTexture_shape)
    in H2.
  apply (for_each_from_related _ same_shape same_shape_refl same_shape_trans
           fillTextureSet_shape) in H3.
  apply (for_each_from_related _ same_shape same_shape_refl same_shape_trans fillObject_shape)
    in H.
  eauto using same_shape_trans.
Qed.

End Shapes.

(** ** The whole run *)

Section Run.
Context {host : Host}.

(** The models on which the fill pass runs to completion: every bucket has
    positions and no colors (the pre-pass allocates none), matrices are 4x4,
    and the objects refer to no more meshes than the model declares. *)
Record valid_model (m : SceneModel) : Prop := {
  valid_geometries : Forall valid_geometry (geometries m);
  valid_colors : colors_of (buckets_of (geometries m)) = [];
  valid_objects : Forall valid_object (objects m);
  valid_references : (length (references (objects m)) <= length (meshes m))%nat
}.

(** What the fill pass leaves behind. *)
Record Encoded (m : SceneModel) (st : Locals) : Prop := {
  enc_geometry : GeometryInv (geometries m) [] st;
  enc_texture : TextureInv (textures m) [] st;
  enc_textureSet :
    TextureSetInv (index_table (texture_id <$> textures m)) (textureSets m) [] st;
  enc_object :
    ObjectInv (index_table (geometry_id <$> geometries m))
      (index_table (textureSet_id <$> textureSets m)) (objects m) [] st;
  enc_shape : same_shape (initial m) st
}.

Lemma length_matrices_of ms :
  Forall valid_mesh ms -> length (matrices_of ms) = (16 * length ms)%nat.
Proof.
  induction 1 as [|x ms Hx _ IH]; [done|].
  rewrite length_matrices_of_cons, Hx, IH. simpl. lia.
Qed.

Lemma valid_references_meshes os : Forall valid_object os -> Forall valid_mesh (references os).
Proof.
  unfold references. induction 1 as [|o os Ho _ IH]; simpl; [done|].
  by apply Forall_app.
Qed.

#[local] Opaque sizes.

Theorem run_spec m : valid_model m -> exists st, run m = Normal st /\ Encoded m st.
Proof.
  intros [Hgs Hcolors Hos Hrefs].
  pose proof (sizes_spec m Hgs) as HL.
  destruct (fillGeometries_initial m Hgs Hcolors) as (st1 & E1 & HG1 & F1).
  destruct (fillTextures_spec (textures m) [] [] st1) as (st2 & E2 & HT2 & F2).
  { rewrite app_nil_r. split; frame_rewrite F1; unfold initial; simpl.
    - split; [done|]. eapply Written_weaken; [|apply Written_alloc].
      by rewrite (sized_textures _ _ HL).
    - apply Written_alloc.
    - eapply Written_weaken; [|apply Written_alloc]. unfold NUM_TEXTURE_ATTRIBUTES. lia.
    - done. }
  simpl in E2, HT2.
  destruct (fillTextureSets_spec (index_table (texture_id <$> textures m))
              (textureSets m) [] [] st2) as (st3 & E3 & HTS3 & F3).
  { rewrite app_nil_r. split.
    - by destruct HT2.
    - frame_rewrite F2. frame_rewrite F1. done.
    - frame_rewrite F2. frame_rewrite F1. unfold initial. simpl.
      eapply Written_weaken; [|apply Written_alloc]. lia.
    - frame_rewrite F2. frame_rewrite F1. done. }
  simpl in E3, HTS3.
  pose proof (valid_references_meshes _ Hos) as Hms.
  pose proof (length_matrices_of _ Hms) as Hmat.
  destruct (fillObjects_spec (index_table (geometry_id <$> geometries m))
              (index_table (textureSet_id <$> textureSets m)) (objects m) [] [] st3)
    as (st4 & E4 & HO4 & F4); [done| |].
  { rewrite app_nil_r. split; [split|..].
    - frame_rewrite F3. frame_rewrite F2. by destruct HG1.
    - by destruct HTS3.
    - frame_rewrite F3. frame_rewrite F2. frame_rewrite F1. done.
    - frame_rewrite F3. frame_rewrite F2. frame_rewrite F1. done.
    - frame_rewrite F3. frame_rewrite F2. frame_rewrite F1. unfold initial. simpl.
      split; [done|]. eapply Written_weaken; [|apply Written_alloc]. rewrite Hmat. lia.
    - frame_rewrite F3. frame_rewrite F2. frame_rewrite F1. done.
    - frame_rewrite F3. frame_rewrite F2. frame_rewrite F1. unfold initial. simpl.
      eapply Written_weaken; [|apply Written_alloc]. unfold NUM_MATERIAL_ATTRIBUTES. lia.
    - frame_rewrite F3. frame_rewrite F2. frame_rewrite F1. unfold initial. simpl.
      eapply Written_weaken; [|apply Written_alloc]. lia.
    - frame_rewrite F3. frame_rewrite F2. frame_rewrite F1. unfold initial. simpl.
      eapply Written_weaken; [|apply Written_alloc]. lia.
    - frame_rewrite F3. frame_rewrite F2. frame_rewrite F1. unfold initial. simpl.
      eapply Written_weaken; [|apply Written_alloc]. lia.
    - frame_rewrite F3. frame_rewrite F2. frame_rewrite F1. done.
    - intros key. frame_rewrite F3. frame_rewrite F2. frame_rewrite F1. done.
    - frame_rewrite F3. frame_rewrite F2. frame_rewrite F1. done.
    - frame_rewrite F3. frame_rewrite F2. frame_rewrite F1. unfold initial. simpl.
      eapply Written_weaken; [|apply Written_alloc]. lia.
    - frame_rewrite F3. frame_rewrite F2. frame_rewrite F1. unfold initial. simpl.
      eapply Written_weaken; [|apply Written_alloc]. lia.
    - frame_rewrite F3. frame_rewrite F2. frame_rewrite F1. unfold initial. simpl.
      apply Written_alloc.
    - frame_rewrite F3. frame_rewrite F2. frame_rewrite F1. done. }
  simpl in E4, HO4.
  assert (run m = Normal st4) as Hrun.
  { unfold run. rewrite E1. cbn [mbind Completion_bind ES.bind]. rewrite E2.
    cbn [mbind Completion_bind ES.bind]. rewrite E3. cbn [mbind Completion_bind ES.bind].
    exact E4. }
  exists st4. split; [done|]. split.
  - destruct HG1 as [? [? ? ? ? [] []] ? ? ? ? ? ? ?].
    split; [|split_inv|..]; frame_rewrite F4; frame_rewrite F3; frame_rewrite F2; assumption.
  - destruct HT2. split; frame_rewrite F4; frame_rewrite F3; assumption.
  - destruct HTS3. split; frame_rewrite F4; assumption.
  - done.
  - by apply run_shape.
Qed.

End Run.

(** * The claims *)

Lemma modelToDTX_run `{Host} m st : run m = Normal st -> modelToDTX m = Normal (dtxData st).
Proof. intros E. unfold modelToDTX. by rewrite E. Qed.

(** [array_length Henc f]: the allocated length of the typed array [f]. *)
Ltac array_length Henc f :=
  let E := fresh "Hlen" in
  pose proof (enc_shape _ _ Henc f) as E; unfold initial in E; simpl in E;
  unfold alloc in E; rewrite ?length_replicate in E.

#[local] Opaque sizes.

(** ** C2: bit-width tiering *)

Lemma at_most_spec v bound : at_most v bound = true <-> (v <= inject_Z bound)%Q.
Proof. apply Qle_bool_iff. Qed.

Lemma tier_spec b :
  let v := vertex_count (length (elements (positionsCompressed b))) in
  (tier b = 0 <-> (v <= inject_Z 256)%Q) /\
  (tier b = 1 <-> (inject_Z 256 < v)%Q /\ (v <= inject_Z 65536)%Q) /\
  (tier b = 2 <-> (inject_Z 65536 < v)%Q).
Proof.
  intros v. unfold tier, bitness. fold v.
  change (Z.shiftl 1 8) with 256. change (Z.shiftl 1 16) with 65536.
  assert (inject_Z 256 <= inject_Z 65536)%Q as Hle by (by apply Qle_bool_iff).
  pose proof (at_most_spec v 256) as H8. pose proof (at_most_spec v 65536) as H16.
  assert ((inject_Z 256 < v)%Q <-> ~ (v <= inject_Z 256)%Q) as L8
    by (split; [apply Qlt_not_le|apply Qnot_le_lt]).
  assert ((inject_Z 65536 < v)%Q <-> ~ (v <= inject_Z 65536)%Q) as L16
    by (split; [apply Qlt_not_le|apply Qnot_le_lt]).
  assert ((v <= inject_Z 256)%Q -> (v <= inject_Z 65536)%Q) as Hmono
    by (intros ?; by eapply Qle_trans).
  rewrite L8, L16.
  destruct (at_most v 256), (at_most v 65536); intuition (try discriminate; try congruence).
Qed.

Lemma wrap_tier b : wrap 8 (tier b) = tier b.
Proof. destruct (tier_cases b) as [->|[->| ->]]; done. Qed.

(** The [k]-th element of the [i]-th group, when all groups have [n] elements. *)
Lemma lookup_bind_groups {A B} (f : A -> list B) (n : nat) (l : list A) i a k :
  (forall a, length (f a) = n) ->
  l !! i = Some a -> (k < n)%nat ->
  (l ≫= f) !! (n * i + k)%nat = f a !! k.
Proof.
  intros Hn. revert i. induction l as [|x l IH]; intros i Hi Hk; [done|].
  simpl. destruct i as [|i]; simpl in Hi.
  - injection Hi as ->. rewrite Nat.mul_0_r. simpl. rewrite lookup_app_l; [done|].
    by rewrite Hn.
  - rewrite lookup_app_r by (rewrite Hn; lia). rewrite Hn.
    replace (n * S i + k - n)%nat with (n * i + k)%nat by lia. by apply IH.
Qed.

Lemma wrap_signed_small z : - 2 ^ 31 <= z < 2 ^ 31 -> wrap_signed 32 z = z.
Proof. intros ?. unfold wrap_signed. rewrite Z.mod_small; lia. Qed.

Lemma wrap_small w z : 0 <= z < 2 ^ w -> wrap w z = z.
Proof. intros ?. unfold wrap. by apply Z.mod_small. Qed.

Lemma NoDup_five {A} (a b c d e : A) :
  NoDup [a; b; c; d; e] ->
  a ≠ b /\ a ≠ c /\ a ≠ d /\ a ≠ e /\ b ≠ c /\ b ≠ d /\ b ≠ e /\ c ≠ d /\ c ≠ e /\ d ≠ e.
Proof.
  intros Hd. pose proof (proj1 (NoDup_alt _) Hd) as Hinj. split_and!; intros ->.
  - by specialize (Hinj 0 1 _ eq_refl eq_refl)%nat.
  - by specialize (Hinj 0 2 _ eq_refl eq_refl)%nat.
  - by specialize (Hinj 0 3 _ eq_refl eq_refl)%nat.
  - by specialize (Hinj 0 4 _ eq_refl eq_refl)%nat.
  - by specialize (Hinj 1 2 _ eq_refl eq_refl)%nat.
  - by specialize (Hinj 1 3 _ eq_refl eq_refl)%nat.
  - by specialize (Hinj 1 4 _ eq_refl eq_refl)%nat.
  - by specialize (Hinj 2 3 _ eq_refl eq_refl)%nat.
  - by specialize (Hinj 2 4 _ eq_refl eq_refl)%nat.
  - by specialize (Hinj 3 4 _ eq_refl eq_refl)%nat.
Qed.

Lemma ToUint8_range x : 0 <= ToUint8 x < 256.
Proof. unfold ToUint8, wrap. by apply Z.mod_pos_bound. Qed.


Lemma Written_take {E} (zero : E) arr content demand :
  Written zero arr content demand -> take (length content) arr = content.
Proof. intros (k & -> & _). by rewrite take_app_length. Qed.

(** *** References stored as 0 *)




(** *** Portions *)

Definition monotone (l : list Z) : Prop :=
  forall i j x y, (i <= j)%nat -> l !! i = Some x -> l !! j = Some y -> x <= y.

(** Monotone among the buckets of one tier that satisfy [carries]. *)
Definition monotone_per_tier (carries : GeometryBucket -> Prop) (bs : list GeometryBucket)
    (l : list Z) : Prop :=
  forall i j b b' x y,
    (i <= j)%nat -> bs !! i = Some b -> bs !! j = Some b' ->
    tier b = tier b' -> carries b -> carries b' ->
    l !! i = Some x -> l !! j = Some y -> x <= y.

Lemma history_inv {A B} (f : list A -> A -> B) l i x :
  history f l !! i = Some x -> exists a, l !! i = Some a /\ x = f (take i l) a.
Proof.
  intros Hx. destruct (lookup_lt_is_Some_2 l i) as [a Ha].
  { apply lookup_lt_Some in Hx. by rewrite length_history in Hx. }
  exists a. split; [done|]. rewrite (history_lookup _ _ _ _ Ha) in Hx. congruence.
Qed.

Lemma portion_small n : Z.of_nat n < 2 ^ 32 -> portion n = Z.of_nat n.
Proof. intros ?. unfold portion, wrap. apply Z.mod_small. lia. Qed.

(** A cursor that only grows, and ends below 2^32, leaves a monotone history. *)
Lemma cursor_bounds {A} (g : list A -> nat) (l : list A) i j :
  (forall pre more, g pre <= g (pre ++ more))%nat ->
  (i <= j)%nat ->
  (g (take i l) <= g (take j l) <= g l)%nat.
Proof.
  intros Hg Hij. split.
  - rewrite <- (take_drop i (take j l)), take_take, Nat.min_l by done. apply Hg.
  - rewrite <- (take_drop j l) at 2. apply Hg.
Qed.

Lemma history_monotone {A} (g : list A -> nat) (l : list A) :
  (forall pre more, g pre <= g (pre ++ more))%nat ->
  Z.of_nat (g l) < 2 ^ 32 ->
  monotone (history (fun pre _ => portion (g pre)) l).
Proof.
  intros Hg Hbound i j x y Hij (a & _ & ->)%history_inv (b & _ & ->)%history_inv.
  pose proof (cursor_bounds g l i j Hg Hij). rewrite !portion_small; lia.
Qed.

(** *** Origin keys *)

(** [continues prev s]: in [prev] followed by [s], every "-" comes after an
    "e" and the last character is no "e". *)
Fixpoint continues (prev : Ascii.ascii) (s : string) : bool :=
  match s with
  | EmptyString => negb (Ascii.eqb prev "e"%char)
  | String c s' => (negb (Ascii.eqb c "-"%char) || Ascii.eqb prev "e"%char) && continues c s'
  end.

(** The shape of a rendered number: not empty, a "-" only in front or after
    an "e" (as in 1e-7), and no "e" at the end. *)
Definition numeral (s : string) : bool :=
  match s with
  | EmptyString => false
  | String c s' => continues c s'
  end.


Lemma append_cons c a s : String c a +:+ s = String c (a +:+ s).
Proof. done. Qed.



(** The names a plain object inherits from [Object.prototype]: a read of one
    of them is not [undefined] although the object has no such key. *)
Definition Object_prototype_names : list string :=
  ["constructor"; "hasOwnProperty"; "isPrototypeOf"; "propertyIsEnumerable";
   "toLocaleString"; "toString"; "valueOf"; "__defineGetter__"; "__defineSetter__";
   "__lookupGetter__"; "__lookupSetter__"; "__proto__"].

Fixpoint has_hyphen (s : string) : bool :=
  match s with
  | EmptyString => false
  | String c s' => Ascii.eqb c "-"%char || has_hyphen s'
  end.

Lemma has_hyphen_append a b : has_hyphen (a +:+ "-" +:+ b) = true.
Proof.
  induction a as [|c a IH]; [done|]. rewrite append_cons. simpl. by rewrite IH, orb_true_r.
Qed.

Section Origins.
Context {host : Host}.

(** The key of an origin holds a hyphen, so it is none of the names a plain
    object inherits: on the keys the encoder uses, [originLookup] reads
    [undefined] exactly where it has no entry, and every write adds one. *)
Lemma originHash_own o : originHash o ∉ Object_prototype_names.
Proof.
  intros Hin. assert (has_hyphen (originHash o) = true) as Hh.
  { destruct o as [[x y] z]. apply has_hyphen_append. }
  assert (Forall (fun name => has_hyphen name = false) Object_prototype_names) as Hnames
    by (repeat constructor).
  rewrite Forall_forall in Hnames. by rewrite (Hnames _ Hin) in Hh.
Qed.

(** The rendering of numbers, on the coordinates [xs], gives numerals and
    tells the coordinates apart. *)
Record faithful (xs : list float) : Prop := {
  faithful_numeral : forall x, x ∈ xs -> numeral (Number_toString x) = true;
  faithful_injective :
    forall x y, x ∈ xs -> y ∈ xs -> Number_toString x = Number_toString y -> x = y
}.

Definition coordinates_of (ms : list Mesh) : list float :=
  ms ≫= fun m => coordinates (origin m).




Lemma firsts_elem m ms : m ∈ firsts ms -> m ∈ ms.
Proof.
  induction ms as [|x ms IH] using rev_ind; [done|].
  rewrite firsts_snoc, elem_of_app. case_decide; [auto|].
  rewrite elem_of_app. intros [?|?]; auto.
Qed.




End Origins.

(** *** The run up to the objects, and a mesh reference too many *)

Lemma for_each_from_app {A St} (body : nat -> A -> St -> Completion St) i l1 l2 s :
  for_each_from body i (l1 ++ l2) s =
  for_each_from body i l1 s ≫= for_each_from body (i + length l1) l2.
Proof.
  revert i s. induction l1 as [|a l1 IH]; intros i s; simpl.
  - by rewrite Nat.add_0_r.
  - destruct (body i a s); simpl; [|done]. rewrite IH. by rewrite Nat.add_succ_r.
Qed.

Lemma bind_lookup_split {A B} (f : A -> list B) l n x :
  (l ≫= f) !! n = Some x ->
  exists l1 a l2 k1 k2,
    l = l1 ++ a :: l2 /\ f a = k1 ++ x :: k2 /\ n = (length (l1 ≫= f) + length k1)%nat.
Proof.
  revert n. induction l as [|a l IH]; intros n; [done|]. rewrite bind_cons.
  destruct (decide (n < length (f a))%nat) as [Hlt|Hge].
  - rewrite lookup_app_l by done. intros Hx.
    exists [], a, l, (take n (f a)), (drop (S n) (f a)). split_and!; [done| |].
    + by rewrite take_drop_middle.
    + rewrite length_take. simpl. lia.
  - rewrite lookup_app_r by lia. intros Hx.
    destruct (IH _ Hx) as (l1 & b & l2 & k1 & k2 & -> & Hb & Hn).
    exists (a :: l1), b, l2, k1, k2. split_and!; [done..|].
    rewrite bind_cons, length_app. lia.
Qed.

Section Overflow.
Context {host : Host}.

(** The state after the loops over geometries, textures and texture sets,
    ready for the objects [os], which need not be all objects of the model. *)
Lemma fill_prelude m os :
  Forall valid_geometry (geometries m) ->
  colors_of (buckets_of (geometries m)) = [] ->
  Forall valid_object os ->
  (length (references os) <= length (meshes m))%nat ->
  (length os <= length (objects m))%nat ->
  exists st,
    (st ← for_each fillGeometry (geometries m) (initial m);
     st ← for_each_from fillTexture 0 (textures m) st;
     for_each_from fillTextureSet 0 (textureSets m) st) = Normal st /\
    ObjectInv (index_table (geometry_id <$> geometries m))
      (index_table (textureSet_id <$> textureSets m)) [] os st /\
    length (matrices (dtxData st)) = (length (meshes m) * 16)%nat.
Proof.
  intros Hgs Hcolors Hos Hrefs Hlen.
  pose proof (sizes_spec m Hgs) as HL.
  destruct (fillGeometries_initial m Hgs Hcolors) as (st1 & E1 & HG1 & F1).
  destruct (fillTextures_spec (textures m) [] [] st1) as (st2 & E2 & HT2 & F2).
  { rewrite app_nil_r. split; frame_rewrite F1; unfold initial; simpl.
    - split; [done|]. eapply Written_weaken; [|apply Written_alloc].
      by rewrite (sized_textures _ _ HL).
    - apply Written_alloc.
    - eapply Written_weaken; [|apply Written_alloc]. unfold NUM_TEXTURE_ATTRIBUTES. lia.
    - done. }
  simpl in E2, HT2.
  destruct (fillTextureSets_spec (index_table (texture_id <$> textures m))
              (textureSets m) [] [] st2) as (st3 & E3 & HTS3 & F3).
  { rewrite app_nil_r. split.
    - by destruct HT2.
    - frame_rewrite F2. frame_rewrite F1. done.
    - frame_rewrite F2. frame_rewrite F1. unfold initial. simpl.
      eapply Written_weaken; [|apply Written_alloc]. lia.
    - frame_rewrite F2. frame_rewrite F1. done. }
  simpl in E3, HTS3.
  pose proof (valid_references_meshes _ Hos) as Hms.
  pose proof (length_matrices_of _ Hms) as Hmat.
  exists st3. split_and!.
  - rewrite E1. cbn [mbind Completion_bind ES.bind]. rewrite E2.
    cbn [mbind Completion_bind ES.bind]. exact E3.
  - split; [split|..].
    + frame_rewrite F3. frame_rewrite F2. by destruct HG1.
    + by destruct HTS3.
    + frame_rewrite F3. frame_rewrite F2. frame_rewrite F1. done.
    + frame_rewrite F3. frame_rewrite F2. frame_rewrite F1. done.
    + frame_rewrite F3. frame_rewrite F2. frame_rewrite F1. unfold initial. simpl.
      split; [done|]. eapply Written_weaken; [|apply Written_alloc]. rewrite Hmat. lia.
    + frame_rewrite F3. frame_rewrite F2. frame_rewrite F1. done.
    + frame_rewrite F3. frame_rewrite F2. frame_rewrite F1. unfold initial. simpl.
      eapply Written_weaken; [|apply Written_alloc]. unfold NUM_MATERIAL_ATTRIBUTES. lia.
    + frame_rewrite F3. frame_rewrite F2. frame_rewrite F1. unfold initial. simpl.
      eapply Written_weaken; [|apply Written_alloc]. lia.
    + frame_rewrite F3. frame_rewrite F2. frame_rewrite F1. unfold initial. simpl.
      eapply Written_weaken; [|apply Written_alloc]. lia.
    + frame_rewrite F3. frame_rewrite F2. frame_rewrite F1. unfold initial. simpl.
      eapply Written_weaken; [|apply Written_alloc]. lia.
    + frame_rewrite F3. frame_rewrite F2. frame_rewrite F1. done.
    + intros key. frame_rewrite F3. frame_rewrite F2. frame_rewrite F1. done.
    + frame_rewrite F3. frame_rewrite F2. frame_rewrite F1. done.
    + frame_rewrite F3. frame_rewrite F2. frame_rewrite F1. unfold initial. simpl.
      eapply Written_weaken; [|apply Written_alloc]. lia.
    + frame_rewrite F3. frame_rewrite F2. frame_rewrite F1. unfold initial. simpl.
      eapply Written_weaken; [|apply Written_alloc]. lia.
    + frame_rewrite F3. frame_rewrite F2. frame_rewrite F1. unfold initial. simpl.
      eapply Written_weaken; [|apply Written_alloc]. lia.
    + frame_rewrite F3. frame_rewrite F2. frame_rewrite F1. done.
  - frame_rewrite F3. frame_rewrite F2. frame_rewrite F1. unfold initial. simpl.
    unfold alloc. by rewrite length_replicate.
Qed.

(** Where the matrices array is full, the next mesh does not fit. *)
Lemma fillMesh_full mesh st :
  matricesIndex st = length (matrices (dtxData st)) ->
  matrix mesh ≠ [] ->
  fillMesh mesh st = Throw RangeError.
Proof.
  intros Hfull Hmatrix. unfold fillMesh, assign_all, ES.set. simpl.
  case_decide as Hfit; [|done]. exfalso.
  destruct (matrix mesh); [done|]. simpl in Hfit. lia.
Qed.

(** The fill pass stops at the first mesh reference beyond the number of
    meshes. *)
Lemma run_overflow m :
  Forall valid_geometry (geometries m) ->
  colors_of (buckets_of (geometries m)) = [] ->
  Forall valid_object (objects m) ->
  (length (meshes m) < length (references (objects m)))%nat ->
  run m = Throw RangeError.
Proof.
  intros Hgs Hcolors Hos Hover.
  destruct (lookup_lt_is_Some_2 _ _ Hover) as [x Hx].
  destruct (bind_lookup_split _ _ _ _ Hx) as (os1 & o & os2 & ms1 & ms2 & Eos & Eo & En).
  rewrite Eos in Hos. apply Forall_app in Hos as [Hos1 [Ho _]%Forall_cons].
  unfold valid_object in Ho. rewrite Eo in Ho.
  apply Forall_app in Ho as [Hms1 [Hx16 _]%Forall_cons].
  set (o' := {| object_id := object_id o; object_meshes := ms1 |}).
  destruct (fill_prelude m (os1 ++ [o'])) as (st3 & E3 & HO3 & L3); [done..| | | |].
  { apply Forall_app. split; [done|]. by constructor. }
  { rewrite references_snoc, length_app. simpl. unfold references. lia. }
  { rewrite Eos, !length_app. simpl. lia. }
  set (G := index_table (geometry_id <$> geometries m)) in *.
  set (TS := index_table (textureSet_id <$> textureSets m)) in *.
  destruct (fillObjects_spec G TS os1 [] [o'] st3 Hos1 HO3) as (st4 & E4 & HO4 & _).
  simpl in E4, HO4. destruct HO4 as [Hm4 _ _].
  pose proof (for_each_from_related _ same_shape same_shape_refl same_shape_trans
                fillObject_shape _ _ _ _ E4 D_matrices) as S4. simpl in S4.
  assert (fillObject (length os1) o st4 = Throw RangeError) as Ethrow.
  { unfold fillObject.
    match goal with |- context [for_each fillMesh _ ?s] => set (st5 := s) end.
    destruct (fillMeshes_spec G TS ms1 (references os1) [] st5 Hms1)
      as (st6 & E6 & Hm6 & _).
    { destruct Hm4. subst st5. unfold references in *. simpl in *.
      split; simpl; assumption. }
    pose proof (for_each_related _ same_shape same_shape_refl same_shape_trans
                  fillMesh_shape _ _ _ E6 D_matrices) as S6. simpl in S6.
    rewrite Eo, for_each_app, E6. cbn [mbind Completion_bind ES.bind for_each].
    rewrite fillMesh_full; [done| |].
    - rewrite (mi_matricesIndex _ _ _ _ _ Hm6), S6. subst st5. simpl.
      rewrite S4, L3, length_app. unfold references in *. lia.
    - unfold valid_mesh in Hx16. by destruct (matrix x). }
  apply bind_Normal in E3 as (s1 & E1 & E3).
  apply bind_Normal in E3 as (s2 & E2 & E3).
  unfold run. rewrite E1. cbn [mbind Completion_bind ES.bind].
  rewrite E2. cbn [mbind Completion_bind ES.bind]. rewrite E3.
  cbn [mbind Completion_bind ES.bind].
  rewrite Eos, for_each_from_app, E4. cbn [mbind Completion_bind ES.bind].
  simpl. rewrite Ethrow. done.
Qed.
End Overflow.

Section Claims.
Context {host : Host}.

(** C2. For every model the encoder accepts, the bitness tag of each bucket
    is its tier; the 8-bit, 16-bit and 32-bit index arrays are exactly the
    indices of the buckets of tier 0, 1 and 2, in order, and the edge-index
    arrays likewise; the size pre-pass computes exactly these lengths; and
    the tier of a bucket whose positions array has [n] elements, that is
    with vertex count [v = n / 3], is 0 iff [v <= 256], 1 iff
    [256 < v <= 65536], and 2 iff [65536 < v]. *)
Theorem index_tiering m :
  valid_model m ->
  let bs := buckets_of (geometries m) in
  exists d,
    modelToDTX m = Normal d /\
    eachBucketIndicesBitness d = tier <$> bs /\
    indices8Bit d = indices_of 0 bs /\
    indices16Bit d = indices_of 1 bs /\
    indices32Bit d = indices_of 2 bs /\
    edgeIndices8Bit d = edgeIndices_of 0 bs /\
    edgeIndices16Bit d = edgeIndices_of 1 bs /\
    edgeIndices32Bit d = edgeIndices_of 2 bs /\
    lenIndices8Bit (sizes m) = length (indices_of 0 bs) /\
    lenIndices16Bit (sizes m) = length (indices_of 1 bs) /\
    lenIndices32Bit (sizes m) = length (indices_of 2 bs) /\
    lenEdgeIndices8Bit (sizes m) = length (edgeIndices_of 0 bs) /\
    lenEdgeIndices16Bit (sizes m) = length (edgeIndices_of 1 bs) /\
    lenEdgeIndices32Bit (sizes m) = length (edgeIndices_of 2 bs) /\
    forall b,
      let v := (Z.of_nat (length (elements (positionsCompressed b))) # 3)%Q in
      (tier b = 0 <-> (v <= inject_Z 256)%Q) /\
      (tier b = 1 <-> (inject_Z 256 < v)%Q /\ (v <= inject_Z 65536)%Q) /\
      (tier b = 2 <-> (inject_Z 65536 < v)%Q).
Proof.
  intros Hvalid bs. subst bs. destruct (run_spec m Hvalid) as (st & Hrun & Henc).
  destruct (sizes_spec m (valid_geometries _ Hvalid)) as [Hb _ _ _ H8 H16 H32 E8 E16 E32 _ _ _].
  destruct (enc_geometry _ _ Henc) as [_ [_ _ _ _ [[_ I8] [_ I16] [_ I32] _] [[_ J8] [_ J16] [_ J32] _] _ _ _ Hbit] _ _ _ _ _ _ _].
  array_length Henc D_eachBucketIndicesBitness.
  array_length Henc D_indices8Bit. array_length Henc D_indices16Bit.
  array_length Henc D_indices32Bit. array_length Henc D_edgeIndices8Bit.
  array_length Henc D_edgeIndices16Bit. array_length Henc D_edgeIndices32Bit.
  exists (dtxData st). split; [by apply modelToDTX_run|].
  split_and!; try done; try (eapply Written_exact; [eassumption|congruence]).
  - transitivity (bitness_of (buckets_of (geometries m))).
    + eapply Written_exact; [eassumption|]. rewrite length_bitness_of. congruence.
    + unfold bitness_of. apply list_fmap_ext. intros _ b _. apply wrap_tier.
  - intros b. exact (tier_spec b).
Qed.


(** ** C5: primitive codes *)

(** C5 as the code has it. For every model the encoder accepts, and pairwise
    distinct primitive constants, the code stored for a geometry is 0 for
    triangles, 1 for solid, 2 for surface, 3 for lines and 4 for points; for
    any other primitive the encoder does not fail: it stores 0 (the value a
    [Uint8Array] holds after a store of [undefined]). *)
Theorem primitive_codes m :
  valid_model m ->
  NoDup [TrianglesPrimitive; SolidPrimitive; SurfacePrimitive; LinesPrimitive;
         PointsPrimitive] ->
  exists d,
    modelToDTX m = Normal d /\
    forall i g,
      geometries m !! i = Some g ->
      exists code,
        eachGeometryPrimitiveType d !! i = Some code /\
        (primitive g = TrianglesPrimitive -> code = 0) /\
        (primitive g = SolidPrimitive -> code = 1) /\
        (primitive g = SurfacePrimitive -> code = 2) /\
        (primitive g = LinesPrimitive -> code = 3) /\
        (primitive g = PointsPrimitive -> code = 4) /\
        (primitive g ∉ [TrianglesPrimitive; SolidPrimitive; SurfacePrimitive;
                        LinesPrimitive; PointsPrimitive] -> code = 0).
Proof.
  intros Hvalid Hdistinct. destruct (run_spec m Hvalid) as (st & Hrun & Henc).
  exists (dtxData st). split; [by apply modelToDTX_run|].
  intros i g Hg. exists (primitiveCode g). split.
  - eapply Written_lookup; [exact (gi_primitive _ _ _ (enc_geometry _ _ Henc))|].
    by rewrite list_lookup_fmap, Hg.
  - apply NoDup_five in Hdistinct as (? & ? & ? & ? & ? & ? & ? & ? & ? & ?).
    rewrite !not_elem_of_cons.
    unfold primitiveCode, primitiveType_of.
    repeat case Z.eqb_spec; intros; simpl; split_and!; intros; try done;
      exfalso; intuition congruence.
Qed.

(** ** The texture-set array *)

(** For every model the encoder accepts, the array [eachTextureSetTextures]
    has [numTextureSets * 5] elements and its cursor ends at
    [numTextureSets * 4]: for the [i]-th texture set the four slots
    [4i .. 4i+3] hold, in that order, the entries for the color,
    metallic-roughness, emissive and occlusion textures (what the texture
    dictionary gives for the id, or -1), and the last [numTextureSets] slots
    are never written. *)
Lemma textureSet_slots m :
  valid_model m ->
  let table := index_table (texture_id <$> textures m) in
  exists st,
    run m = Normal st /\
    length (eachTextureSetTextures (dtxData st)) = (length (textureSets m) * 5)%nat /\
    eachTextureSetTexturesIndex st = (4 * length (textureSets m))%nat /\
    (forall i ts k texture,
       textureSets m !! i = Some ts ->
       [colorTexture ts; metallicRoughnessTexture ts; emissiveTexture ts;
        occlusionTexture ts] !! k = Some texture ->
       eachTextureSetTextures (dtxData st) !! (4 * i + k)%nat =
       Some (wrap_signed 32
               match texture with
               | Some texture => index_value (table !! texture_id texture)
               | None => -1
               end)) /\
    (forall j,
       (4 * length (textureSets m) <= j < 5 * length (textureSets m))%nat ->
       eachTextureSetTextures (dtxData st) !! j = Some 0).
Proof.
  intros Hvalid table. destruct (run_spec m Hvalid) as (st & Hrun & Henc).
  destruct (enc_textureSet _ _ Henc) as [_ Hindex Hslots _].
  array_length Henc D_eachTextureSetTextures.
  exists st. split; [done|]. split_and!.
  - done.
  - done.
  - intros i ts k texture Hts Hk.
    eapply Written_lookup; [exact Hslots|]. unfold textureSetTextures_of.
    assert (k < 4)%nat by (apply lookup_lt_Some in Hk; simpl in Hk; lia).
    rewrite (lookup_bind_groups _ 4 _ i ts k); [|done..].
    unfold slots_of. by rewrite !list_lookup_fmap, Hk.
  - intros j Hj. eapply Written_lookup_rest; [exact Hslots|].
    rewrite length_textureSetTextures_of. lia.
Qed.

(** ** C3: material attributes *)

(** C3 as the code has it. For every model the encoder accepts, whatever the
    values of the colors and factors of its meshes, the six attributes of the
    [j]-th mesh record are, in the order R, G, B, opacity, metallic,
    roughness, the values [value * 255] truncated towards zero and reduced
    modulo 256 (the store of a [Uint8Array]); each lies in [0, 255]. *)
Theorem material_attributes m :
  valid_model m ->
  exists d,
    modelToDTX m = Normal d /\
    forall j mesh k value,
      references (objects m) !! j = Some mesh ->
      [(color mesh).1.1; (color mesh).1.2; (color mesh).2;
       opacity mesh; metallic mesh; roughness mesh] !! k = Some value ->
      eachMeshMaterialAttributes d !! (6 * j + k)%nat =
        Some (wrap 8 (truncate (value * 255)%float)) /\
      0 <= wrap 8 (truncate (value * 255)%float) < 256.
Proof.
  intros Hvalid. destruct (run_spec m Hvalid) as (st & Hrun & Henc).
  exists (dtxData st). split; [by apply modelToDTX_run|].
  intros j mesh k value Hmesh Hk. split; [|apply ToUint8_range].
  eapply Written_lookup; [exact (mi_attributes _ _ _ _ _ (oi_meshes _ _ _ _ _ (enc_object _ _ Henc)))|].
  assert (k < 6)%nat by (apply lookup_lt_Some in Hk; simpl in Hk; lia).
  unfold materialAttributes_of. rewrite (lookup_bind_groups _ 6 _ j mesh k); [|done..].
  unfold materialAttributes. by rewrite list_lookup_fmap, Hk.
Qed.

(** ** C8: absent textures and texture sets *)


(** ** C10: mesh records *)

(** C10 as the code has it. Take a model whose buckets have positions and no
    colors and whose matrices have 16 elements (so that only the mesh
    references can stop the fill pass). When its objects hold no more mesh
    references than the model has meshes: the fill pass writes one mesh
    record per reference, in the order of the references; the per-mesh
    arrays have the lengths the number of meshes of the model gives; the
    [j]-th record belongs to the [j]-th reference; and the slots after the
    last record hold zero. When the references outnumber the meshes, the
    encoder throws a [RangeError]. *)
Theorem mesh_records m :
  Forall valid_geometry (geometries m) ->
  colors_of (buckets_of (geometries m)) = [] ->
  Forall valid_object (objects m) ->
  let refs := references (objects m) in
  let numMeshes := length (meshes m) in
  ((length refs <= numMeshes)%nat ->
   exists st,
    run m = Normal st /\ modelToDTX m = Normal (dtxData st) /\
    countMeshes st = length refs /\
    eachMeshId (dtxData st) = (fun mesh => Some (mesh_id mesh)) <$> refs /\
    length (matrices (dtxData st)) = (numMeshes * 16)%nat /\
    length (eachMeshGeometriesPortion (dtxData st)) = numMeshes /\
    length (eachMeshMatricesPortion (dtxData st)) = numMeshes /\
    length (eachMeshOriginsPortion (dtxData st)) = numMeshes /\
    length (eachMeshTextureSet (dtxData st)) = numMeshes /\
    length (eachMeshMaterialAttributes (dtxData st)) = (numMeshes * 6)%nat /\
    (forall j mesh,
       refs !! j = Some mesh ->
       eachMeshGeometriesPortion (dtxData st) !! j =
         Some (wrap 32 (index_value (index_table (geometry_id <$> geometries m)
                                       !! geometry_id (geometry mesh)))) /\
       eachMeshMatricesPortion (dtxData st) !! j = Some (wrap 32 (16 * Z.of_nat j)) /\
       (forall k x, matrix mesh !! k = Some x ->
                    matrices (dtxData st) !! (16 * j + k)%nat = Some (fround x))) /\
    (forall j,
       (length refs <= j < numMeshes)%nat ->
       eachMeshGeometriesPortion (dtxData st) !! j = Some 0 /\
       eachMeshMatricesPortion (dtxData st) !! j = Some 0 /\
       eachMeshOriginsPortion (dtxData st) !! j = Some 0 /\
       eachMeshTextureSet (dtxData st) !! j = Some 0 /\
       (forall k, (k < 6)%nat ->
                  eachMeshMaterialAttributes (dtxData st) !! (6 * j + k)%nat = Some 0) /\
       (forall k, (k < 16)%nat ->
                  matrices (dtxData st) !! (16 * j + k)%nat = Some 0%float))) /\
  ((numMeshes < length refs)%nat -> modelToDTX m = Throw RangeError).
Proof.
  intros Hgs Hcolors Hos refs numMeshes. subst refs numMeshes.
  split; [|intros Hover; unfold modelToDTX; by rewrite (run_overflow m Hgs Hcolors Hos Hover)].
  intros Hfit. assert (valid_model m) as Hvalid by (by split).
  destruct (run_spec m Hvalid) as (st & Hrun & Henc).
  destruct (sizes_spec m (valid_geometries _ Hvalid)) as [_ _ _ _ _ _ _ _ _ _ Hmatrices _ _].
  destruct (oi_meshes _ _ _ _ _ (enc_object _ _ Henc))
    as [_ _ Hcount _ [_ Hmat] _ Hatt Hgeo Hmp Hts Hids _ _ _ Hop].
  pose proof (valid_references_meshes _ (valid_objects _ Hvalid)) as Hrefs.
  array_length Henc D_matrices. array_length Henc D_eachMeshGeometriesPortion.
  array_length Henc D_eachMeshMatricesPortion. array_length Henc D_eachMeshOriginsPortion.
  array_length Henc D_eachMeshTextureSet. array_length Henc D_eachMeshMaterialAttributes.
  change NUM_MATERIAL_ATTRIBUTES with 6%nat in *.
  exists st. split_and!; try done; try congruence.
  - by apply modelToDTX_run.
  - intros j mesh Hmesh. split_and!.
    + eapply Written_lookup; [exact Hgeo|].
      unfold meshGeometriesPortion_of. by rewrite list_lookup_fmap, Hmesh.
    + eapply Written_lookup; [exact Hmp|]. unfold matricesPortion_of.
      rewrite (history_lookup _ _ _ _ Hmesh). unfold portion. do 2 f_equal.
      rewrite length_take. apply lookup_lt_Some in Hmesh. lia.
    + intros k x Hx. eapply Written_lookup; [exact Hmat|].
      unfold matrices_of.
      pose proof (proj1 (Forall_lookup _ _) Hrefs) as Hall.
      rewrite <- (take_drop_middle _ _ _ Hmesh), bind_app, bind_cons.
      rewrite lookup_app_r; rewrite (length_matrices_of (take j _)).
      * rewrite length_take_le by (apply lookup_lt_Some in Hmesh; lia).
        replace (16 * j + k - 16 * j)%nat with k by lia.
        apply lookup_app_l_Some. by rewrite list_lookup_fmap, Hx.
      * by apply Forall_take.
      * rewrite length_take. lia.
      * by apply Forall_take.
  - intros j Hj.
    pose proof (length_materialAttributes_of (references (objects m))) as La.
    pose proof (length_matrices_of _ Hrefs) as Lm.
    split_and!.
    + eapply Written_lookup_rest; [exact Hgeo|].
      unfold meshGeometriesPortion_of. rewrite length_fmap. lia.
    + eapply Written_lookup_rest; [exact Hmp|]. rewrite length_matricesPortion_of. lia.
    + eapply Written_lookup_rest; [exact Hop|].
      unfold originsPortion_of. rewrite length_fmap. lia.
    + eapply Written_lookup_rest; [exact Hts|].
      unfold meshTextureSet_of. rewrite length_fmap. lia.
    + intros k Hk. eapply Written_lookup_rest; [exact Hatt|]. lia.
    + intros k Hk. eapply Written_lookup_rest; [exact Hmat|]. lia.
Qed.

(** ** C7: portions *)

(** C7 as the code has it. For every model the encoder accepts, where the
    array a portion array points into has fewer than 2^32 elements, the
    values recorded in the portion array never decrease, for
    [eachBucketPositionsPortion], [eachBucketColorsPortion],
    [eachBucketUVsPortion], [eachGeometryBucketPortion],
    [eachGeometryDecodeMatricesPortion], [eachTextureDataPortion],
    [eachObjectMeshesPortion] and the records of [eachMeshMatricesPortion].
    The values of [eachBucketIndicesPortion] and
    [eachBucketEdgeIndicesPortion] are cursors into three arrays: they never
    decrease among the buckets of one tier that have indices (edge indices). *)
Theorem portions_monotone m :
  valid_model m ->
  let bs := buckets_of (geometries m) in
  let below (n : nat) := Z.of_nat n < 2 ^ 32 in
  exists d,
    modelToDTX m = Normal d /\
    (below (length (positions d)) -> monotone (eachBucketPositionsPortion d)) /\
    monotone (eachBucketColorsPortion d) /\
    (below (length (uvs d)) -> monotone (eachBucketUVsPortion d)) /\
    (below (length bs) -> monotone (eachGeometryBucketPortion d)) /\
    (below (length (decodeMatrices d)) -> monotone (eachGeometryDecodeMatricesPortion d)) /\
    (below (length (textureData d)) -> monotone (eachTextureDataPortion d)) /\
    (below (length (eachMeshId d)) -> monotone (eachObjectMeshesPortion d)) /\
    (below (length (matrices d)) ->
     monotone (take (length (eachMeshId d)) (eachMeshMatricesPortion d))) /\
    (below (length (indices8Bit d)) -> below (length (indices16Bit d)) ->
     below (length (indices32Bit d)) ->
     monotone_per_tier (fun b => is_Some (indices b)) bs (eachBucketIndicesPortion d)) /\
    (below (length (edgeIndices8Bit d)) -> below (length (edgeIndices16Bit d)) ->
     below (length (edgeIndices32Bit d)) ->
     monotone_per_tier (fun b => is_Some (edgeIndices b)) bs (eachBucketEdgeIndicesPortion d)).
Proof.
  intros Hvalid bs below. subst bs below.
  destruct (run_spec m Hvalid) as (st & Hrun & Henc).
  destruct (sizes_spec m (valid_geometries _ Hvalid))
    as [Hb Hp Hc Hu H8 H16 H32 E8 E16 E32 Hmatrices Htex Hdec].
  destruct (enc_geometry _ _ Henc)
    as [_ [_ [_ Ipos] _ [_ Iuvs] [[_ I8] [_ I16] [_ I32] Iip] [[_ J8] [_ J16] [_ J32] Jep]
          Ipp Icp Iup _] _ [_ Idec] _ Ibp Idp _ _].
  destruct (enc_texture _ _ Henc) as [[_ Itex] Itp _ _].
  destruct (enc_object _ _ Henc) as [[_ _ _ _ [_ Imat] _ _ _ Imp _ Hids _ _ _ _] Iop _].
  pose proof (valid_references_meshes _ (valid_objects _ Hvalid)) as Hrefs.
  array_length Henc D_positions. array_length Henc D_uvs.
  array_length Henc D_decodeMatrices. array_length Henc D_textureData.
  array_length Henc D_matrices.
  array_length Henc D_indices8Bit. array_length Henc D_indices16Bit.
  array_length Henc D_indices32Bit. array_length Henc D_edgeIndices8Bit.
  array_length Henc D_edgeIndices16Bit. array_length Henc D_edgeIndices32Bit.
  array_length Henc D_eachBucketPositionsPortion.
  array_length Henc D_eachBucketColorsPortion.
  array_length Henc D_eachBucketUVsPortion.
  array_length Henc D_eachBucketIndicesPortion.
  array_length Henc D_eachBucketEdgeIndicesPortion.
  array_length Henc D_eachGeometryBucketPortion.
  array_length Henc D_eachGeometryDecodeMatricesPortion.
  array_length Henc D_eachTextureDataPortion.
  array_length Henc D_eachObjectMeshesPortion.
  exists (dtxData st). split; [by apply modelToDTX_run|]. split_and!.
  - intros Hbelow.
    rewrite (Written_exact _ _ _ _ Ipp) by (rewrite length_positionsPortion_of; congruence).
    apply history_monotone.
    + intros pre more. rewrite positions_of_app, length_app. lia.
    + rewrite <- Hp. congruence.
  - rewrite (Written_exact _ _ _ _ Icp) by (rewrite length_colorsPortion_of; congruence).
    apply history_monotone.
    + intros pre more. rewrite colors_of_app, length_app. lia.
    + by rewrite (valid_colors _ Hvalid).
  - intros Hbelow.
    rewrite (Written_exact _ _ _ _ Iup) by (rewrite length_uvsPortion_of; congruence).
    apply history_monotone.
    + intros pre more. rewrite uvs_of_app, length_app. lia.
    + rewrite <- Hu. congruence.
  - intros Hbelow.
    rewrite (Written_exact _ _ _ _ Ibp) by (rewrite length_bucketPortion_of; congruence).
    apply history_monotone; [|done].
    intros pre more. unfold buckets_of. rewrite bind_app, length_app. lia.
  - intros Hbelow.
    rewrite (Written_exact _ _ _ _ Idp) by (rewrite length_decodeMatricesPortion_of; congruence).
    apply (history_monotone (fun pre => 16 * length pre)%nat).
    + intros pre more. rewrite length_app. lia.
    + lia.
  - intros Hbelow.
    rewrite (Written_exact _ _ _ _ Itp) by (rewrite length_textureDataPortion_of; congruence).
    apply history_monotone.
    + intros pre more. rewrite textureData_of_app, length_app. lia.
    + rewrite <- Htex. congruence.
  - intros Hbelow. rewrite Hids, length_fmap in Hbelow.
    rewrite (Written_exact _ _ _ _ Iop)
      by (unfold objectMeshesPortion_of; rewrite length_history; congruence).
    apply history_monotone; [|done].
    intros pre more. unfold references. rewrite bind_app, length_app. lia.
  - intros Hbelow. rewrite Hids, length_fmap.
    rewrite <- (length_matricesPortion_of (references (objects m))).
    rewrite (Written_take _ _ _ _ Imp).
    apply (history_monotone (fun pre => 16 * length pre)%nat).
    + intros pre more. rewrite length_app. lia.
    + pose proof (valid_references _ Hvalid). lia.
  - intros B8 B16 B32.
    rewrite (Written_exact _ _ _ _ Iip) by (rewrite length_indicesPortion_of; congruence).
    rewrite (Written_exact _ _ _ _ I8) in B8 by congruence.
    rewrite (Written_exact _ _ _ _ I16) in B16 by congruence.
    rewrite (Written_exact _ _ _ _ I32) in B32 by congruence.
    intros i j b b' x y Hij Hi Hj Ht [? Hib] [? Hib'].
    unfold indicesPortion_of.
    rewrite (history_lookup _ _ _ _ Hi), (history_lookup _ _ _ _ Hj), Hib, Hib', <- Ht.
    intros [= <-] [= <-].
    pose proof (cursor_bounds (fun pre => length (indices_of (tier b) pre))
                  (buckets_of (geometries m)) i j) as Hc'.
    simpl in Hc'. destruct Hc' as [? ?]; [|done|].
    { intros pre more. rewrite indices_of_app, length_app. lia. }
    destruct (tier_cases b) as [Hb'|[Hb'|Hb']]; rewrite Hb' in *; rewrite !portion_small; lia.
  - intros B8 B16 B32.
    rewrite (Written_exact _ _ _ _ Jep) by (rewrite length_edgeIndicesPortion_of; congruence).
    rewrite (Written_exact _ _ _ _ J8) in B8 by congruence.
    rewrite (Written_exact _ _ _ _ J16) in B16 by congruence.
    rewrite (Written_exact _ _ _ _ J32) in B32 by congruence.
    intros i j b b' x y Hij Hi Hj Ht [? Hib] [? Hib'].
    unfold edgeIndicesPortion_of.
    rewrite (history_lookup _ _ _ _ Hi), (history_lookup _ _ _ _ Hj), Hib, Hib', <- Ht.
    intros [= <-] [= <-].
    pose proof (cursor_bounds (fun pre => length (edgeIndices_of (tier b) pre))
                  (buckets_of (geometries m)) i j) as Hc'.
    simpl in Hc'. destruct Hc' as [? ?]; [|done|].
    { intros pre more. rewrite edgeIndices_of_app, length_app. lia. }
    destruct (tier_cases b) as [Hb'|[Hb'|Hb']]; rewrite Hb' in *; rewrite !portion_small; lia.
Qed.

(** ** C4: origins *)

End Claims.

(** * The claims on concrete models *)

Lemma scenario_valid : valid_model scenario.
Proof.
  split.
  - constructor; [|constructor]. split; [reflexivity|].
    constructor; [by eexists|]. constructor; [by eexists|]. constructor.
  - vm_compute. reflexivity.
  - constructor; [|constructor]. repeat (constructor; [reflexivity|]). constructor.
  - simpl. lia.
Qed.

Lemma mixed_tiers_valid : valid_model mixed_tiers_model.
Proof.
  split.
  - constructor; [|constructor]. split; [reflexivity|].
    repeat (constructor; [by eexists|]). constructor.
  - vm_compute. reflexivity.
  - constructor.
  - simpl. lia.
Qed.

Lemma sample_host_distinct :
  NoDup [@TrianglesPrimitive sample_host; @SolidPrimitive sample_host;
         @SurfacePrimitive sample_host; @LinesPrimitive sample_host;
         @PointsPrimitive sample_host].
Proof. by apply (bool_decide_unpack _). Qed.

(** [faithful], decided on a given list of coordinates. *)
Definition faithfulb `{Host} (xs : list float) : bool :=
  forallb (fun x => numeral (Number_toString x)) xs &&
  forallb (fun x =>
    forallb (fun y =>
      implb (String.eqb (Number_toString x) (Number_toString y))
            (PrimFloat.Leibniz.eqb x y)) xs) xs.

Lemma faithfulb_spec `{Host} xs : faithfulb xs = true -> faithful xs.
Proof.
  unfold faithfulb. rewrite andb_true_iff, !forallb_forall. intros [Hnum Hinj]. split.
  - intros x Hx%list_elem_of_In. by apply Hnum.
  - intros x y Hx%list_elem_of_In Hy%list_elem_of_In E.
    specialize (Hinj x Hx). rewrite forallb_forall in Hinj. specialize (Hinj y Hy).
    apply String.eqb_eq in E. rewrite E in Hinj. by apply FloatAxioms.Leibniz.eqb_spec.
Qed.

Lemma scenario_faithful :
  @faithful sample_host (coordinates_of (references (objects scenario))).
Proof. apply faithfulb_spec. vm_compute. reflexivity. Qed.

(** ** Thresholds *)

Example tier_thresholds_binary64 :
  at_most (vertex_count 768) 256 = true /\ (768 / 3 <=? 256)%float = true /\
  at_most (vertex_count 769) 256 = false /\ (769 / 3 <=? 256)%float = false /\
  at_most (vertex_count (Z.to_nat 196608)) 65536 = true /\
  (196608 / 3 <=? 65536)%float = true /\
  at_most (vertex_count (Z.to_nat 196609)) 65536 = false /\
  (196609 / 3 <=? 65536)%float = false.
Proof. vm_compute. by split_and!. Qed.

Example bitness_boundaries :
  bitness (3 * 256) = 0 /\ bitness (3 * 257) = 1 /\
  bitness (Z.to_nat (3 * 65536)) = 1 /\ bitness (Z.to_nat (3 * 65537)) = 2.
Proof. vm_compute. by split_and!. Qed.

(** ** C1 *)

(** C1, on two models. The pre-pass leaves [lenColors] at 0, so a bucket with
    colors makes the fill pass throw a [RangeError]; and on the scenario the
    cursors of [origins] and [eachTextureSetTextures] end at 6 and 4 in
    arrays of 48 and 5 elements. *)
Theorem exact_sizing_fails :
  lenColors (sizes colored_model) = 0%nat /\
  @modelToDTX sample_host colored_model = Throw RangeError /\
  exists st,
    @run sample_host scenario = Normal st /\
    originsIndex st = 6%nat /\ length (origins (dtxData st)) = 48%nat /\
    eachTextureSetTexturesIndex st = 4%nat /\
    length (eachTextureSetTextures (dtxData st)) = 5%nat.
Proof.
  split; [vm_compute; reflexivity|]. split; [vm_compute; reflexivity|].
  eexists. split; [vm_compute; reflexivity|]. vm_compute. by split_and!.
Qed.

(** ** C9 *)

(** C9, in the code. The pre-pass skips a bucket without positions; the fill
    pass reads the length of the absent array and throws a [TypeError], so
    the encoding of a model with such a bucket does not complete. *)
Theorem absent_positions_throw :
  (forall b l, positionsCompressed b = None -> sizeBucket b l = l) /\
  (forall b st, positionsCompressed b = None -> fillBucket b st = Throw TypeError) /\
  lenPositions (sizes no_positions_model) = 0%nat /\
  lenIndices8Bit (sizes no_positions_model) = 0%nat /\
  @modelToDTX sample_host no_positions_model = Throw TypeError.
Proof.
  split_and!.
  - intros b l Hb. unfold sizeBucket. by rewrite Hb.
  - intros b st Hb. unfold fillBucket. by rewrite Hb.
  - vm_compute. reflexivity.
  - vm_compute. reflexivity.
  - vm_compute. reflexivity.
Qed.

(** ** C6 *)

(** C6, in the code. The array is allocated with five slots per texture set,
    for the five textures its comment lists; the fill loop writes four slots
    per texture set, at [4i .. 4i+3], and its cursor ends at four times the
    number of texture sets. So the array has neither the length
    [numTextureSets * 4], nor records at the stride 5 of its allocation, and
    its last [numTextureSets] slots are never written. On the scenario, with
    one texture set, the array holds [0; -1; -1; -1; 0]. *)
Theorem textureSet_stride_mismatch :
  (forall (host : Host) m,
     valid_model m ->
     exists st,
       run m = Normal st /\
       length (eachTextureSetTextures (dtxData st)) = (length (textureSets m) * 5)%nat /\
       eachTextureSetTexturesIndex st = (4 * length (textureSets m))%nat /\
       (forall i ts k texture,
          textureSets m !! i = Some ts ->
          [colorTexture ts; metallicRoughnessTexture ts; emissiveTexture ts;
           occlusionTexture ts] !! k = Some texture ->
          eachTextureSetTextures (dtxData st) !! (4 * i + k)%nat =
          Some (wrap_signed 32 (textureSlot st texture))) /\
       (forall j,
          (4 * length (textureSets m) <= j < 5 * length (textureSets m))%nat ->
          eachTextureSetTextures (dtxData st) !! j = Some 0)) /\
  exists d,
    @modelToDTX sample_host scenario = Normal d /\
    length (textureSets scenario) = 1%nat /\
    length (eachTextureSetTextures d) = 5%nat /\
    eachTextureSetTextures d = [0; -1; -1; -1; 0].
Proof.
  split.
  - intros host m Hvalid.
    destruct (textureSet_slots m Hvalid) as (st & Hrun & Hlen & Hindex & Hslot & Hrest).
    destruct (run_spec m Hvalid) as (st' & Hrun' & Henc).
    rewrite Hrun in Hrun'. injection Hrun' as <-.
    exists st. split_and!; try done.
    intros i ts k texture Hts Hk. rewrite (Hslot i ts k texture Hts Hk).
    unfold textureSlot. by rewrite (tsi_textures _ _ _ _ (enc_textureSet _ _ Henc)).
  - eexists. split; [vm_compute; reflexivity|]. vm_compute. by split_and!.
Qed.

(** ** Counterexamples *)

(** C3 fails on the scenario: the opacity 1.2 of the first mesh is stored as
    306 mod 256 = 50, not 255, and the opacity 0.5 of the second as 127, not
    round(127.5) = 128. *)
Lemma opacity_wraps :
  exists d,
    @modelToDTX sample_host scenario = Normal d /\
    opacity <$> (references (objects scenario) !! 0%nat) = Some 1.2%float /\
    eachMeshMaterialAttributes d !! 3%nat = Some 50 /\
    opacity <$> (references (objects scenario) !! 1%nat) = Some 0.5%float /\
    eachMeshMaterialAttributes d !! 9%nat = Some 127.
Proof.
  eexists. split; [vm_compute; reflexivity|]. vm_compute. by split_and!.
Qed.

(** C5 fails on a geometry whose primitive is none of the five constants:
    the encoder returns a payload, with code 0 for that geometry. *)
Lemma unknown_primitive_encodes :
  exists d,
    @modelToDTX sample_host unknown_primitive_model = Normal d /\
    primitive <$> geometries unknown_primitive_model = [12345] /\
    @primitiveType_of sample_host 12345 = None /\
    eachGeometryPrimitiveType d = [0].
Proof.
  eexists. split; [vm_compute; reflexivity|]. vm_compute. by split_and!.
Qed.



(** C7 fails on two 8-bit buckets followed by a 16-bit one, all with
    indices: the recorded portions are 0, 3, 0. *)
Lemma indices_portion_decreases :
  exists d,
    @modelToDTX sample_host mixed_tiers_model = Normal d /\
    eachBucketIndicesPortion d = [0; 3; 0] /\
    ~ monotone (eachBucketIndicesPortion d).
Proof.
  eexists. split; [vm_compute; reflexivity|].
  assert (forall l, l = [0; 3; 0] -> ~ monotone l) as Hl.
  { intros l -> Hm. specialize (Hm 1%nat 2%nat 3 0 ltac:(lia) eq_refl eq_refl). lia. }
  split; [vm_compute; reflexivity|]. apply Hl. vm_compute. reflexivity.
Qed.

(** C10 fails on a model with one mesh that two objects refer to: the second
    reference does not fit the arrays, and the fill pass throws. *)
Lemma shared_mesh_throws :
  length (meshes shared_mesh_model) = 1%nat /\
  length (references (objects shared_mesh_model)) = 2%nat /\
  @modelToDTX sample_host shared_mesh_model = Throw RangeError.
Proof. vm_compute. by split_and!. Qed.

Lemma spare_mesh_valid : valid_model spare_mesh_model.
Proof.
  split.
  - constructor; [|constructor]. split; [reflexivity|].
    repeat (constructor; [by eexists|]). constructor.
  - vm_compute. reflexivity.
  - repeat (constructor; [repeat (constructor; [reflexivity|]); constructor|]). constructor.
  - simpl. lia.
Qed.

(** The lengths of some arrays of the scenario's payload. *)
Lemma scenario_lengths :
  exists d,
    @modelToDTX sample_host scenario = Normal d /\
    length (positions d) = 801%nat /\
    length (indices8Bit d) = 3%nat /\ length (indices16Bit d) = 3%nat /\
    length (indices32Bit d) = 0%nat.
Proof. eexists. split; [vm_compute; reflexivity|]. vm_compute. by split_and!. Qed.

(** ** The theorems at the scenario *)

Lemma index_tiering_witness :
  valid_model scenario /\
  exists d,
    @modelToDTX sample_host scenario = Normal d /\
    eachBucketIndicesBitness d = [0; 1] /\
    indices8Bit d = [0; 1; 2] /\ indices16Bit d = [0; 1; 256] /\ indices32Bit d = [].
Proof.
  split; [exact scenario_valid|].
  destruct (@index_tiering sample_host scenario scenario_valid)
    as (d & Hd & Hbit & H8 & H16 & H32 & _).
  exists d. split; [exact Hd|]. rewrite Hbit, H8, H16, H32. vm_compute. by split_and!.
Defined.

Lemma material_attributes_witness :
  valid_model scenario /\
  exists d,
    @modelToDTX sample_host scenario = Normal d /\
    eachMeshMaterialAttributes d !! 3%nat = Some 50.
Proof.
  split; [exact scenario_valid|].
  destruct (@material_attributes sample_host scenario scenario_valid) as (d & Hd & H).
  exists d. split; [exact Hd|].
  destruct (H 0%nat _ 3%nat 1.2%float eq_refl eq_refl) as [Hbyte _].
  etrans; [exact Hbyte|]. vm_compute. reflexivity.
Defined.


Lemma primitive_codes_witness :
  valid_model scenario /\
  exists d,
    @modelToDTX sample_host scenario = Normal d /\
    eachGeometryPrimitiveType d !! 0%nat = Some 0.
Proof.
  split; [exact scenario_valid|].
  destruct (@primitive_codes sample_host scenario scenario_valid sample_host_distinct)
    as (d & Hd & H).
  exists d. split; [exact Hd|].
  destruct (H 0%nat _ eq_refl) as (code & -> & Htriangles & _).
  f_equal. apply Htriangles. reflexivity.
Defined.

Lemma portions_monotone_witness :
  valid_model scenario /\
  exists d,
    @modelToDTX sample_host scenario = Normal d /\
    monotone (eachBucketPositionsPortion d) /\
    monotone_per_tier (fun b => is_Some (indices b))
      (buckets_of (geometries scenario)) (eachBucketIndicesPortion d).
Proof.
  split; [exact scenario_valid|].
  destruct (@portions_monotone sample_host scenario scenario_valid)
    as (d & Hd & Hpositions & _ & _ & _ & _ & _ & _ & _ & Hindices & _).
  destruct scenario_lengths as (d' & Hd' & Lp & L8 & L16 & L32).
  rewrite Hd in Hd'. injection Hd' as <-.
  exists d. split_and!; [exact Hd| |].
  - apply Hpositions. rewrite Lp. reflexivity.
  - apply Hindices; [rewrite L8|rewrite L16|rewrite L32]; reflexivity.
Defined.


Lemma mesh_records_witness :
  Forall valid_geometry (geometries spare_mesh_model) /\
  colors_of (buckets_of (geometries spare_mesh_model)) = [] /\
  Forall valid_object (objects spare_mesh_model) /\
  exists st,
    @run sample_host spare_mesh_model = Normal st /\
    countMeshes st = 2%nat /\
    eachMeshId (dtxData st) = [Some "m"; Some "m"] /\
    length (eachMeshMatricesPortion (dtxData st)) = 3%nat /\
    eachMeshMatricesPortion (dtxData st) !! 2%nat = Some 0.
Proof.
  destruct spare_mesh_valid as [Hgs Hcolors Hos Hrefs].
  split_and!; [exact Hgs|exact Hcolors|exact Hos|].
  destruct (@mesh_records sample_host spare_mesh_model Hgs Hcolors Hos) as [Hfits _].
  destruct (Hfits Hrefs)
    as (st & Hrun & _ & Hcount & Hids & _ & _ & Hlen & _ & _ & _ & _ & Hrest).
  exists st. split_and!; [exact Hrun|exact Hcount|exact Hids|exact Hlen|].
  destruct (Hrest 2%nat) as (_ & Hzero & _); [simpl; lia|exact Hzero].
Defined.

(** * Further properties of the encoder *)

(** ** How a portion array cuts its target into segments

    [segments portions target entities content]: there is one portion per
    entity; the portion of an entity is the offset, in [target], of the
    entity's content; and the content ends where the next portion starts, or
    at the end of [target] for the last entity. *)
Definition segments {A B} (portions : list Z) (target : list B) (entities : list A)
    (content : A -> list B) : Prop :=
  length portions = length entities /\
  forall i a,
    entities !! i = Some a ->
    exists p : nat,
      portions !! i = Some (Z.of_nat p) /\
      take (length (content a)) (drop p target) = content a /\
      (portions ++ [Z.of_nat (length target)]) !! S i = Some (Z.of_nat (p + length (content a))).

Lemma bind_segment {A B} (f : A -> list B) l i a :
  l !! i = Some a ->
  take (length (f a)) (drop (length (take i l ≫= f)) (l ≫= f)) = f a.
Proof.
  intros Hi. rewrite <- (take_drop_middle _ _ _ Hi) at 2.
  rewrite bind_app, bind_cons, drop_app_length, take_app_length. done.
Qed.

Lemma bind_take_S {A B} (f : A -> list B) l i a :
  l !! i = Some a ->
  length (take (S i) l ≫= f) = (length (take i l ≫= f) + length (f a))%nat.
Proof.
  intros Hi. rewrite (take_S_r _ _ _ Hi), bind_app, length_app. simpl.
  by rewrite app_nil_r.
Qed.

Lemma bind_take_length {A B} (f : A -> list B) l i :
  (length (take i l ≫= f) <= length (l ≫= f))%nat.
Proof.
  rewrite <- (take_drop i l) at 2. rewrite bind_app, length_app. lia.
Qed.

(** The history of a cursor that counts the content written so far cuts the
    concatenated contents into the contents of the entities. *)
Lemma history_segments {A B} (content : A -> list B) (cursor : list A -> nat)
    (entities : list A) :
  (forall i, cursor (take i entities) = length (take i entities ≫= content)) ->
  Z.of_nat (length (entities ≫= content)) < 2 ^ 32 ->
  segments (history (fun pre _ => portion (cursor pre)) entities)
    (entities ≫= content) entities content.
Proof.
  intros Hcursor Hbound. split; [apply length_history|].
  intros i a Hi. exists (length (take i entities ≫= content)).
  pose proof (bind_take_length content entities i).
  pose proof (bind_take_length content entities (S i)) as HS.
  rewrite (bind_take_S _ _ _ _ Hi) in HS.
  split_and!.
  - rewrite (history_lookup _ _ _ _ Hi), Hcursor. f_equal. apply portion_small. lia.
  - by apply bind_segment.
  - destruct (entities !! S i) as [b|] eqn:Hb.
    + rewrite lookup_app_l by (rewrite length_history; by eapply lookup_lt_Some).
      rewrite (history_lookup _ _ _ _ Hb), Hcursor, (bind_take_S _ _ _ _ Hi).
      f_equal. apply portion_small. lia.
    + apply lookup_ge_None in Hb. pose proof (lookup_lt_Some _ _ _ Hi).
      rewrite lookup_app_r by (rewrite length_history; lia).
      rewrite length_history. replace (S i - length entities)%nat with 0%nat by lia.
      simpl. do 2 f_equal. rewrite <- (bind_take_S _ _ _ _ Hi).
      by rewrite take_ge by lia.
Qed.

Lemma length_bind_fmap {A B C} (f : B -> C) (g : A -> list B) l :
  length (l ≫= fun a => f <$> g a) = length (l ≫= g).
Proof.
  induction l as [|a l IH]; [done|]. rewrite !bind_cons, !length_app, length_fmap. lia.
Qed.

Lemma fmap_bind_list {A B C} (f : B -> C) (g : A -> list B) l :
  f <$> (l ≫= g) = l ≫= fun a => f <$> g a.
Proof. induction l as [|a l IH]; [done|]. by rewrite !bind_cons, fmap_app, IH. Qed.

Lemma length_bind_const {A B} (f : A -> list B) n l :
  Forall (fun a => length (f a) = n) l -> length (l ≫= f) = (n * length l)%nat.
Proof.
  induction 1 as [|a l Ha _ IH]; [simpl; lia|]. rewrite bind_cons, length_app, Ha, IH.
  simpl. lia.
Qed.

(** The array the bitness tag [t] of a bucket names. *)
Definition index_array (d : DTXData) (t : Z) : list Z :=
  match t with
  | 0 => indices8Bit d
  | 1 => indices16Bit d
  | _ => indices32Bit d
  end.

Definition edge_index_array (d : DTXData) (t : Z) : list Z :=
  match t with
  | 0 => edgeIndices8Bit d
  | 1 => edgeIndices16Bit d
  | _ => edgeIndices32Bit d
  end.

(** Every index in [l] is the number of a vertex of the bucket [b]. *)
Definition addresses (b : GeometryBucket) (l : list Z) : Prop :=
  Forall (fun index =>
            0 <= index /\ 3 * index < Z.of_nat (length (elements (positionsCompressed b)))) l.

(** An index of a vertex fits the width of the tier of its bucket. *)
Lemma addresses_fit b l :
  Z.of_nat (length (elements (positionsCompressed b))) < 2 ^ 32 ->
  addresses b l -> wrap (tier_width (tier b)) <$> l = l.
Proof.
  intros Hbound Hl. rewrite <- (list_fmap_id l) at 2. apply Forall_fmap_ext_1.
  eapply Forall_impl; [exact Hl|]. intros index [H0 Hindex]. simpl.
  apply wrap_small. split; [done|].
  destruct (tier_spec b) as (T0 & T1 & T2). unfold vertex_count, Qle, Qlt in *. simpl in *.
  destruct (tier_cases b) as [Ht|[Ht|Ht]]; rewrite Ht; simpl.
  - apply T0 in Ht. lia.
  - apply T1 in Ht. lia.
  - lia.
Qed.

Lemma tier_segment {B} (f : GeometryBucket -> list B) bs i b :
  bs !! i = Some b ->
  let content := fun b' => in_tier (tier b) b' (f b') in
  take (length (f b)) (drop (length (take i bs ≫= content)) (bs ≫= content)) = f b.
Proof.
  intros Hi content. pose proof (bind_segment content bs i b Hi) as H.
  assert (content b = f b) as E by (unfold content; by rewrite in_tier_eq).
  by rewrite E in H.
Qed.

(** *** Index dictionaries, continued *)


Lemma index_value_small (table : gmap string nat) id k (w : Z) :
  table !! id = Some k -> Z.of_nat k < 2 ^ (w - 1) -> 0 < w ->
  wrap w (index_value (table !! id)) = Z.of_nat k /\
  wrap_signed w (index_value (table !! id)) = Z.of_nat k.
Proof.
  intros -> Hk Hw. simpl.
  assert (2 ^ w = 2 * 2 ^ (w - 1)) as E
    by (rewrite <- Z.pow_succ_r by lia; f_equal; lia).
  split.
  - apply wrap_small. lia.
  - unfold wrap_signed. rewrite Z.mod_small; lia.
Qed.

(** *** Loops that complete *)

(** When a loop completes, its body completed on every element, from a
    state that a relation the steps keep links to the first one. *)
Lemma for_each_reaches {A St} (body : A -> St -> Completion St) (R : St -> St -> Prop) :
  (forall s, R s s) ->
  (forall s1 s2 s3, R s1 s2 -> R s2 s3 -> R s1 s3) ->
  (forall a s s', body a s = Normal s' -> R s s') ->
  forall l s s' a,
    for_each body l s = Normal s' -> a ∈ l ->
    exists s1 s2, R s s1 /\ body a s1 = Normal s2.
Proof.
  intros Hrefl Htrans Hstep l. induction l as [|b l IH]; intros s s' a Hl Hin.
  - by apply elem_of_nil in Hin.
  - simpl in Hl. apply bind_Normal in Hl as (s1 & Hb & Hl).
    apply elem_of_cons in Hin as [->|Hin].
    + exists s, s1. split; [apply Hrefl|done].
    + destruct (IH _ _ _ Hl Hin) as (s2 & s3 & HR & Ha).
      exists s2, s3. split; [|done]. eapply Htrans; [|exact HR]. by eapply Hstep.
Qed.

(** The element at a position of a concatenation, located in its part. *)
(** *** The pre-pass and colors *)

Lemma sizeBucket_lenColors b l : lenColors (sizeBucket b l) = lenColors l.
Proof. unfold sizeBucket. by repeat case_match. Qed.

Lemma sizeBuckets_lenColors bs l :
  lenColors (foldl (fun l b => sizeBucket b l) l bs) = lenColors l.
Proof.
  revert l. induction bs as [|b bs IH]; intros l; simpl; [done|].
  by rewrite IH, sizeBucket_lenColors.
Qed.

Lemma sizeGeometries_lenColors gs l :
  lenColors (foldl (fun l g => sizeGeometry g l) l gs) = lenColors l.
Proof.
  revert l. induction gs as [|g gs IH]; intros l; simpl; [done|].
  rewrite IH. unfold sizeGeometry. by rewrite sizeBuckets_lenColors.
Qed.

Lemma sizeTextures_lenColors ts l :
  lenColors (foldl (fun l t => sizeTexture t l) l ts) = lenColors l.
Proof. revert l. induction ts as [|t ts IH]; intros l; simpl; [done|]. by rewrite IH. Qed.

#[local] Transparent sizes.

(** The pre-pass counts no colors, whatever the model. *)
Lemma lenColors_sizes m : lenColors (sizes m) = 0%nat.
Proof.
  unfold sizes. simpl. by rewrite sizeTextures_lenColors, sizeGeometries_lenColors.
Qed.

(** The pre-pass reads the meshes of the model only to count them. *)
Lemma sizes_meshes gs ts tss ms ms' os :
  length ms = length ms' ->
  sizes (Build_SceneModel gs ts tss ms os) = sizes (Build_SceneModel gs ts tss ms' os).
Proof. intros Hlen. unfold sizes. simpl. by rewrite Hlen. Qed.

#[local] Opaque sizes.

Section Extras.
Context {host : Host}.

(** ** Buckets *)

(** X1. For every model the encoder accepts, [eachBucketPositionsPortion]
    cuts [positions] into the positions of the buckets, reduced modulo 2^16,
    and [eachBucketUVsPortion] cuts [uvs] into the uvs of the buckets,
    rounded to single precision: the data of bucket [i] starts at its
    portion and ends at the portion of bucket [i + 1], or at the end of the
    array (the arrays having fewer than 2^32 elements). *)
Theorem bucket_data_segments m :
  valid_model m ->
  let bs := buckets_of (geometries m) in
  exists d,
    modelToDTX m = Normal d /\
    (Z.of_nat (length (positions d)) < 2 ^ 32 ->
     segments (eachBucketPositionsPortion d) (positions d) bs
       (fun b => wrap 16 <$> elements (positionsCompressed b))) /\
    (Z.of_nat (length (uvs d)) < 2 ^ 32 ->
     segments (eachBucketUVsPortion d) (uvs d) bs
       (fun b => fround <$> elements (uvsCompressed b))).
Proof.
  intros Hvalid bs. subst bs. destruct (run_spec m Hvalid) as (st & Hrun & Henc).
  destruct (sizes_spec m (valid_geometries _ Hvalid)) as [Hb Hp _ Hu _ _ _ _ _ _ _ _ _].
  destruct (enc_geometry _ _ Henc) as [_ [_ [_ Ipos] _ [_ Iuvs] _ _ Ipp _ Iup _] _ _ _ _ _ _ _].
  array_length Henc D_positions. array_length Henc D_uvs.
  array_length Henc D_eachBucketPositionsPortion. array_length Henc D_eachBucketUVsPortion.
  exists (dtxData st). split; [by apply modelToDTX_run|].
  rewrite (Written_exact _ _ _ _ Ipos) by congruence.
  rewrite (Written_exact _ _ _ _ Iuvs) by congruence.
  rewrite (Written_exact _ _ _ _ Ipp) by (rewrite length_positionsPortion_of; congruence).
  rewrite (Written_exact _ _ _ _ Iup) by (rewrite length_uvsPortion_of; congruence).
  split; intros Hbound; by apply history_segments.
Qed.

(** X5. For every model the encoder accepts, a bucket that carries indices
    has them in the payload: its bitness tag names one of the three
    index arrays, and that array holds, from the indices portion of the
    bucket on, as many elements as the bucket has indices, each the
    corresponding one reduced modulo 2^8, 2^16 or 2^32, and unreduced where
    every one is the number of a vertex of the bucket (fewer than 2^32
    elements in the positions array and in each of the three arrays). Which
    buckets carry indices, and how many, is taken from the model: the
    payload records neither, and a bucket that carries none has the portion
    0, which the fill pass never writes. *)
Theorem index_data_segments m :
  valid_model m ->
  let bs := buckets_of (geometries m) in
  exists d,
    modelToDTX m = Normal d /\
    (forall i b,
       bs !! i = Some b -> indices b = None -> eachBucketIndicesPortion d !! i = Some 0) /\
    (Z.of_nat (length (positions d)) < 2 ^ 32 ->
     Z.of_nat (length (indices8Bit d)) < 2 ^ 32 ->
     Z.of_nat (length (indices16Bit d)) < 2 ^ 32 ->
     Z.of_nat (length (indices32Bit d)) < 2 ^ 32 ->
     forall i b l,
       bs !! i = Some b -> indices b = Some l ->
       exists t (p : nat),
         eachBucketIndicesBitness d !! i = Some t /\
         eachBucketIndicesPortion d !! i = Some (Z.of_nat p) /\
         take (length l) (drop p (index_array d t)) = wrap (tier_width t) <$> l /\
         (addresses b l -> take (length l) (drop p (index_array d t)) = l)).
Proof.
  intros Hvalid bs. subst bs. destruct (run_spec m Hvalid) as (st & Hrun & Henc).
  destruct (sizes_spec m (valid_geometries _ Hvalid))
    as [Hb Hp _ _ H8 H16 H32 _ _ _ _ _ _].
  destruct (enc_geometry _ _ Henc)
    as [_ [_ [_ Ipos] _ _ [[_ I8] [_ I16] [_ I32] Iip] _ _ _ _ Ibit] _ _ _ _ _ _ _].
  array_length Henc D_positions.
  array_length Henc D_indices8Bit. array_length Henc D_indices16Bit.
  array_length Henc D_indices32Bit. array_length Henc D_eachBucketIndicesPortion.
  array_length Henc D_eachBucketIndicesBitness.
  exists (dtxData st). split; [by apply modelToDTX_run|].
  unfold index_array.
  rewrite (Written_exact _ _ _ _ Ipos) by congruence.
  rewrite (Written_exact _ _ _ _ I8) by congruence.
  rewrite (Written_exact _ _ _ _ I16) by congruence.
  rewrite (Written_exact _ _ _ _ I32) by congruence.
  rewrite (Written_exact _ _ _ _ Iip) by (rewrite length_indicesPortion_of; congruence).
  rewrite (Written_exact _ _ _ _ Ibit) by (rewrite length_bitness_of; congruence).
  split.
  { intros i b Hi Hnone. unfold indicesPortion_of.
    by rewrite (history_lookup _ _ _ _ Hi), Hnone. }
  intros Bp B8 B16 B32 i b l Hi Hl.
  set (bs := buckets_of (geometries m)) in *.
  exists (tier b), (length (indices_of (tier b) (take i bs))).
  assert (length (indices_of (tier b) (take i bs)) <= length (indices_of (tier b) bs))%nat
    as Hle by apply bind_take_length.
  assert (take (length l) (drop (length (indices_of (tier b) (take i bs)))
                             (indices_of (tier b) bs)) =
          wrap (tier_width (tier b)) <$> l) as Hsegment.
  { pose proof (tier_segment (fun b' => wrap (tier_width (tier b)) <$> elements (indices b'))
                  bs i b Hi) as H.
    simpl in H. rewrite Hl, length_fmap in H. exact H. }
  assert (Z.of_nat (length (elements (positionsCompressed b))) < 2 ^ 32) as Hsmall.
  { pose proof (bind_take_S (fun b => wrap 16 <$> elements (positionsCompressed b)) bs i b Hi) as HS.
    pose proof (bind_take_length (fun b => wrap 16 <$> elements (positionsCompressed b))
                  bs (S i)) as HT.
    rewrite HS, length_fmap in HT. unfold positions_of in Bp. lia. }
  split_and!.
  - unfold bitness_of. rewrite list_lookup_fmap, Hi. simpl. by rewrite wrap_tier.
  - unfold indicesPortion_of. rewrite (history_lookup _ _ _ _ Hi), Hl. f_equal.
    apply portion_small.
    destruct (tier_cases b) as [Ht|[Ht|Ht]]; rewrite Ht in *; lia.
  - destruct (tier_cases b) as [Ht|[Ht|Ht]]; rewrite Ht in *; exact Hsegment.
  - intros Haddr. rewrite <- (addresses_fit b l Hsmall Haddr) at 2.
    destruct (tier_cases b) as [Ht|[Ht|Ht]]; rewrite Ht in *; exact Hsegment.
Qed.

(** X6. For every model the encoder accepts, a bucket that carries edge indices
    has them in the payload: its bitness tag names one of the three
    edge-index arrays, and that array holds, from the edge indices portion of the
    bucket on, as many elements as the bucket has edge indices, each the
    corresponding one reduced modulo 2^8, 2^16 or 2^32, and unreduced where
    every one is the number of a vertex of the bucket (fewer than 2^32
    elements in the positions array and in each of the three arrays). Which
    buckets carry edge indices, and how many, is taken from the model: the
    payload records neither, and a bucket that carries none has the portion
    0, which the fill pass never writes. *)
Theorem edge_index_data_segments m :
  valid_model m ->
  let bs := buckets_of (geometries m) in
  exists d,
    modelToDTX m = Normal d /\
    (forall i b,
       bs !! i = Some b -> edgeIndices b = None -> eachBucketEdgeIndicesPortion d !! i = Some 0) /\
    (Z.of_nat (length (positions d)) < 2 ^ 32 ->
     Z.of_nat (length (edgeIndices8Bit d)) < 2 ^ 32 ->
     Z.of_nat (length (edgeIndices16Bit d)) < 2 ^ 32 ->
     Z.of_nat (length (edgeIndices32Bit d)) < 2 ^ 32 ->
     forall i b l,
       bs !! i = Some b -> edgeIndices b = Some l ->
       exists t (p : nat),
         eachBucketIndicesBitness d !! i = Some t /\
         eachBucketEdgeIndicesPortion d !! i = Some (Z.of_nat p) /\
         take (length l) (drop p (edge_index_array d t)) = wrap (tier_width t) <$> l /\
         (addresses b l -> take (length l) (drop p (edge_index_array d t)) = l)).
Proof.
  intros Hvalid bs. subst bs. destruct (run_spec m Hvalid) as (st & Hrun & Henc).
  destruct (sizes_spec m (valid_geometries _ Hvalid))
    as [Hb Hp _ _ _ _ _ H8 H16 H32 _ _ _].
  destruct (enc_geometry _ _ Henc)
    as [_ [_ [_ Ipos] _ _ _ [[_ I8] [_ I16] [_ I32] Iip] _ _ _ Ibit] _ _ _ _ _ _ _].
  array_length Henc D_positions.
  array_length Henc D_edgeIndices8Bit. array_length Henc D_edgeIndices16Bit.
  array_length Henc D_edgeIndices32Bit. array_length Henc D_eachBucketEdgeIndicesPortion.
  array_length Henc D_eachBucketIndicesBitness.
  exists (dtxData st). split; [by apply modelToDTX_run|].
  unfold edge_index_array.
  rewrite (Written_exact _ _ _ _ Ipos) by congruence.
  rewrite (Written_exact _ _ _ _ I8) by congruence.
  rewrite (Written_exact _ _ _ _ I16) by congruence.
  rewrite (Written_exact _ _ _ _ I32) by congruence.
  rewrite (Written_exact _ _ _ _ Iip) by (rewrite length_edgeIndicesPortion_of; congruence).
  rewrite (Written_exact _ _ _ _ Ibit) by (rewrite length_bitness_of; congruence).
  split.
  { intros i b Hi Hnone. unfold edgeIndicesPortion_of.
    by rewrite (history_lookup _ _ _ _ Hi), Hnone. }
  intros Bp B8 B16 B32 i b l Hi Hl.
  set (bs := buckets_of (geometries m)) in *.
  exists (tier b), (length (edgeIndices_of (tier b) (take i bs))).
  assert (length (edgeIndices_of (tier b) (take i bs)) <= length (edgeIndices_of (tier b) bs))%nat
    as Hle by apply bind_take_length.
  assert (take (length l) (drop (length (edgeIndices_of (tier b) (take i bs)))
                             (edgeIndices_of (tier b) bs)) =
          wrap (tier_width (tier b)) <$> l) as Hsegment.
  { pose proof (tier_segment (fun b' => wrap (tier_width (tier b)) <$> elements (edgeIndices b'))
                  bs i b Hi) as H.
    simpl in H. rewrite Hl, length_fmap in H. exact H. }
  assert (Z.of_nat (length (elements (positionsCompressed b))) < 2 ^ 32) as Hsmall.
  { pose proof (bind_take_S (fun b => wrap 16 <$> elements (positionsCompressed b)) bs i b Hi) as HS.
    pose proof (bind_take_length (fun b => wrap 16 <$> elements (positionsCompressed b))
                  bs (S i)) as HT.
    rewrite HS, length_fmap in HT. unfold positions_of in Bp. lia. }
  split_and!.
  - unfold bitness_of. rewrite list_lookup_fmap, Hi. simpl. by rewrite wrap_tier.
  - unfold edgeIndicesPortion_of. rewrite (history_lookup _ _ _ _ Hi), Hl. f_equal.
    apply portion_small.
    destruct (tier_cases b) as [Ht|[Ht|Ht]]; rewrite Ht in *; lia.
  - destruct (tier_cases b) as [Ht|[Ht|Ht]]; rewrite Ht in *; exact Hsegment.
  - intros Haddr. rewrite <- (addresses_fit b l Hsmall Haddr) at 2.
    destruct (tier_cases b) as [Ht|[Ht|Ht]]; rewrite Ht in *; exact Hsegment.
Qed.

(** ** Geometries *)

(** X2. For every model the encoder accepts, [eachGeometryBucketPortion]
    cuts the sequence of all buckets, in encoding order, into the buckets of
    the geometries, and [eachGeometryDecodeMatricesPortion] cuts
    [decodeMatrices] into the decompression matrices of the geometries,
    rounded to single precision (fewer than 2^32 buckets and matrix
    elements). *)
Theorem geometry_segments m :
  valid_model m ->
  let bs := buckets_of (geometries m) in
  exists d,
    modelToDTX m = Normal d /\
    (Z.of_nat (length bs) < 2 ^ 32 ->
     segments (eachGeometryBucketPortion d) bs (geometries m) geometryBuckets) /\
    (Z.of_nat (length (decodeMatrices d)) < 2 ^ 32 ->
     segments (eachGeometryDecodeMatricesPortion d) (decodeMatrices d) (geometries m)
       (fun g => fround <$> positionsDecompressMatrix g)).
Proof.
  intros Hvalid bs. subst bs. destruct (run_spec m Hvalid) as (st & Hrun & Henc).
  destruct (sizes_spec m (valid_geometries _ Hvalid)) as [Hb _ _ _ _ _ _ _ _ _ _ _ Hdec].
  destruct (enc_geometry _ _ Henc) as [_ _ _ [_ Idec] _ Ibp Idp _ _].
  array_length Henc D_decodeMatrices.
  array_length Henc D_eachGeometryBucketPortion.
  array_length Henc D_eachGeometryDecodeMatricesPortion.
  pose proof (valid_geometries _ Hvalid) as Hgs.
  assert (Forall (fun g => length (fround <$> positionsDecompressMatrix g) = 16%nat)
            (geometries m)) as H16.
  { eapply Forall_impl; [exact Hgs|]. intros g [Hg _]. by rewrite length_fmap. }
  exists (dtxData st). split; [by apply modelToDTX_run|].
  rewrite (Written_exact _ _ _ _ Idec)
    by (rewrite length_decodeMatrices_of by done; lia).
  rewrite (Written_exact _ _ _ _ Ibp) by (rewrite length_bucketPortion_of; congruence).
  rewrite (Written_exact _ _ _ _ Idp)
    by (rewrite length_decodeMatricesPortion_of; congruence).
  split; intros Hbound.
  - by apply history_segments.
  - apply (history_segments _ (fun pre => 16 * length pre)%nat); [|done].
    intros i. symmetry. apply length_bind_const. by apply Forall_take.
Qed.

(** ** Textures *)

(** X3. For every model the encoder accepts, [eachTextureDataPortion] cuts
    [textureData] into one segment per texture, of as many bytes as the
    [byteLength] of its image data: the segment starts with the elements of
    the image data, one per byte, each reduced modulo 256, and the bytes of
    the segment that no element reaches (an image data of wider elements has
    fewer elements than bytes) are 0 (fewer than 2^32 bytes). *)
Theorem texture_data_segments m :
  valid_model m ->
  exists d,
    modelToDTX m = Normal d /\
    (Z.of_nat (length (textureData d)) < 2 ^ 32 ->
     segments (eachTextureDataPortion d) (textureData d) (textures m)
       (fun t =>
          (wrap 8 <$> values (imageData t)) ++
          replicate (byteLength (imageData t) - length (values (imageData t))) 0)).
Proof.
  intros Hvalid. destruct (run_spec m Hvalid) as (st & Hrun & Henc).
  destruct (sizes_spec m (valid_geometries _ Hvalid)) as [_ _ _ _ _ _ _ _ _ _ _ Htex _].
  destruct (enc_texture _ _ Henc) as [[_ Itex] Itp _ _].
  array_length Henc D_textureData. array_length Henc D_eachTextureDataPortion.
  exists (dtxData st). split; [by apply modelToDTX_run|].
  rewrite (Written_exact _ _ _ _ Itex) by congruence.
  rewrite (Written_exact _ _ _ _ Itp) by (rewrite length_textureDataPortion_of; congruence).
  intros Hbound. by apply (history_segments textureBytes).
Qed.

(** X7. For every model the encoder accepts, the nine attributes of texture
    [i] are at [9 i .. 9 i + 8] of [eachTextureAttributes], reduced modulo
    2^16: the compressed flag as 1 or 0, the media type or 0, the width, the
    height, the minification and magnification filters, where an absent or
    zero filter is stored as [LinearMipmapLinearFilter], and the three wrap
    modes, where an absent or zero mode is stored as [ClampToEdgeWrapping]. *)
Theorem texture_attributes m :
  valid_model m ->
  exists d,
    modelToDTX m = Normal d /\
    length (eachTextureAttributes d) = (9 * length (textures m))%nat /\
    forall i t,
      textures m !! i = Some t ->
      take 9 (drop (9 * i) (eachTextureAttributes d)) =
      wrap 16 <$>
        [if compressed t then 1 else 0;
         or_default (mediaType t) 0;
         width t;
         height t;
         or_default (minFilter t) LinearMipmapLinearFilter;
         or_default (magFilter t) LinearMipmapLinearFilter;
         or_default (wrapS t) ClampToEdgeWrapping;
         or_default (wrapT t) ClampToEdgeWrapping;
         or_default (wrapR t) ClampToEdgeWrapping].
Proof.
  intros Hvalid. destruct (run_spec m Hvalid) as (st & Hrun & Henc).
  destruct (enc_texture _ _ Henc) as [_ _ Iatt _].
  array_length Henc D_eachTextureAttributes. change NUM_TEXTURE_ATTRIBUTES with 9%nat in *.
  assert (forall ts, Forall (fun t => length (textureAttributes t) = 9%nat) ts) as H9
    by (intros ts; by apply Forall_forall).
  exists (dtxData st). split; [by apply modelToDTX_run|]. split; [lia|].
  rewrite (Written_exact _ _ _ _ Iatt)
    by (unfold textureAttributes_of; rewrite (length_bind_const _ 9) by done; lia).
  intros i t Hi. pose proof (bind_segment textureAttributes (textures m) i t Hi) as H.
  rewrite (length_bind_const _ 9) in H by done.
  rewrite length_take_le in H by (apply lookup_lt_Some in Hi; lia). exact H.
Qed.

(** ** References between entities *)

(** X8. For every model the encoder accepts, with fewer than 2^31
    geometries: the geometry portion of a mesh record whose geometry has the
    id of a geometry of the model, other than [__proto__], is the index of
    the last geometry with that id, which is where [eachGeometryId] holds
    the id; for the id [__proto__], which the dictionary of indices (a plain
    object) never holds as a key, the geometry portion is 0, whether a
    geometry of the model has that id or not. *)
Theorem geometry_references_resolve m :
  valid_model m ->
  Z.of_nat (length (geometries m)) < 2 ^ 31 ->
  exists d,
    modelToDTX m = Normal d /\
    eachGeometryId d = (fun g => Some (geometry_id g)) <$> geometries m /\
    forall j mesh,
      references (objects m) !! j = Some mesh ->
      (geometry_id (geometry mesh) = "__proto__" ->
       eachMeshGeometriesPortion d !! j = Some 0) /\
      (geometry_id (geometry mesh) <> "__proto__" ->
       geometry_id (geometry mesh) ∈ geometry_id <$> geometries m ->
       exists k : nat,
         eachMeshGeometriesPortion d !! j = Some (Z.of_nat k) /\
         eachGeometryId d !! k = Some (Some (geometry_id (geometry mesh))) /\
         forall k', (k < k')%nat ->
                    eachGeometryId d !! k' ≠ Some (Some (geometry_id (geometry mesh)))).
Proof.
  intros Hvalid Hbound. destruct (run_spec m Hvalid) as (st & Hrun & Henc).
  destruct (enc_geometry _ _ Henc) as [_ _ _ _ _ _ _ Hids _].
  destruct (enc_object _ _ Henc) as [[_ _ _ _ _ _ _ Hgeo _ _ _ _ _ _ _] _ _].
  exists (dtxData st). split; [by apply modelToDTX_run|]. split; [done|].
  intros j mesh Hj.
  assert (eachMeshGeometriesPortion (dtxData st) !! j =
          Some (wrap 32 (index_value (index_table (geometry_id <$> geometries m)
                                        !! geometry_id (geometry mesh))))) as Hvalue.
  { eapply Written_lookup; [exact Hgeo|].
    unfold meshGeometriesPortion_of. by rewrite list_lookup_fmap, Hj. }
  split.
  { intros Hproto. by rewrite Hvalue, Hproto, index_table_proto. }
  intros Hproto Hin. destruct (index_table_is_Some _ _ Hproto Hin) as [k Hk].
  pose proof (index_table_lookup _ _ _ Hk) as Hid.
  pose proof (index_table_last _ _ _ Hk) as Hlast.
  exists k. split_and!.
  - rewrite Hvalue.
    f_equal. apply (index_value_small _ _ _ 32 Hk); [|done].
    apply lookup_lt_Some in Hid. rewrite length_fmap in Hid. lia.
  - rewrite Hids. rewrite list_lookup_fmap in Hid. rewrite list_lookup_fmap.
    destruct (geometries m !! k) as [g|]; simpl in *; congruence.
  - intros k' Hk' Hid'. apply (Hlast k' Hk'). rewrite Hids in Hid'.
    rewrite list_lookup_fmap in Hid'. rewrite list_lookup_fmap.
    destruct (geometries m !! k') as [g|]; simpl in *; congruence.
Qed.

(** X9. For every model the encoder accepts, with fewer than 2^31 textures
    and texture sets: the entry of a mesh record whose texture set has the
    id of a texture set of the model, other than [__proto__], is the index
    of the last texture set with that id; a slot of a texture set whose
    texture has the id of a texture of the model, other than [__proto__],
    holds the index of the last texture with that id; and for the id
    [__proto__], which the dictionaries of indices (plain objects) never
    hold as a key, the entry and the slot hold 0. *)
Theorem texture_references_resolve m :
  valid_model m ->
  Z.of_nat (length (textures m)) < 2 ^ 31 ->
  Z.of_nat (length (textureSets m)) < 2 ^ 31 ->
  exists d,
    modelToDTX m = Normal d /\
    (forall j mesh ts,
       references (objects m) !! j = Some mesh ->
       textureSet mesh = Some ts ->
       (textureSet_id ts = "__proto__" -> eachMeshTextureSet d !! j = Some 0) /\
       (textureSet_id ts <> "__proto__" ->
        textureSet_id ts ∈ textureSet_id <$> textureSets m ->
        exists k : nat,
          eachMeshTextureSet d !! j = Some (Z.of_nat k) /\
          (textureSet_id <$> textureSets m) !! k = Some (textureSet_id ts) /\
          forall k', (k < k')%nat ->
                     (textureSet_id <$> textureSets m) !! k' ≠ Some (textureSet_id ts))) /\
    (forall i ts s texture,
       textureSets m !! i = Some ts ->
       [colorTexture ts; metallicRoughnessTexture ts; emissiveTexture ts;
        occlusionTexture ts] !! s = Some (Some texture) ->
       (texture_id texture = "__proto__" ->
        eachTextureSetTextures d !! (4 * i + s)%nat = Some 0) /\
       (texture_id texture <> "__proto__" ->
        texture_id texture ∈ texture_id <$> textures m ->
        exists k : nat,
          eachTextureSetTextures d !! (4 * i + s)%nat = Some (Z.of_nat k) /\
          (texture_id <$> textures m) !! k = Some (texture_id texture) /\
          forall k', (k < k')%nat ->
                     (texture_id <$> textures m) !! k' ≠ Some (texture_id texture))).
Proof.
  intros Hvalid Htextures HtextureSets.
  destruct (run_spec m Hvalid) as (st & Hrun & Henc).
  destruct (enc_textureSet _ _ Henc) as [_ _ Hslots _].
  destruct (enc_object _ _ Henc) as [[_ _ _ _ _ _ _ _ _ Hsets _ _ _ _ _] _ _].
  exists (dtxData st). split; [by apply modelToDTX_run|]. split.
  - intros j mesh ts Hj Hts.
    assert (eachMeshTextureSet (dtxData st) !! j =
            Some (wrap_signed 32 (index_value (index_table (textureSet_id <$> textureSets m)
                                                 !! textureSet_id ts)))) as Hvalue.
    { erewrite (Written_lookup _ _ _ _ _ _ Hsets);
        [|unfold meshTextureSet_of; by rewrite list_lookup_fmap, Hj].
      simpl. by rewrite Hts. }
    split.
    { intros Hproto. by rewrite Hvalue, Hproto, index_table_proto. }
    intros Hproto Hin. destruct (index_table_is_Some _ _ Hproto Hin) as [k Hk].
    pose proof (index_table_lookup _ _ _ Hk) as Hid.
    exists k. split_and!; [|done|by apply index_table_last].
    rewrite Hvalue. f_equal. apply (index_value_small _ _ _ 32 Hk); [|done].
    apply lookup_lt_Some in Hid. rewrite length_fmap in Hid. lia.
  - intros i ts s texture Hi Hs.
    assert (s < 4)%nat by (apply lookup_lt_Some in Hs; simpl in Hs; lia).
    assert (eachTextureSetTextures (dtxData st) !! (4 * i + s)%nat =
            Some (wrap_signed 32 (index_value (index_table (texture_id <$> textures m)
                                                 !! texture_id texture)))) as Hvalue.
    { erewrite (Written_lookup _ _ _ _ _ _ Hslots);
        [|unfold textureSetTextures_of; rewrite (lookup_bind_groups _ 4 _ i ts s) by done;
          unfold slots_of; by rewrite !list_lookup_fmap, Hs].
      done. }
    split.
    { intros Hproto. by rewrite Hvalue, Hproto, index_table_proto. }
    intros Hproto Hin. destruct (index_table_is_Some _ _ Hproto Hin) as [k Hk].
    pose proof (index_table_lookup _ _ _ Hk) as Hid.
    exists k. split_and!; [|done|by apply index_table_last].
    rewrite Hvalue. f_equal. apply (index_value_small _ _ _ 32 Hk); [|done].
    apply lookup_lt_Some in Hid. rewrite length_fmap in Hid. lia.
Qed.

(** X10. For every model the encoder accepts, a reference to an entity whose
    id the model does not have is not refused: the geometry portion of a
    mesh whose geometry is not in the model is 0, the texture-set entry of a
    mesh whose texture set is not in the model is 0, and the slot of a
    texture that is not in the model is 0, as for a reference to the first
    geometry, texture set or texture. *)
Theorem dangling_references m :
  valid_model m ->
  exists d,
    modelToDTX m = Normal d /\
    (forall j mesh,
       references (objects m) !! j = Some mesh ->
       geometry_id (geometry mesh) ∉ geometry_id <$> geometries m ->
       eachMeshGeometriesPortion d !! j = Some 0) /\
    (forall j mesh ts,
       references (objects m) !! j = Some mesh ->
       textureSet mesh = Some ts ->
       textureSet_id ts ∉ textureSet_id <$> textureSets m ->
       eachMeshTextureSet d !! j = Some 0) /\
    (forall i ts s texture,
       textureSets m !! i = Some ts ->
       [colorTexture ts; metallicRoughnessTexture ts; emissiveTexture ts;
        occlusionTexture ts] !! s = Some (Some texture) ->
       texture_id texture ∉ texture_id <$> textures m ->
       eachTextureSetTextures d !! (4 * i + s)%nat = Some 0).
Proof.
  intros Hvalid. destruct (run_spec m Hvalid) as (st & Hrun & Henc).
  destruct (enc_textureSet _ _ Henc) as [_ _ Hslots _].
  destruct (enc_object _ _ Henc) as [[_ _ _ _ _ _ _ Hgeo _ Hsets _ _ _ _ _] _ _].
  exists (dtxData st). split; [by apply modelToDTX_run|]. split_and!.
  - intros j mesh Hj Hnin.
    erewrite (Written_lookup _ _ _ _ _ _ Hgeo);
      [|unfold meshGeometriesPortion_of; by rewrite list_lookup_fmap, Hj].
    simpl. by rewrite (index_table_None _ _ Hnin).
  - intros j mesh ts Hj Hts Hnin.
    erewrite (Written_lookup _ _ _ _ _ _ Hsets);
      [|unfold meshTextureSet_of; by rewrite list_lookup_fmap, Hj].
    simpl. by rewrite Hts, (index_table_None _ _ Hnin).
  - intros i ts s texture Hi Hs Hnin.
    assert (s < 4)%nat by (apply lookup_lt_Some in Hs; simpl in Hs; lia).
    erewrite (Written_lookup _ _ _ _ _ _ Hslots);
      [|unfold textureSetTextures_of; rewrite (lookup_bind_groups _ 4 _ i ts s) by done;
        unfold slots_of; by rewrite !list_lookup_fmap, Hs].
    simpl. by rewrite (index_table_None _ _ Hnin).
Qed.

(** ** Objects *)

(** X4. For every model the encoder accepts, [eachObjectId] lists the ids
    of the objects, in order and without holes, and
    [eachObjectMeshesPortion] cuts the mesh records into the meshes of the
    objects: the ids in [eachMeshId] from the portion of object [i] up to
    the portion of object [i + 1] (or the end) are the ids of the meshes of
    object [i], in order (fewer than 2^32 references). *)
Theorem object_mesh_segments m :
  valid_model m ->
  exists d,
    modelToDTX m = Normal d /\
    eachObjectId d = (fun o => Some (object_id o)) <$> objects m /\
    (Z.of_nat (length (eachMeshId d)) < 2 ^ 32 ->
     segments (eachObjectMeshesPortion d) (eachMeshId d) (objects m)
       (fun o => (fun mesh => Some (mesh_id mesh)) <$> object_meshes o)).
Proof.
  intros Hvalid. destruct (run_spec m Hvalid) as (st & Hrun & Henc).
  destruct (enc_object _ _ Henc) as [[_ _ _ _ _ _ _ _ _ _ Hids _ _ _ _] Iop Hoids].
  array_length Henc D_eachObjectMeshesPortion.
  exists (dtxData st). split; [by apply modelToDTX_run|]. split; [done|].
  rewrite Hids.
  rewrite (Written_exact _ _ _ _ Iop)
    by (unfold objectMeshesPortion_of; rewrite length_history; congruence).
  unfold references. rewrite fmap_bind_list. intros Hbound.
  apply (history_segments _ (fun pre => length (pre ≫= object_meshes))); [|done].
  intros i. by rewrite length_bind_fmap.
Qed.

(** ** The run as a whole *)

(** X11. For every model the encoder accepts, the fill pass leaves the cursor
    of each of these arrays at the length the pre-pass gave the array:
    positions, colors, uvs, the three index and three edge-index arrays,
    texture data and decode matrices; and it counts as many buckets and
    geometries as the per-bucket and per-geometry arrays have elements. *)
Theorem data_arrays_filled m :
  valid_model m ->
  exists st,
    run m = Normal st /\
    countPositions st = length (positions (dtxData st)) /\
    countColors st = length (colors (dtxData st)) /\
    countUVs st = length (uvs (dtxData st)) /\
    countIndices8Bit st = length (indices8Bit (dtxData st)) /\
    countIndices16Bit st = length (indices16Bit (dtxData st)) /\
    countIndices32Bit st = length (indices32Bit (dtxData st)) /\
    countEdgeIndices8Bit st = length (edgeIndices8Bit (dtxData st)) /\
    countEdgeIndices16Bit st = length (edgeIndices16Bit (dtxData st)) /\
    countEdgeIndices32Bit st = length (edgeIndices32Bit (dtxData st)) /\
    portionIdx st = length (textureData (dtxData st)) /\
    countDecodeMatrices st = length (decodeMatrices (dtxData st)) /\
    countBuckets st = length (eachBucketIndicesBitness (dtxData st)) /\
    geometryIndex st = length (eachGeometryPrimitiveType (dtxData st)).
Proof.
  intros Hvalid. destruct (run_spec m Hvalid) as (st & Hrun & Henc).
  destruct (sizes_spec m (valid_geometries _ Hvalid))
    as [Hb Hp Hc Hu H8 H16 H32 E8 E16 E32 _ Htex Hdec].
  destruct (enc_geometry _ _ Henc)
    as [Hgi [Hbc [Cpos _] [Ccol _] [Cuvs _] [[C8 _] [C16 _] [C32 _] _]
             [[D8 _] [D16 _] [D32 _] _] _ _ _ _] _ [Cdec _] _ _ _ _ _].
  destruct (enc_texture _ _ Henc) as [[Ctex _] _ _ _].
  pose proof (length_decodeMatrices_of _ (valid_geometries _ Hvalid)) as Ldec.
  array_length Henc D_positions. array_length Henc D_colors. array_length Henc D_uvs.
  array_length Henc D_indices8Bit. array_length Henc D_indices16Bit.
  array_length Henc D_indices32Bit. array_length Henc D_edgeIndices8Bit.
  array_length Henc D_edgeIndices16Bit. array_length Henc D_edgeIndices32Bit.
  array_length Henc D_textureData. array_length Henc D_decodeMatrices.
  array_length Henc D_eachBucketIndicesBitness.
  array_length Henc D_eachGeometryPrimitiveType.
  exists st. split; [done|]. rewrite (valid_colors _ Hvalid) in Ccol. simpl in Ccol.
  split_and!; lia.
Qed.

(** When the fill pass completes, every bucket had positions, and colors
    that fit an array of length 0. *)
Lemma run_requires m st :
  run m = Normal st ->
  Forall (fun b => is_Some (positionsCompressed b) /\ elements (colorsCompressed b) = [])
    (buckets_of (geometries m)).
Proof.
  unfold run. intros H.
  apply bind_Normal in H as (st1 & H1 & _).
  apply Forall_forall. intros b (g & Hb & Hg)%list_elem_of_bind.
  destruct (for_each_reaches _ same_shape same_shape_refl same_shape_trans
              fillGeometry_shape _ _ _ g H1 Hg) as (s1 & s2 & S1 & Hfill).
  unfold fillGeometry in Hfill.
  apply bind_Normal in Hfill as (s3 & [Hfit ->]%assign_all_Normal & Hfill).
  apply bind_Normal in Hfill as (s4 & Hbuckets & _).
  match type of Hbuckets with for_each _ _ ?s = _ => set (s3 := s) in * end.
  assert (same_shape s1 s3) as S3 by (subst s3; solve_shape).
  destruct (for_each_reaches _ same_shape same_shape_refl same_shape_trans
              fillBucket_shape _ _ _ b Hbuckets Hb) as (s5 & s6 & S5 & Hbucket).
  clear Hbuckets. unfold fillBucket in Hbucket.
  apply bind_Normal in Hbucket as (ps & Hps & Hbucket).
  split; [destruct (positionsCompressed b); [eauto|done]|].
  apply bind_Normal in Hbucket as (s7 & [Hfit7 ->]%assign_all_Normal & Hbucket).
  apply bind_Normal in Hbucket as (s8 & S8%fillIndices_shape & Hbucket).
  apply bind_Normal in Hbucket as (s9 & S9%fillEdgeIndices_shape & Hbucket).
  apply bind_Normal in Hbucket as (s10 & Hcolors & _).
  match type of S8 with same_shape ?s _ => set (s7 := s) in * end.
  assert (same_shape s5 s7) as S7 by (subst s7; solve_shape).
  assert (length (colors (dtxData s9)) = 0%nat) as Hlen.
  { pose proof (S9 D_colors) as E9. pose proof (S8 D_colors) as E8.
    pose proof (S7 D_colors) as E7. pose proof (S5 D_colors) as E5.
    pose proof (S3 D_colors) as E3. pose proof (S1 D_colors) as E1.
    simpl in E9, E8, E7, E5, E3, E1. unfold alloc in E1.
    rewrite length_replicate, lenColors_sizes in E1. lia. }
  unfold fillColors in Hcolors. destruct (colorsCompressed b) as [cs|]; [|done].
  apply bind_Normal in Hcolors as (s11 & [Hfit11 _]%assign_all_Normal & _).
  simpl. destruct cs; [done|]. simpl in Hfit11. lia.
Qed.

(** X12. Whatever the model, when the encoder returns a payload, every
    bucket of the model has positions and no bucket has a color: the fill
    pass reads the length of the positions of every bucket, and writes the
    colors of a bucket into an array of length 0. *)
Theorem completion_requires m d :
  modelToDTX m = Normal d ->
  Forall (fun b => is_Some (positionsCompressed b) /\ elements (colorsCompressed b) = [])
    (buckets_of (geometries m)).
Proof.
  unfold modelToDTX. intros (st & Hrun & _)%bind_Normal. by eapply run_requires.
Qed.

(** X13. A model whose objects hold more mesh references than the model has
    meshes is not encoded: the matrix of the first reference beyond the
    number of meshes does not fit the matrices array, and the encoder
    throws a [RangeError] (every bucket having positions and no colors, and
    the matrices having 16 elements). *)
Theorem reference_overflow_throws m :
  Forall valid_geometry (geometries m) ->
  colors_of (buckets_of (geometries m)) = [] ->
  Forall valid_object (objects m) ->
  (length (meshes m) < length (references (objects m)))%nat ->
  modelToDTX m = Throw RangeError.
Proof.
  intros Hgs Hcolors Hos Hover. unfold modelToDTX.
  by rewrite (run_overflow m Hgs Hcolors Hos Hover).
Qed.

Lemma colors_of_nil bs :
  Forall (fun b => elements (colorsCompressed b) = []) bs -> colors_of bs = [].
Proof.
  unfold colors_of. induction 1 as [|b bs Hb _ IH]; [done|].
  by rewrite bind_cons, Hb, IH.
Qed.

(** X15. For a model whose decompression and mesh matrices have 16 elements,
    the encoder returns a payload exactly when every bucket has positions,
    no bucket has a color, and the objects hold no more mesh references
    than the model has meshes. *)
Theorem completion_iff m :
  Forall (fun g => length (positionsDecompressMatrix g) = 16%nat) (geometries m) ->
  Forall valid_object (objects m) ->
  (exists d, modelToDTX m = Normal d) <->
  Forall (fun b => is_Some (positionsCompressed b) /\ elements (colorsCompressed b) = [])
    (buckets_of (geometries m)) /\
  (length (references (objects m)) <= length (meshes m))%nat.
Proof.
  intros H16 Hos.
  assert (Forall (fun b => is_Some (positionsCompressed b) /\
                           elements (colorsCompressed b) = [])
            (buckets_of (geometries m)) ->
          Forall valid_geometry (geometries m) /\
          colors_of (buckets_of (geometries m)) = []) as Hvalid.
  { intros Hbs. split.
    - apply Forall_forall. intros g Hg. split; [by eapply (proj1 (Forall_forall _ _) H16)|].
      apply Forall_forall. intros b Hb.
      eapply (proj1 (Forall_forall _ _) Hbs). apply list_elem_of_bind. eauto.
    - apply colors_of_nil. eapply Forall_impl; [exact Hbs|]. by intros b [_ ?]. }
  split.
  - intros (d & (st & Hrun & _)%bind_Normal).
    pose proof (run_requires _ _ Hrun) as Hbs. split; [done|].
    destruct (Hvalid Hbs) as [Hgs Hcolors].
    destruct (decide (length (references (objects m)) <= length (meshes m))%nat); [done|].
    rewrite run_overflow in Hrun by (done || lia). done.
  - intros [Hbs Hrefs]. destruct (Hvalid Hbs) as [Hgs Hcolors].
    destruct (run_spec m) as (st & Hrun & _); [by split|].
    exists (dtxData st). by apply modelToDTX_run.
Qed.

(** X14. The payload depends on the meshes mapping of the model only through
    the number of its entries: two models with the same geometries,
    textures, texture sets and objects, and equally many meshes, have the
    same encoding, completed or not. *)
Theorem meshes_only_counted m m' :
  geometries m = geometries m' ->
  textures m = textures m' ->
  textureSets m = textureSets m' ->
  objects m = objects m' ->
  length (meshes m) = length (meshes m') ->
  modelToDTX m = modelToDTX m'.
Proof.
  destruct m as [gs ts tss ms os], m' as [gs' ts' tss' ms' os']. simpl.
  intros <- <- <- <- Hlen.
  pose proof (sizes_meshes gs ts tss ms ms' os Hlen) as Hsizes.
  unfold modelToDTX, run, initial, allocate. simpl. by rewrite Hsizes, Hlen.
Qed.
End Extras.

(** * The further properties on concrete models *)

(** A triangle with its indices and its edges. *)
Definition edges_model : SceneModel :=
  let b := {| positionsCompressed := Some [0; 0; 0; 9; 0; 0; 0; 9; 0];
              indices := Some [0; 1; 2]; edgeIndices := Some [0; 1; 1; 2; 2; 0];
              colorsCompressed := None; uvsCompressed := Some [0; 0.5; 1]%float |} in
  {| geometries := [geometry0 [b]]; textures := []; textureSets := []; meshes := [];
     objects := [] |}.

Lemma edges_valid : valid_model edges_model.
Proof.
  split.
  - constructor; [|constructor]. split; [reflexivity|].
    repeat (constructor; [by eexists|]). constructor.
  - vm_compute. reflexivity.
  - constructor.
  - simpl. lia.
Qed.

Lemma dangling_valid : valid_model dangling_model.
Proof.
  split.
  - constructor; [|constructor]. split; [reflexivity|].
    repeat (constructor; [by eexists|]). constructor.
  - vm_compute. reflexivity.
  - repeat (constructor; [repeat (constructor; [reflexivity|]); constructor|]). constructor.
  - simpl. lia.
Qed.

Lemma wide_texture_valid : valid_model wide_texture_model.
Proof.
  split.
  - constructor; [|constructor]. split; [reflexivity|].
    repeat (constructor; [by eexists|]). constructor.
  - vm_compute. reflexivity.
  - constructor.
  - simpl. lia.
Qed.

Lemma proto_valid : valid_model proto_model.
Proof.
  split.
  - repeat (constructor; [split; [reflexivity|];
                          repeat (constructor; [by eexists|]); constructor|]).
    constructor.
  - vm_compute. reflexivity.
  - repeat (constructor; [repeat (constructor; [reflexivity|]); constructor|]). constructor.
  - simpl. lia.
Qed.

(** The texture data of the payload of [wide_texture_model]. *)
Lemma wide_texture_payload :
  exists d,
    @modelToDTX sample_host wide_texture_model = Normal d /\
    textureData d = [44; 1; 0; 0; 137; 80; 78; 71] /\
    eachTextureDataPortion d = [0; 4].
Proof. eexists. split; [vm_compute; reflexivity|]. vm_compute. by split_and!. Qed.

(** The lengths of the arrays of two payloads. *)
Lemma scenario_array_lengths :
  exists d,
    @modelToDTX sample_host scenario = Normal d /\
    length (positions d) = 801%nat /\ length (uvs d) = 0%nat /\
    length (indices8Bit d) = 3%nat /\ length (indices16Bit d) = 3%nat /\
    length (indices32Bit d) = 0%nat /\
    length (textureData d) = 4%nat /\ length (decodeMatrices d) = 16%nat /\
    length (eachMeshId d) = 3%nat.
Proof. eexists. split; [vm_compute; reflexivity|]. vm_compute. by split_and!. Qed.

Lemma edges_array_lengths :
  exists d,
    @modelToDTX sample_host edges_model = Normal d /\
    length (positions d) = 9%nat /\
    length (edgeIndices8Bit d) = 6%nat /\ length (edgeIndices16Bit d) = 0%nat /\
    length (edgeIndices32Bit d) = 0%nat.
Proof. eexists. split; [vm_compute; reflexivity|]. vm_compute. by split_and!. Qed.

(** [d] is the payload of the scenario. *)
(** Indices checked against the number of vertices. *)
Ltac check_addresses :=
  unfold addresses;
  repeat (apply Forall_cons_2;
          [split; [apply Z.leb_le|apply Z.ltb_lt]; vm_compute; reflexivity|]);
  apply Forall_nil_2.

Ltac scenario_payload d Hd L :=
  let d' := fresh "d" in
  let Hd' := fresh "Hd" in
  destruct scenario_array_lengths as (d' & Hd' & L);
  rewrite Hd in Hd'; injection Hd' as <-.

Lemma bucket_data_segments_witness :
  valid_model scenario /\
  exists d,
    @modelToDTX sample_host scenario = Normal d /\
    segments (eachBucketPositionsPortion d) (positions d) (buckets_of (geometries scenario))
      (fun b => wrap 16 <$> elements (positionsCompressed b)).
Proof.
  split; [exact scenario_valid|].
  destruct (@bucket_data_segments sample_host scenario scenario_valid) as (d & Hd & Hp & _).
  scenario_payload d Hd L. destruct L as (Lp & _).
  exists d. split; [exact Hd|]. apply Hp. rewrite Lp. reflexivity.
Defined.

Lemma geometry_segments_witness :
  valid_model scenario /\
  exists d,
    @modelToDTX sample_host scenario = Normal d /\
    segments (eachGeometryBucketPortion d) (buckets_of (geometries scenario))
      (geometries scenario) geometryBuckets /\
    segments (eachGeometryDecodeMatricesPortion d) (decodeMatrices d) (geometries scenario)
      (fun g => fround <$> positionsDecompressMatrix g).
Proof.
  split; [exact scenario_valid|].
  destruct (@geometry_segments sample_host scenario scenario_valid) as (d & Hd & Hb & Hm).
  scenario_payload d Hd L. destruct L as (_ & _ & _ & _ & _ & _ & Ld & _).
  exists d. split_and!; [exact Hd| |].
  - apply Hb. reflexivity.
  - apply Hm. rewrite Ld. reflexivity.
Defined.

Lemma texture_data_segments_witness :
  valid_model wide_texture_model /\
  exists d,
    @modelToDTX sample_host wide_texture_model = Normal d /\
    textureData d = [44; 1; 0; 0; 137; 80; 78; 71] /\
    eachTextureDataPortion d = [0; 4] /\
    segments (eachTextureDataPortion d) (textureData d) (textures wide_texture_model)
      (fun t =>
         (wrap 8 <$> values (imageData t)) ++
         replicate (byteLength (imageData t) - length (values (imageData t))) 0).
Proof.
  split; [exact wide_texture_valid|].
  destruct (@texture_data_segments sample_host wide_texture_model wide_texture_valid)
    as (d & Hd & Ht).
  destruct wide_texture_payload as (d' & Hd' & Hdata & Hportion).
  rewrite Hd in Hd'. injection Hd' as <-.
  exists d. split_and!; [exact Hd|exact Hdata|exact Hportion|].
  apply Ht. rewrite Hdata. reflexivity.
Defined.

Lemma object_mesh_segments_witness :
  valid_model scenario /\
  exists d,
    @modelToDTX sample_host scenario = Normal d /\
    eachObjectId d = [Some "o"] /\
    segments (eachObjectMeshesPortion d) (eachMeshId d) (objects scenario)
      (fun o => (fun mesh => Some (mesh_id mesh)) <$> object_meshes o).
Proof.
  split; [exact scenario_valid|].
  destruct (@object_mesh_segments sample_host scenario scenario_valid)
    as (d & Hd & Hids & Ho).
  scenario_payload d Hd L. destruct L as (_ & _ & _ & _ & _ & _ & _ & Lm).
  exists d. split_and!; [exact Hd|exact Hids|]. apply Ho. rewrite Lm. reflexivity.
Defined.

Lemma index_data_segments_witness :
  valid_model scenario /\
  exists d,
    @modelToDTX sample_host scenario = Normal d /\
    exists t (p : nat),
      eachBucketIndicesBitness d !! 1%nat = Some t /\
      eachBucketIndicesPortion d !! 1%nat = Some (Z.of_nat p) /\
      take 3 (drop p (index_array d t)) = [0; 1; 256].
Proof.
  split; [exact scenario_valid|].
  destruct (@index_data_segments sample_host scenario scenario_valid) as (d & Hd & _ & H).
  scenario_payload d Hd L. destruct L as (Lp & _ & L8 & L16 & L32 & _).
  exists d. split; [exact Hd|].
  destruct (H ltac:(by rewrite Lp) ltac:(by rewrite L8) ltac:(by rewrite L16)
              ltac:(by rewrite L32) 1%nat _ [0; 1; 256] eq_refl eq_refl)
    as (t & p & Ht & Hp & _ & Hl).
  exists t, p. split_and!; [exact Ht|exact Hp|]. apply Hl.
  check_addresses.
Defined.

Lemma edge_index_data_segments_witness :
  valid_model edges_model /\
  exists d,
    @modelToDTX sample_host edges_model = Normal d /\
    exists t (p : nat),
      eachBucketIndicesBitness d !! 0%nat = Some t /\
      eachBucketEdgeIndicesPortion d !! 0%nat = Some (Z.of_nat p) /\
      take 6 (drop p (edge_index_array d t)) = [0; 1; 1; 2; 2; 0].
Proof.
  split; [exact edges_valid|].
  destruct (@edge_index_data_segments sample_host edges_model edges_valid)
    as (d & Hd & _ & H).
  destruct edges_array_lengths as (d' & Hd' & Lp & L8 & L16 & L32).
  rewrite Hd in Hd'. injection Hd' as <-.
  exists d. split; [exact Hd|].
  destruct (H ltac:(by rewrite Lp) ltac:(by rewrite L8) ltac:(by rewrite L16)
              ltac:(by rewrite L32) 0%nat _ [0; 1; 1; 2; 2; 0] eq_refl eq_refl)
    as (t & p & Ht & Hp & _ & Hl).
  exists t, p. split_and!; [exact Ht|exact Hp|]. apply Hl.
  check_addresses.
Defined.

Lemma texture_attributes_witness :
  valid_model scenario /\
  exists d,
    @modelToDTX sample_host scenario = Normal d /\
    eachTextureAttributes d = [0; 0; 2; 2; 1008; 1008; 1001; 1001; 1001].
Proof.
  split; [exact scenario_valid|].
  destruct (@texture_attributes sample_host scenario scenario_valid) as (d & Hd & Hlen & H).
  exists d. split; [exact Hd|].
  rewrite <- (take_ge (eachTextureAttributes d) 9) by (rewrite Hlen; simpl; lia).
  exact (H 0%nat texture0 eq_refl).
Defined.

Lemma geometry_references_resolve_witness :
  valid_model proto_model /\
  Z.of_nat (length (geometries proto_model)) < 2 ^ 31 /\
  exists d,
    @modelToDTX sample_host proto_model = Normal d /\
    eachMeshGeometriesPortion d !! 0%nat = Some 0 /\
    exists k : nat,
      eachMeshGeometriesPortion d !! 1%nat = Some (Z.of_nat k) /\
      eachGeometryId d !! k = Some (Some "g2").
Proof.
  assert (Z.of_nat (length (geometries proto_model)) < 2 ^ 31) as Hbound by reflexivity.
  split_and!; [exact proto_valid|exact Hbound|].
  destruct (@geometry_references_resolve sample_host proto_model proto_valid Hbound)
    as (d & Hd & _ & H).
  exists d. split_and!; [exact Hd| |].
  - destruct (H 0%nat _ eq_refl) as [Hproto _]. apply Hproto. reflexivity.
  - destruct (H 1%nat _ eq_refl) as [_ Hresolve].
    destruct Hresolve as (k & Hk & Hid & _); [discriminate| |].
    + simpl. rewrite !elem_of_cons. auto.
    + exists k. by split.
Defined.

Lemma texture_references_resolve_witness :
  valid_model proto_model /\
  Z.of_nat (length (textures proto_model)) < 2 ^ 31 /\
  Z.of_nat (length (textureSets proto_model)) < 2 ^ 31 /\
  exists d,
    @modelToDTX sample_host proto_model = Normal d /\
    (exists k : nat,
       eachMeshTextureSet d !! 0%nat = Some (Z.of_nat k) /\
       (textureSet_id <$> textureSets proto_model) !! k = Some "ts1") /\
    eachTextureSetTextures d !! 4%nat = Some 0 /\
    (exists k : nat,
       eachTextureSetTextures d !! 5%nat = Some (Z.of_nat k) /\
       (texture_id <$> textures proto_model) !! k = Some "t2").
Proof.
  assert (Z.of_nat (length (textures proto_model)) < 2 ^ 31) as Ht by reflexivity.
  assert (Z.of_nat (length (textureSets proto_model)) < 2 ^ 31) as Hts by reflexivity.
  split_and!; [exact proto_valid|exact Ht|exact Hts|].
  destruct (@texture_references_resolve sample_host proto_model proto_valid Ht Hts)
    as (d & Hd & Hmesh & Hslot).
  exists d. split_and!; [exact Hd| | |].
  - destruct (Hmesh 0%nat _ proto_textureSet eq_refl eq_refl) as [_ Hresolve].
    destruct Hresolve as (k & Hk & Hid & _); [discriminate| |].
    + simpl. rewrite !elem_of_cons. auto.
    + exists k. by split.
  - destruct (Hslot 1%nat proto_textureSet 0%nat _ eq_refl eq_refl) as [Hproto _].
    apply Hproto. reflexivity.
  - destruct (Hslot 1%nat proto_textureSet 1%nat _ eq_refl eq_refl) as [_ Hresolve].
    destruct Hresolve as (k & Hk & Hid & _); [discriminate| |].
    + simpl. rewrite !elem_of_cons. auto.
    + exists k. by split.
Defined.

Lemma dangling_references_witness :
  valid_model dangling_model /\
  exists d,
    @modelToDTX sample_host dangling_model = Normal d /\
    eachMeshGeometriesPortion d !! 0%nat = Some 0 /\
    eachMeshTextureSet d !! 0%nat = Some 0.
Proof.
  split; [exact dangling_valid|].
  destruct (@dangling_references sample_host dangling_model dangling_valid)
    as (d & Hd & Hgeometry & HtextureSet & _).
  exists d. split_and!; [exact Hd| |].
  - apply (Hgeometry 0%nat _ eq_refl). simpl.
    rewrite elem_of_cons, elem_of_nil. by intros [?|?].
  - apply (HtextureSet 0%nat _ textureSet0 eq_refl eq_refl). simpl. apply not_elem_of_nil.
Defined.

Lemma data_arrays_filled_witness :
  valid_model scenario /\
  exists st,
    @run sample_host scenario = Normal st /\
    countPositions st = length (positions (dtxData st)) /\
    portionIdx st = length (textureData (dtxData st)).
Proof.
  split; [exact scenario_valid|].
  destruct (@data_arrays_filled sample_host scenario scenario_valid)
    as (st & Hrun & Hp & _ & _ & _ & _ & _ & _ & _ & _ & Ht & _).
  exists st. by split_and!.
Defined.

Lemma completion_requires_witness :
  exists d,
    @modelToDTX sample_host scenario = Normal d /\
    Forall (fun b => is_Some (positionsCompressed b) /\ elements (colorsCompressed b) = [])
      (buckets_of (geometries scenario)).
Proof.
  destruct scenario_array_lengths as (d & Hd & _).
  exists d. split; [exact Hd|]. exact (@completion_requires sample_host scenario d Hd).
Defined.

Lemma shared_mesh_hypotheses :
  Forall valid_geometry (geometries shared_mesh_model) /\
  colors_of (buckets_of (geometries shared_mesh_model)) = [] /\
  Forall valid_object (objects shared_mesh_model) /\
  (length (meshes shared_mesh_model) < length (references (objects shared_mesh_model)))%nat.
Proof.
  split_and!.
  - constructor; [|constructor]. split; [reflexivity|].
    repeat (constructor; [by eexists|]). constructor.
  - vm_compute. reflexivity.
  - repeat (constructor; [repeat (constructor; [reflexivity|]); constructor|]). constructor.
  - simpl. lia.
Qed.

Lemma reference_overflow_throws_witness :
  (length (meshes shared_mesh_model) < length (references (objects shared_mesh_model)))%nat /\
  @modelToDTX sample_host shared_mesh_model = Throw RangeError.
Proof.
  destruct shared_mesh_hypotheses as (Hgs & Hcolors & Hos & Hover).
  split; [exact Hover|].
  exact (@reference_overflow_throws sample_host shared_mesh_model Hgs Hcolors Hos Hover).
Defined.

Lemma completion_iff_witness :
  (exists d, @modelToDTX sample_host scenario = Normal d) <->
  Forall (fun b => is_Some (positionsCompressed b) /\ elements (colorsCompressed b) = [])
    (buckets_of (geometries scenario)) /\
  (length (references (objects scenario)) <= length (meshes scenario))%nat.
Proof.
  apply (@completion_iff sample_host scenario).
  - constructor; [reflexivity|constructor].
  - exact (valid_objects _ scenario_valid).
Defined.

Lemma meshes_only_counted_witness :
  @modelToDTX sample_host spare_mesh_model =
  @modelToDTX sample_host
    {| geometries := geometries spare_mesh_model; textures := [];  textureSets := [];
       meshes := replicate 3 (mesh0 "x" (geometry0 []) (7, 7, 7)%float None 0%float);
       objects := objects spare_mesh_model |}.
Proof. by apply (@meshes_only_counted sample_host). Defined.

(** * Arrays the fill pass never fills *)

Section Underfill.
Context {host : Host}.

End Underfill.

